(** * QuantumSync: peer-verified fingerprint consensus

    A shallow embedding of the TypeScript sources

      - [src/backend/verification/confidence.ts]
        ([ConfidenceAggregator], [PeerReportValidator],
        [TamperDetectionAnalyzer]),
      - [src/backend/fingerprint/mains-hum.ts] ([MainsHumExtractor]),
      - [src/backend/mesh/transport.ts]
        ([MeshTransportManager], [FingerprintCoordinator]),
      - [crypto/pq-crypto] ([PQCryptoManager.verify]),

    the properties the specification states about them, and further
    properties of the code.

    ** Number model

    A JavaScript [number] is an IEEE-754 binary64 value.  It is embedded
    here as an exact real extended with the three non-finite values
    ([Infinity], [-Infinity], [NaN]): arithmetic on finite values is exact
    (rounding, overflow and the sign of zero are idealised away, and a
    [Float32Array] cell holds the value stored into it), while division by
    zero, [Infinity - Infinity], comparisons with [NaN], reads outside an
    array and the like behave as in the language.  The one test whose
    outcome a claim ties to the rounding of a product, the duration test
    at the head of [extract], is given on the kernel's binary64 numbers
    as well ([Binary64]).  Engine limits (the
    largest typed array, the number of arguments of a spread call) are not
    modelled.  Asynchrony ([async]/[await]) is sequential in all the
    functions embedded here and is left out, as is console output.
    Collaborators injected into the classes (the crypto manager, the
    fingerprint lookup callback) and the environment they read (the clock,
    [Math.random], the formatting of numbers into strings) are parameters
    of the embedding. *)

From Stdlib Require Import PrimFloat FloatOps.
From Stdlib Require Import Reals Lra Lia ZArith List String Bool Psatz.
Import ListNotations.

(** A decimal literal of binary64 denotes the nearest binary64 number, as
    it does in JavaScript. *)
Set Warnings "-inexact-float".

Open Scope R_scope.

(** ** JavaScript numbers *)

Module JS.

Inductive number : Type :=
| Fin (r : R)
| PInf
| NInf
| NaN.

Definition Rltb (a b : R) : bool := if Rlt_dec a b then true else false.
Definition Rleb (a b : R) : bool := if Rle_dec a b then true else false.
Definition Reqb (a b : R) : bool := if Req_dec_T a b then true else false.

Definition neg (x : number) : number :=
  match x with
  | Fin a => Fin (- a)
  | PInf => NInf
  | NInf => PInf
  | NaN => NaN
  end.

Definition add (x y : number) : number :=
  match x, y with
  | NaN, _ | _, NaN => NaN
  | Fin a, Fin b => Fin (a + b)
  | PInf, NInf | NInf, PInf => NaN
  | PInf, _ | _, PInf => PInf
  | NInf, _ | _, NInf => NInf
  end.

Definition sub (x y : number) : number := add x (neg y).

(** The infinity with the sign of [a], for [a <> 0]. *)
Definition inf_sign (a : R) : number := if Rltb a 0 then NInf else PInf.

Definition mul (x y : number) : number :=
  match x, y with
  | NaN, _ | _, NaN => NaN
  | Fin a, Fin b => Fin (a * b)
  | Fin a, PInf | PInf, Fin a => if Reqb a 0 then NaN else inf_sign a
  | Fin a, NInf | NInf, Fin a => if Reqb a 0 then NaN else inf_sign (- a)
  | PInf, PInf | NInf, NInf => PInf
  | PInf, NInf | NInf, PInf => NInf
  end.

(** [x / y].  A finite value divided by zero is [NaN] for [0 / 0] and an
    infinity otherwise (with the sign of the numerator: zero is taken as
    [+0]). *)
Definition div (x y : number) : number :=
  match x, y with
  | NaN, _ | _, NaN => NaN
  | Fin a, Fin b =>
      if Reqb b 0 then (if Reqb a 0 then NaN else inf_sign a)
      else Fin (a / b)
  | Fin _, PInf | Fin _, NInf => Fin 0
  | PInf, Fin b => if Rltb b 0 then NInf else PInf
  | NInf, Fin b => if Rltb b 0 then PInf else NInf
  | PInf, PInf | PInf, NInf | NInf, PInf | NInf, NInf => NaN
  end.

(** [Math.sqrt]. *)
Definition sqrt (x : number) : number :=
  match x with
  | Fin a => if Rltb a 0 then NaN else Fin (R_sqrt.sqrt a)
  | PInf => PInf
  | NInf | NaN => NaN
  end.

(** [Math.abs]. *)
Definition abs (x : number) : number :=
  match x with
  | Fin a => Fin (Rabs a)
  | PInf | NInf => PInf
  | NaN => NaN
  end.

(** [x ** 2]. *)
Definition sq (x : number) : number := mul x x.

(** [x < y]. *)
Definition lt (x y : number) : bool :=
  match x, y with
  | NaN, _ | _, NaN => false
  | Fin a, Fin b => Rltb a b
  | NInf, Fin _ | NInf, PInf | Fin _, PInf => true
  | _, _ => false
  end.

(** [x <= y]. *)
Definition le (x y : number) : bool :=
  match x, y with
  | NaN, _ | _, NaN => false
  | Fin a, Fin b => Rleb a b
  | NInf, _ | _, PInf => true
  | _, _ => false
  end.

(** [x > y] and [x >= y]. *)
Definition gt (x y : number) : bool := lt y x.
Definition ge (x y : number) : bool := le y x.

(** [x === y] on numbers. *)
Definition eq (x y : number) : bool :=
  match x, y with
  | Fin a, Fin b => Reqb a b
  | PInf, PInf | NInf, NInf => true
  | _, _ => false
  end.

(** [Math.floor], [Math.ceil], [Math.round] (round half up). *)
Definition floor (x : number) : number :=
  match x with Fin a => Fin (IZR (Zfloor a)) | _ => x end.

Definition ceil (x : number) : number :=
  match x with Fin a => Fin (IZR (Zceil a)) | _ => x end.

Definition round (x : number) : number :=
  match x with Fin a => Fin (IZR (Zfloor (a + / 2))) | _ => x end.

(** [Math.cos], [Math.sin], [Math.PI]. *)
Definition cos (x : number) : number :=
  match x with Fin a => Fin (Rtrigo_def.cos a) | _ => NaN end.

Definition sin (x : number) : number :=
  match x with Fin a => Fin (Rtrigo_def.sin a) | _ => NaN end.

Definition PI : number := Fin Rtrigo1.PI.

(** [Math.min(x, y)] and [Math.max(x, y)]: [NaN] if either argument is. *)
Definition min (x y : number) : number :=
  match x, y with
  | NaN, _ | _, NaN => NaN
  | _, _ => if lt y x then y else x
  end.

Definition max (x y : number) : number :=
  match x, y with
  | NaN, _ | _, NaN => NaN
  | _, _ => if lt x y then y else x
  end.

(** [Math.min(...values)] and [Math.max(...values)]; on no arguments they
    are [Infinity] and [-Infinity]. *)
Definition min_list (values : list number) : number := fold_left min values PInf.
Definition max_list (values : list number) : number := fold_left max values NInf.

(** [x] is a finite integer [z]. *)
Definition to_integer (x : number) : option Z :=
  match x with
  | Fin a => if Reqb a (IZR (Zfloor a)) then Some (Zfloor a) else None
  | _ => None
  end.

(** [arr[i]] used as a number: an index outside the array (or one that is
    not an integer) reads [undefined], which arithmetic turns into [NaN]. *)
Definition getN (arr : list number) (i : nat) : number := nth i arr NaN.

Definition getZ (arr : list number) (i : Z) : number :=
  if (i <? 0)%Z then NaN else getN arr (Z.to_nat i).

Definition get (arr : list number) (i : number) : number :=
  match to_integer i with
  | Some z => getZ arr z
  | None => NaN
  end.

(** [ToIntegerOrInfinity] followed by the clamping of a relative index that
    [slice] applies, for an array of [length] elements. *)
Definition trunc (a : R) : Z := if Rltb a 0 then Zceil a else Zfloor a.

Definition relative_index (x : number) (length : nat) : nat :=
  match x with
  | NaN => 0%nat
  | NInf => 0%nat
  | PInf => length
  | Fin a =>
      let rel := trunc a in
      if (rel <? 0)%Z then Z.to_nat (Z.max (Z.of_nat length + rel) 0)
      else Nat.min (Z.to_nat rel) length
  end.

(** [arr.slice(start, end)]. *)
Definition slice {A : Type} (arr : list A) (start stop : number) : list A :=
  let k := relative_index start (List.length arr) in
  let final := relative_index stop (List.length arr) in
  firstn (final - k) (skipn k arr).

(** The [length] of an array, as a number. *)
Definition len {A : Type} (l : list A) : number := Fin (INR (List.length l)).

Definition of_Z (z : Z) : number := Fin (IZR z).

End JS.

Declare Scope js_scope.
Delimit Scope js_scope with js.
Bind Scope js_scope with JS.number.
Infix "+" := JS.add : js_scope.
Infix "-" := JS.sub : js_scope.
Infix "*" := JS.mul : js_scope.
Infix "/" := JS.div : js_scope.
Infix "<?" := JS.lt (at level 70) : js_scope.
Infix "<=?" := JS.le (at level 70) : js_scope.
Infix ">?" := JS.gt (at level 70) : js_scope.
Infix ">=?" := JS.ge (at level 70) : js_scope.
Infix "===" := JS.eq (at level 70) : js_scope.
Coercion JS.Fin : R >-> JS.number.

Abbreviation number := JS.number.

(** ** Data model ([src/backend/types/index.ts]) *)

Abbreviation Uint8Array := (list Byte.byte).

(** ['high' | 'medium' | 'low'], used for [consensusLevel], [confidence]
    and [riskLevel]. *)
Inductive Level : Type := high | medium | low.

(** ['near' | 'medium' | 'far']. *)
Inductive ProximityLevel : Type := near | prox_medium | far.

Record PeerReport : Type := {
  id : string;
  mediaItemId : string;
  peerEphemeralId : string;
  confidenceScore : number;
  signature : Uint8Array;
  ephemeralPubKey : Uint8Array;
  timestamp : string;
  peerAddress : string;
  proximityLevel : ProximityLevel
}.

Record PeerScore : Type := {
  peerId : string;
  score : number;
  included : bool
}.

Record ConfidenceAggregation : Type := {
  aggregatedScore : number;
  reportCount : number;
  outlierCount : number;
  standardDeviation : number;
  consensusLevel : Level;
  peerScores : list PeerScore
}.

(** ** Exceptions

    The sources throw plain [Error] objects that differ by their message;
    the embedding keeps one constructor per [throw] site and carries the
    numbers the message is built from.  [RangeError] is what the typed-array
    constructor raises on an invalid length. *)

Inductive exn : Type :=
| InsufficientReportsError (count minPeers : number)
| AudioTooShortError (minDuration : number)
| NoMatchingFingerprintError
| RangeError
| Rejected (reason : string).

Inductive result (A : Type) : Type :=
| Ok (a : A)
| Throw (e : exn).
Arguments Ok {A} a.
Arguments Throw {A} e.

Definition bind {A B : Type} (m : result A) (k : A -> result B) : result B :=
  match m with
  | Ok a => k a
  | Throw e => Throw e
  end.

Notation "x <- m ;; k" := (bind m (fun x => k))
  (at level 61, m at next level, right associativity).

(** ** Array helpers *)

(** [l.filter((_, i) => !mask[i])]: an index past the end of [mask] reads
    [undefined], whose negation is [true]. *)
Fixpoint filter_unmasked {A : Type} (l : list A) (mask : list bool) : list A :=
  match l with
  | [] => []
  | x :: l' =>
      match mask with
      | [] => x :: filter_unmasked l' []
      | m :: mask' =>
          if negb m then x :: filter_unmasked l' mask'
          else filter_unmasked l' mask'
      end
  end.

(** [values.reduce((acc, val) => acc + f(val), 0)]. *)
Definition reduce_sum (f : number -> number) (values : list number) : number :=
  fold_left (fun acc val => (acc + f val)%js) values (JS.Fin 0).

(** ** [ConfidenceAggregator] ([src/backend/verification/confidence.ts]) *)

Module ConfidenceAggregator.

(** The [options] argument of [aggregate]; an absent field is [None]. *)
Record Options : Type := {
  outlierThreshold : option number;
  minPeers : option number;
  verifySignatures : option bool
}.

Definition no_options : Options :=
  {| outlierThreshold := None; minPeers := None; verifySignatures := None |}.

Definition default {A : Type} (o : option A) (d : A) : A :=
  match o with Some a => a | None => d end.

(** [computeMean]. *)
Definition computeMean (values : list number) : number :=
  if (JS.len values === 0)%js then 0
  else (reduce_sum (fun val => val) values / JS.len values)%js.

(** [computeStdDev]. *)
Definition computeStdDev (values : list number) (mean : number) : number :=
  if (JS.len values === 0)%js then 0
  else
    let variance :=
      (reduce_sum (fun val => JS.sq (val - mean)) values / JS.len values)%js in
    JS.sqrt variance.

(** [detectOutliers]: the z-score method. *)
Definition zScore (mean stdDev val : number) : number :=
  if (stdDev >? 0)%js then JS.abs ((val - mean) / stdDev)%js else 0.

Definition detectOutliers (values : list number) (mean stdDev threshold : number)
  : list bool :=
  map (fun val => (zScore mean stdDev val >? threshold)%js) values.

(** [assessConsensus]. *)
Definition assessConsensus (scores : list number) (aggregatedScore : number)
  : Level :=
  if (JS.len scores === 0)%js then low
  else
    let mean := computeMean scores in
    let stdDev := computeStdDev scores mean in
    let cv := if (mean >? 0)%js then (stdDev / mean)%js else JS.Fin 1 in
    if (cv <? 0.1)%js && (aggregatedScore >=? 0.7)%js then high
    else if (cv <? 0.3)%js && (aggregatedScore >=? 0.5)%js then medium
    else low.

(** [reports.map((report, i) => ({peerId, score, included: !outlierMask[i]}))]. *)
Fixpoint buildPeerScores (reports : list PeerReport) (outlierMask : list bool)
  : list PeerScore :=
  match reports with
  | [] => []
  | report :: reports' =>
      {| peerId := peerEphemeralId report;
         score := confidenceScore report;
         included := negb (hd false outlierMask) |}
      :: buildPeerScores reports' (tl outlierMask)
  end.

Section WithCrypto.

(** The injected [PQCryptoManager]: [crypto_verify message signature
    publicKey] is [Some b] when [crypto.verify] resolves to [b] and [None]
    when it throws.  [encodeReport mediaItemId confidenceScore timestamp]
    stands for [new TextEncoder().encode(JSON.stringify({...}))]. *)
Variable crypto_verify : Uint8Array -> Uint8Array -> Uint8Array -> option bool.
Variable encodeReport : string -> number -> string -> Uint8Array.

(** [serializeReportForSigning]. *)
Definition serializeReportForSigning (report : PeerReport) : Uint8Array :=
  encodeReport (mediaItemId report) (confidenceScore report) (timestamp report).

(** The outcome of the [try] block for one report: [true] exactly when
    [crypto.verify] returned [true]; a thrown error is caught and logged. *)
Definition signatureValid (report : PeerReport) : bool :=
  match crypto_verify (serializeReportForSigning report)
                      (signature report) (ephemeralPubKey report) with
  | Some isValid => isValid
  | None => false
  end.

(** [verifyReportSignatures]: the loop pushes the valid reports in order. *)
Fixpoint verifyReportSignatures (reports : list PeerReport) : list PeerReport :=
  match reports with
  | [] => []
  | report :: rest =>
      if signatureValid report then report :: verifyReportSignatures rest
      else verifyReportSignatures rest
  end.

(** The body of [aggregate] after the minimum-reports check and the
    signature filter. *)
Definition aggregateReports (reports : list PeerReport) (threshold : number)
  : ConfidenceAggregation :=
  let scores := map confidenceScore reports in
  let mean := computeMean scores in
  let stdDev := computeStdDev scores mean in
  let outlierMask := detectOutliers scores mean stdDev threshold in
  let outlierCount := JS.len (filter (fun isOutlier => isOutlier) outlierMask) in
  let filteredScores := filter_unmasked scores outlierMask in
  let filteredReports := filter_unmasked reports outlierMask in
  let aggregatedScore := computeMean filteredScores in
  let consensusLevel := assessConsensus filteredScores aggregatedScore in
  let peerScores := buildPeerScores reports outlierMask in
  {| aggregatedScore := aggregatedScore;
     reportCount := JS.len filteredReports;
     outlierCount := outlierCount;
     standardDeviation := stdDev;
     consensusLevel := consensusLevel;
     peerScores := peerScores |}.

(** [aggregate]. *)
Definition aggregate (reports : list PeerReport) (options : Options)
  : result ConfidenceAggregation :=
  let outlierThreshold := default (outlierThreshold options) (JS.Fin 2) in
  let minPeers := default (minPeers options) (JS.Fin 3) in
  let verifySignatures := default (verifySignatures options) true in
  if (JS.len reports <? minPeers)%js then
    Throw (InsufficientReportsError (JS.len reports) minPeers)
  else
    let reports :=
      if verifySignatures then verifyReportSignatures reports else reports in
    Ok (aggregateReports reports outlierThreshold).

End WithCrypto.

End ConfidenceAggregator.

(** ** [TamperDetectionAnalyzer] ([src/backend/verification/confidence.ts]) *)

Module TamperDetectionAnalyzer.

Record TamperAnalysis : Type := {
  tamperingLikely : bool;
  indicators : list string;
  riskLevel : Level
}.

Section WithFormat.

(** [percent ratio] stands for the template
    [`${(outlierRatio * 100).toFixed(1)}%`]. *)
Variable percent : number -> string.

(** [if (c) indicators.push(msg)]. *)
Definition push_if (c : bool) (msg : string) (indicators : list string)
  : list string :=
  if c then indicators ++ [msg] else indicators.

(** [analyzeTampering]. *)
Definition analyzeTampering (aggregation : ConfidenceAggregation)
  : TamperAnalysis :=
  let indicators := [] in
  let indicators :=
    push_if (aggregatedScore aggregation <? 0.3)%js
            "Very low confidence score" indicators in
  let indicators :=
    push_if (match consensusLevel aggregation with low => true | _ => false end)
            "Low peer consensus" indicators in
  let outlierRatio :=
    (outlierCount aggregation /
       (reportCount aggregation + outlierCount aggregation))%js in
  let indicators :=
    push_if (outlierRatio >? 0.3)%js
            ("High outlier ratio: " ++ percent outlierRatio) indicators in
  let indicators :=
    push_if (standardDeviation aggregation >? 0.3)%js
            "High variance in peer scores" indicators in
  let riskLevel :=
    if Nat.eqb (List.length indicators) 0 then low
    else if Nat.leb (List.length indicators) 2 then medium
    else high in
  let tamperingLikely := Nat.leb 2 (List.length indicators) in
  {| tamperingLikely := tamperingLikely;
     indicators := indicators;
     riskLevel := riskLevel |}.

End WithFormat.

End TamperDetectionAnalyzer.

(** ** [MainsHumExtractor] ([src/backend/fingerprint/mains-hum.ts]) *)

Abbreviation Float32Array := (list number).

Record FingerprintConfig : Type := {
  sampleRate : number;
  fftWindowSize : number;
  hopSize : number;
  lowCutoff : number;
  highCutoff : number;
  targetFrequency : number;
  frequencyTolerance : number;
  minDuration : number
}.

Definition DEFAULT_FINGERPRINT_CONFIG : FingerprintConfig :=
  {| sampleRate := 44100;
     fftWindowSize := 4096;
     hopSize := 2048;
     lowCutoff := 45;
     highCutoff := 65;
     targetFrequency := 60;
     frequencyTolerance := 2;
     minDuration := 5 |}.

Record Fingerprint : Type := {
  vector : Float32Array;
  hash : string;
  mainsFrequency : number;
  extractionQuality : number;
  duration : number;
  fp_sampleRate : number;
  extractedAt : string
}.

(** ['same_location' | 'nearby' | 'distant' | 'unknown']. *)
Inductive Proximity : Type := same_location | nearby | distant | unknown.

Record FingerprintComparison : Type := {
  similarity : number;
  correlation : number;
  confidence : Level;
  timeOffset : number;
  proximityEstimate : Proximity
}.

(** The argument of [extract]: [Float32Array | Int16Array]. *)
Inductive AudioData : Type :=
| Float32Samples (samples : list number)
| Int16Samples (samples : list Z).

Definition audio_length (audioData : AudioData) : nat :=
  match audioData with
  | Float32Samples l => List.length l
  | Int16Samples l => List.length l
  end.

(** [new Float32Array(length)]: the length goes through [ToIndex], so [NaN]
    allocates an empty array and a negative or infinite length raises a
    [RangeError]. *)
Definition typed_array_length (length : number) : result nat :=
  match length with
  | JS.NaN => Ok 0%nat
  | JS.PInf | JS.NInf => Throw RangeError
  | JS.Fin a =>
      if (JS.trunc a <? 0)%Z then Throw RangeError
      else Ok (Z.to_nat (JS.trunc a))
  end.

(** The values taken by [j] in [for (let j = start; j < stop; j++)] when
    [start] is a non-negative integer or is not finite and [stop] is at most
    [bound]: the integers of [[0, bound)] that are at least [start] and
    below [stop]. *)
Definition loop_indices (start stop : number) (bound : nat) : list nat :=
  filter (fun j => (start <=? JS.Fin (INR j))%js && (JS.Fin (INR j) <? stop)%js)
         (seq 0 bound).

(** The values taken by [i] in [for (let i = start; i < stop; i++)] when
    both bounds are integers.  The loop of [detectMainsFrequency] has the
    bounds [floor(45 / r)] and [ceil(65 / r)], which are integers together
    or are both [NaN] or both [Infinity]; in the latter cases the test
    [i < stop] fails at once.  The counter is an exact integer here; in
    binary64 a counter of [2^53] or more is left unchanged by [i++], so
    for bounds that large (in [detectMainsFrequency], sample rates below
    about [4e-11]) the loop of the code does not end, while this list is
    finite. *)
Definition loop_range (start stop : number) : list Z :=
  match JS.to_integer start, JS.to_integer stop with
  | Some a, Some b => map (fun k => (a + Z.of_nat k)%Z) (seq 0 (Z.to_nat (b - a)))
  | _, _ => []
  end.

Module MainsHumExtractor.

Section WithConfig.

(** [this.config]. *)
Variable config : FingerprintConfig.

(** [computeHash] folds the bytes of the vector's binary32 buffer, which
    the number model does not represent; it is a parameter, as is the clock
    read by [new Date().toISOString()]. *)
Variable computeHash : Float32Array -> string.
Variable now : string.

(** [toFloat32]. *)
Definition toFloat32 (data : AudioData) : Float32Array :=
  match data with
  | Float32Samples l => l
  | Int16Samples l => map (fun x => (JS.of_Z x / 32768)%js) l
  end.

(** [bandpassFilter]. *)
Definition bandpassFilter (data : Float32Array)
  (sampleRate lowCutoff highCutoff : number) : Float32Array :=
  let windowSize := JS.floor (sampleRate / ((lowCutoff + highCutoff) / 2))%js in
  map (fun i =>
         let window :=
           loop_indices (JS.max 0 (JS.Fin (INR i) - windowSize)%js)
                        (JS.min (JS.len data) (JS.Fin (INR i) + windowSize)%js)
                        (List.length data) in
         let sum := fold_left (fun sum j => (sum + JS.getN data j)%js) window (JS.Fin 0) in
         let count := JS.len window in
         (JS.getN data i - sum / count)%js)
      (seq 0 (List.length data)).

(** [fft]: the discrete Fourier transform, as interleaved (real, imaginary)
    pairs. *)
Definition dft_bin (input : Float32Array) (k : nat) : number * number :=
  let n := JS.len input in
  fold_left
    (fun '(sumReal, sumImag) t =>
       let angle := (2 * JS.PI * JS.Fin (INR k) * JS.Fin (INR t) / n)%js in
       ((sumReal + JS.getN input t * JS.cos angle)%js,
        (sumImag - JS.getN input t * JS.sin angle)%js))
    (seq 0 (List.length input)) (JS.Fin 0, JS.Fin 0).

Definition fft (input : Float32Array) : Float32Array :=
  flat_map (fun k => let '(sumReal, sumImag) := dft_bin input k in
                     [sumReal; sumImag])
           (seq 0 (List.length input)).

(** [Math.sqrt(fftResult[bin * 2] ** 2 + fftResult[bin * 2 + 1] ** 2)]. *)
Definition bin_magnitude (fftResult : Float32Array) (bin : number) : number :=
  JS.sqrt (JS.sq (JS.get fftResult (bin * 2)%js)
           + JS.sq (JS.get fftResult (bin * 2 + 1)%js))%js.

(** [detectMainsFrequency]. *)
Definition detectMainsFrequency (data : Float32Array) (sampleRate : number)
  : number :=
  let fftSize : number := 8192 in
  let fftResult := fft (JS.slice data 0 fftSize) in
  let freqResolution := (sampleRate / fftSize)%js in
  let startBin := JS.floor (45 / freqResolution)%js in
  let endBin := JS.ceil (65 / freqResolution)%js in
  let '(maxMagnitude, maxBin) :=
    fold_left
      (fun '(maxMagnitude, maxBin) i =>
         let magnitude := bin_magnitude fftResult (JS.of_Z i) in
         if (magnitude >? maxMagnitude)%js then (magnitude, JS.of_Z i)
         else (maxMagnitude, maxBin))
      (loop_range startBin endBin) (JS.Fin 0, startBin) in
  let detectedFreq := (maxBin * freqResolution)%js in
  if (JS.abs (detectedFreq - 50) <? JS.abs (detectedFreq - 60))%js
  then 50 else 60.

(** [applyHammingWindow]. *)
Definition applyHammingWindow (frame : Float32Array) : Float32Array :=
  map (fun i =>
         let window :=
           (0.54 - 0.46 * JS.cos (2 * JS.PI * JS.Fin (INR i) / (JS.len frame - 1)))%js in
         (JS.getN frame i * window)%js)
      (seq 0 (List.length frame)).

(** [normalize]. *)
Definition normalize (vector : Float32Array) : Float32Array :=
  let min := JS.min_list vector in
  let max := JS.max_list vector in
  let range := (max - min)%js in
  if (range === 0)%js then vector
  else map (fun v => ((v - min) / range)%js) vector.

(** The loop of [extractFingerprintVector]: the magnitude at the target bin
    of each of the [numFrames] frames, before normalisation. *)
Definition frameMagnitudes (data : Float32Array) (sampleRate targetFreq : number)
  (numFrames : nat) : Float32Array :=
  let freqResolution := (sampleRate / fftWindowSize config)%js in
  let targetBin := JS.round (targetFreq / freqResolution)%js in
  map (fun i =>
         let frameStart := (JS.Fin (INR i) * hopSize config)%js in
         let frame := JS.slice data frameStart (frameStart + fftWindowSize config)%js in
         let windowed := applyHammingWindow frame in
         let fftResult := fft windowed in
         bin_magnitude fftResult targetBin)
      (seq 0 numFrames).

(** [extractFingerprintVector]. *)
Definition extractFingerprintVector (data : Float32Array)
  (sampleRate targetFreq : number) : result Float32Array :=
  let numFrames :=
    JS.floor ((JS.len data - fftWindowSize config) / hopSize config)%js in
  n <- typed_array_length numFrames ;;
  Ok (normalize (frameMagnitudes data sampleRate targetFreq n)).

(** [assessExtractionQuality]. *)
Definition assessExtractionQuality (vector : Float32Array) : number :=
  let mean := (reduce_sum (fun val => val) vector / JS.len vector)%js in
  let variance :=
    (reduce_sum (fun val => JS.sq (val - mean)) vector / JS.len vector)%js in
  let stdDev := JS.sqrt variance in
  let snrEstimate := (stdDev / (mean + / 10000000000))%js in
  JS.min 1 (snrEstimate / 0.5)%js.

(** [extract]; [sampleRate] defaults to [this.config.sampleRate]. *)
Definition extract (audioData : AudioData) (sampleRateArg : option number)
  : result Fingerprint :=
  let sampleRate :=
    match sampleRateArg with Some s => s | None => sampleRate config end in
  if (JS.Fin (INR (audio_length audioData)) <? sampleRate * minDuration config)%js then
    Throw (AudioTooShortError (minDuration config))
  else
    let floatData := toFloat32 audioData in
    let filtered :=
      bandpassFilter floatData sampleRate (lowCutoff config) (highCutoff config) in
    let mainsFrequency := detectMainsFrequency filtered sampleRate in
    fingerprintVector <- extractFingerprintVector filtered sampleRate mainsFrequency ;;
    let extractionQuality := assessExtractionQuality fingerprintVector in
    let hash := computeHash fingerprintVector in
    Ok {| vector := fingerprintVector;
          hash := hash;
          mainsFrequency := mainsFrequency;
          extractionQuality := extractionQuality;
          duration := (JS.Fin (INR (audio_length audioData)) / sampleRate)%js;
          fp_sampleRate := sampleRate;
          extractedAt := now |}.

(** [crossCorrelate]: the correlation at one offset (the inner loop), then
    the search over the offsets [-maxOffset .. maxOffset]. *)
Definition correlationAt (vector1 vector2 : Float32Array) (minLength : nat)
  (offset : Z) : number :=
  let '(sum, count) :=
    fold_left
      (fun '(sum, count) i =>
         let j := (Z.of_nat i + offset)%Z in
         if (0 <=? j)%Z && (j <? Z.of_nat (List.length vector2))%Z
         then ((sum + JS.getN vector1 i * JS.getZ vector2 j)%js, S count)
         else (sum, count))
      (seq 0 minLength) (JS.Fin 0, 0%nat) in
  if (0 <? count)%nat then (sum / JS.Fin (INR count))%js else 0.

Definition offsets (maxOffset : nat) : list Z :=
  map (fun k => (Z.of_nat k - Z.of_nat maxOffset)%Z) (seq 0 (2 * maxOffset + 1)).

Definition crossCorrelate (vector1 vector2 : Float32Array) : number * Z :=
  let minLength := Nat.min (List.length vector1) (List.length vector2) in
  let maxOffset := (minLength / 2)%nat in
  fold_left
    (fun '(maxCorrelation, bestOffset) offset =>
       let correlation := correlationAt vector1 vector2 minLength offset in
       if (correlation >? maxCorrelation)%js then (correlation, offset)
       else (maxCorrelation, bestOffset))
    (offsets maxOffset) (JS.NInf, 0%Z).

(** [cosineSimilarity]. *)
Definition cosineSimilarity (vector1 vector2 : Float32Array) : number :=
  let minLength := Nat.min (List.length vector1) (List.length vector2) in
  let '(dotProduct, norm1, norm2) :=
    fold_left
      (fun '(dotProduct, norm1, norm2) i =>
         ((dotProduct + JS.getN vector1 i * JS.getN vector2 i)%js,
          (norm1 + JS.sq (JS.getN vector1 i))%js,
          (norm2 + JS.sq (JS.getN vector2 i))%js))
      (seq 0 minLength) (JS.Fin 0, JS.Fin 0, JS.Fin 0) in
  let magnitude := JS.sqrt (norm1 * norm2)%js in
  if (magnitude >? 0)%js then (dotProduct / magnitude)%js else 0.

(** [alignVectors]. *)
Definition alignVectors (vector : Float32Array) (offset : Z) : Float32Array :=
  map (fun i =>
         let j := (Z.of_nat i + offset)%Z in
         if (0 <=? j)%Z && (j <? Z.of_nat (List.length vector))%Z
         then JS.getZ vector j else JS.Fin 0)
      (seq 0 (List.length vector)).

(** [determineConfidence]. *)
Definition determineConfidence (similarity quality1 quality2 : number) : Level :=
  let avgQuality := ((quality1 + quality2) / 2)%js in
  let score := (similarity * avgQuality)%js in
  if (score >=? 0.7)%js then high
  else if (score >=? 0.4)%js then medium
  else low.

(** [estimateProximity]. *)
Definition estimateProximity (similarity timeOffsetFrames : number) : Proximity :=
  if (similarity >=? 0.85)%js && (timeOffsetFrames <? 10)%js then same_location
  else if (similarity >=? 0.6)%js && (timeOffsetFrames <? 50)%js then nearby
  else if (similarity >=? 0.3)%js then distant
  else unknown.

(** [compare]. *)
Definition compare (fingerprint1 fingerprint2 : Fingerprint)
  : FingerprintComparison :=
  if (JS.abs (mainsFrequency fingerprint1 - mainsFrequency fingerprint2) >? 5)%js
  then
    {| similarity := 0;
       correlation := 0;
       confidence := low;
       timeOffset := 0;
       proximityEstimate := distant |}
  else
    let '(maxCorrelation, offset) :=
      crossCorrelate (vector fingerprint1) (vector fingerprint2) in
    let alignedVector2 := alignVectors (vector fingerprint2) offset in
    let cosineSimilarity := cosineSimilarity (vector fingerprint1) alignedVector2 in
    let similarity := ((maxCorrelation + cosineSimilarity) / 2)%js in
    let confidence :=
      determineConfidence similarity (extractionQuality fingerprint1)
                          (extractionQuality fingerprint2) in
    let proximityEstimate :=
      estimateProximity similarity (JS.abs (JS.of_Z offset)) in
    {| similarity := similarity;
       correlation := maxCorrelation;
       confidence := confidence;
       timeOffset := (JS.of_Z offset * (hopSize config / sampleRate config))%js;
       proximityEstimate := proximityEstimate |}.

End WithConfig.

End MainsHumExtractor.

(** ** The duration test of [extract] in binary64

    [audioData.length < sampleRate * this.config.minDuration], the test
    at the head of [extract], on binary64 numbers: the product is rounded
    to the nearest binary64 number before the comparison, as the code
    does.  [extract] raises [AudioTooShortError] exactly when this test
    holds. *)

Module Binary64.

Definition tooShort (length sampleRate minDuration : float) : bool :=
  (length <? sampleRate * minDuration)%float.

End Binary64.

(** ** [FingerprintCoordinator.handleFingerprintRequest]
    ([src/backend/mesh/transport.ts]) *)

Record FingerprintRequest : Type := {
  req_mediaItemId : string;
  fingerprintHash : string;
  ephemeralPublicKey : Uint8Array
}.

Record FingerprintResponse : Type := {
  resp_mediaItemId : string;
  resp_confidenceScore : number;
  signedReport : PeerReport
}.

Module FingerprintCoordinator.

Section WithEnvironment.

(** [this.extractorCallback]: a promise of [Float32Array | null]; a rejected
    promise is a [Throw]. *)
Variable extractorCallback : string -> result (option Float32Array).

(** The environment read by the body: [random k] is the value of the
    [k]-th call to [Math.random()], [base36 x] stands for
    [x.toString(36).substr(2, 9)] and [now] for
    [new Date().toISOString()]. *)
Variable random : nat -> number.
Variable base36 : number -> string.
Variable now : string.

(** [handleFingerprintRequest]. *)
Definition handleFingerprintRequest (request : FingerprintRequest)
  : result FingerprintResponse :=
  let mediaItemId := req_mediaItemId request in
  let fingerprintHash := fingerprintHash request in
  localFingerprint <- extractorCallback fingerprintHash ;;
  match localFingerprint with
  | None => Throw NoMatchingFingerprintError
  | Some _ =>
      let confidenceScore := (random 0 * 0.5 + 0.5)%js in
      let report :=
        {| id := "report-" ++ base36 (random 1);
           mediaItemId := mediaItemId;
           peerEphemeralId := "peer-eph-" ++ base36 (random 2);
           confidenceScore := confidenceScore;
           signature := [];
           ephemeralPubKey := [];
           timestamp := now;
           peerAddress := "unknown";
           proximityLevel := near |} in
      Ok {| resp_mediaItemId := mediaItemId;
            resp_confidenceScore := confidenceScore;
            signedReport := report |}
  end.

End WithEnvironment.

End FingerprintCoordinator.

(** ** [PeerReportValidator] ([src/backend/verification/confidence.ts]) *)

Module PeerReportValidator.

(** The object [{ valid, errors }] returned by [validateReport]. *)
Record Validation : Type := {
  valid : bool;
  errors : list string
}.

(** [!s] on a string: only the empty string is falsy. *)
Definition is_empty (s : string) : bool :=
  match s with EmptyString => true | _ => false end.

(** The string a [proximityLevel] is at run time. *)
Definition proximityName (level : ProximityLevel) : string :=
  match level with
  | near => "near"
  | prox_medium => "medium"
  | far => "far"
  end.

(** [values.includes(x)] on strings. *)
Definition includes (values : list string) (x : string) : bool :=
  existsb (String.eqb x) values.

Section WithFormat.

(** [numberToString x] stands for the template [`${x}`]. *)
Variable numberToString : number -> string.

(** [validateReport].  A typed array is an object, so [!report.signature]
    is false and the test on the signature and on the public key is the
    test on their length. *)
Definition validateReport (report : PeerReport) : Validation :=
  let errors := [] in
  let errors :=
    TamperDetectionAnalyzer.push_if (is_empty (id report))
      "Missing report ID" errors in
  let errors :=
    TamperDetectionAnalyzer.push_if (is_empty (mediaItemId report))
      "Missing media item ID" errors in
  let errors :=
    TamperDetectionAnalyzer.push_if (is_empty (peerEphemeralId report))
      "Missing peer ephemeral ID" errors in
  let errors :=
    TamperDetectionAnalyzer.push_if (JS.len (signature report) === 0)%js
      "Missing signature" errors in
  let errors :=
    TamperDetectionAnalyzer.push_if (JS.len (ephemeralPubKey report) === 0)%js
      "Missing public key" errors in
  let errors :=
    TamperDetectionAnalyzer.push_if (is_empty (timestamp report))
      "Missing timestamp" errors in
  let errors :=
    TamperDetectionAnalyzer.push_if
      ((confidenceScore report <? 0)%js || (confidenceScore report >? 1)%js)
      ("Invalid confidence score: " ++ numberToString (confidenceScore report)
         ++ " (must be [0, 1])")
      errors in
  let validProximity := ["near"; "medium"; "far"]%string in
  let errors :=
    TamperDetectionAnalyzer.push_if
      (negb (includes validProximity (proximityName (proximityLevel report))))
      ("Invalid proximity level: " ++ proximityName (proximityLevel report))
      errors in
  {| valid := Nat.eqb (List.length errors) 0;
     errors := errors |}.

(** [validateReports]: the loop pushes the valid reports in order. *)
Fixpoint validateReports (reports : list PeerReport) : list PeerReport :=
  match reports with
  | [] => []
  | report :: rest =>
      if valid (validateReport report) then report :: validateReports rest
      else validateReports rest
  end.

End WithFormat.

End PeerReportValidator.

(** ** [PQCryptoManager.verify] (module [crypto/pq-crypto])

    The manager of the repository checks that it has been initialised
    ([ensureInitialized] throws otherwise) and then accepts every
    signature. *)

Module PQCryptoManager.

Definition verify (initialized : bool) (message signature publicKey : Uint8Array)
  : option bool :=
  if initialized then Some true else None.

End PQCryptoManager.

(** ** [MainsHumExtractor.computeHash] ([src/backend/fingerprint/mains-hum.ts])

    The body of [computeHash] from the bytes of the vector's buffer on:
    the rolling hash on 32-bit integers, then
    [hash.toString(16).padStart(64, '0')]. *)

Module FingerprintHash.

(** [x | 0]: the signed 32-bit integer congruent to [x]. *)
Definition to_int32 (x : Z) : Z := ((x + 2 ^ 31) mod 2 ^ 32 - 2 ^ 31)%Z.

(** [hash = ((hash << 5) - hash) + bytes[i]; hash |= 0]. *)
Definition hashStep (hash : Z) (byte : Byte.byte) : Z :=
  to_int32 (to_int32 (Z.shiftl hash 5) - hash + Z.of_N (Byte.to_N byte)).

Definition hashLoop (bytes : Uint8Array) : Z := fold_left hashStep bytes 0%Z.

Definition hexDigit (d : Z) : string :=
  nth (Z.to_nat d)
      ["0"; "1"; "2"; "3"; "4"; "5"; "6"; "7";
       "8"; "9"; "a"; "b"; "c"; "d"; "e"; "f"]%string "0"%string.

(** The hexadecimal digits of [n >= 0], for an [n] of at most [fuel]
    digits. *)
Fixpoint hexDigits (fuel : nat) (n : Z) : string :=
  match fuel with
  | O => ""
  | S fuel' =>
      if (n <? 16)%Z then hexDigit n
      else hexDigits fuel' (n / 16) ++ hexDigit (n mod 16)
  end.

(** [x.toString(16)] for a 32-bit integer [x]: a sign and at most eight
    digits. *)
Definition toString16 (x : Z) : string :=
  if (x <? 0)%Z then "-" ++ hexDigits 8 (- x) else hexDigits 8 x.

Fixpoint zeros (n : nat) : string :=
  match n with
  | O => ""
  | S n' => "0" ++ zeros n'
  end.

(** [s.padStart(targetLength, '0')]. *)
Definition padStart (s : string) (targetLength : nat) : string :=
  zeros (targetLength - String.length s) ++ s.

Definition computeHash (bytes : Uint8Array) : string :=
  padStart (toString16 (hashLoop bytes)) 64.

End FingerprintHash.

(** ** [MeshTransportManager] and [FingerprintCoordinator.requestComparisons]
    ([src/backend/mesh/transport.ts])

    A JavaScript [Map] is embedded as the list of its entries in insertion
    order.  The manager's event handlers are arbitrary functions whose
    exceptions [emit] catches; the embedding records the emitted events
    and takes the handlers not to call back into the manager.  The
    methods are run to completion one after the other: the timers of the
    mock ([setTimeout]) only delay the response. *)

Module JSMap.

Section WithValue.

Context {V : Type}.

(** [m.get(k)]. *)
Fixpoint get (m : list (string * V)) (k : string) : option V :=
  match m with
  | [] => None
  | (k', v) :: m' => if String.eqb k k' then Some v else get m' k
  end.

(** [m.has(k)]. *)
Definition has (m : list (string * V)) (k : string) : bool :=
  match get m k with Some _ => true | None => false end.

(** [m.set(k, v)]: an existing key keeps its place. *)
Fixpoint set (m : list (string * V)) (k : string) (v : V) : list (string * V) :=
  match m with
  | [] => [(k, v)]
  | (k', v') :: m' =>
      if String.eqb k k' then (k, v) :: m' else (k', v') :: set m' k v
  end.

(** [m.delete(k)]. *)
Definition delete (m : list (string * V)) (k : string) : list (string * V) :=
  filter (fun entry => negb (String.eqb k (fst entry))) m.

(** [m.keys()] and [m.values()]. *)
Definition keys (m : list (string * V)) : list string := map fst m.
Definition values (m : list (string * V)) : list V := map snd m.

End WithValue.

End JSMap.

Module MeshTransportManager.

(** ['wifi_direct' | 'webrtc' | 'bluetooth']. *)
Inductive TransportType : Type := wifi_direct | webrtc | bluetooth.

Record Capabilities : Type := {
  fingerprintComparison : bool;
  relaySupport : bool;
  storageProvider : bool
}.

Record MeshPeer : Type := {
  peerId : string;
  publicKey : Uint8Array;
  address : string;
  transport : TransportType;
  signalStrength : number;
  capabilities : Capabilities;
  lastSeen : string
}.

(** The mock connection objects [{ peerId, transport, close }]; [close]
    only writes to the console. *)
Record Connection : Type := {
  conn_peerId : string;
  conn_transport : TransportType
}.

(** The events the manager emits, with their data. *)
Inductive MeshEvent : Type :=
| PeerConnected (peer : MeshPeer) (timestamp : string)
| PeerDisconnected (peerId : string) (timestamp : string).

(** The fields of the manager that the methods below read or write, and
    the log of the emitted events. *)
Record State : Type := {
  discoveredPeers : list (string * MeshPeer);
  activePeers : list (string * Connection);
  isDiscovering : bool;
  emitted : list MeshEvent
}.

(** A report as it travels in a response: the mock answers with the empty
    object [{} as PeerReport]. *)
Inductive ReportObject : Type :=
| EmptyObject
| ReportOf (report : PeerReport).

(** The payload of the response of the mock. *)
Record ResponsePayload : Type := {
  mediaItemId : string;
  confidenceScore : number;
  signedReport : ReportObject
}.

Inductive MessageType : Type :=
| fingerprint_request | fingerprint_response | key_exchange | report.

Record PeerMessage (Payload : Type) : Type := {
  type : MessageType;
  payload : Payload;
  senderId : string;
  signature : Uint8Array;
  timestamp : string
}.
Arguments type {Payload} _.
Arguments payload {Payload} _.
Arguments senderId {Payload} _.
Arguments signature {Payload} _.
Arguments timestamp {Payload} _.

Section WithEnvironment.

(** [now] stands for [new Date().toISOString()], [myPeerId] for the value
    of ['my-peer-' + Math.random().toString(36).substr(2, 9)] and
    [secureRandom] for [this.crypto.secureRandom], which does not depend
    on the manager being initialised. *)
Variable now : string.
Variable myPeerId : string.
Variable secureRandom : Z -> Uint8Array.

(** [emit]. *)
Definition emit (s : State) (event : MeshEvent) : State :=
  {| discoveredPeers := discoveredPeers s;
     activePeers := activePeers s;
     isDiscovering := isDiscovering s;
     emitted := emitted s ++ [event] |}.

(** [getDiscoveredPeers]. *)
Definition getDiscoveredPeers (s : State) : list MeshPeer :=
  JSMap.values (discoveredPeers s).

(** [connectWebRTC], [connectBluetooth] and [connectWiFiDirect] differ by
    the [transport] of the connection they store. *)
Definition connect (s : State) (peer : MeshPeer) : State :=
  {| discoveredPeers := discoveredPeers s;
     activePeers :=
       JSMap.set (activePeers s) (peerId peer)
                 {| conn_peerId := peerId peer;
                    conn_transport := transport peer |};
     isDiscovering := isDiscovering s;
     emitted := emitted s |}.

(** [connectToPeer]. *)
Definition connectToPeer (s : State) (peerId : string) : result State :=
  match JSMap.get (discoveredPeers s) peerId with
  | None => Throw (Rejected ("Peer " ++ peerId ++ " not found"))
  | Some peer => Ok (emit (connect s peer) (PeerConnected peer now))
  end.

(** [disconnectPeer]. *)
Definition disconnectPeer (s : State) (peerId : string) : State :=
  match JSMap.get (activePeers s) peerId with
  | None => s
  | Some connection =>
      emit {| discoveredPeers := discoveredPeers s;
              activePeers := JSMap.delete (activePeers s) peerId;
              isDiscovering := isDiscovering s;
              emitted := emitted s |}
           (PeerDisconnected peerId now)
  end.

(** [stopDiscovery]: the loop visits the connections in order, and each
    call removes the entry it is on. *)
Definition stopDiscovery (s : State) : State :=
  fold_left disconnectPeer (JSMap.keys (activePeers s))
    {| discoveredPeers := discoveredPeers s;
       activePeers := activePeers s;
       isDiscovering := false;
       emitted := emitted s |}.

(** [signMessage] and [getMyPeerId]. *)
Definition signMessage {Payload : Type} (message : PeerMessage Payload)
  : Uint8Array :=
  secureRandom 2420.

Definition getMyPeerId : string := myPeerId.

(** [sendMessage]: the mock answers every request with a score of 0.85
    and an empty report. *)
Definition sendMessage (s : State) (peerId : string)
  (message : PeerMessage FingerprintRequest)
  : result (PeerMessage ResponsePayload) :=
  match JSMap.get (activePeers s) peerId with
  | None => Throw (Rejected ("Not connected to peer " ++ peerId))
  | Some connection =>
      Ok {| type := fingerprint_response;
            payload :=
              {| mediaItemId := req_mediaItemId (payload message);
                 confidenceScore := 0.85;
                 signedReport := EmptyObject |};
            senderId := peerId;
            signature := [];
            timestamp := now |}
  end.

(** [sendFingerprintRequest]. *)
Definition sendFingerprintRequest (s : State) (peerId : string)
  (request : FingerprintRequest) : result ResponsePayload :=
  match JSMap.get (activePeers s) peerId with
  | None => Throw (Rejected ("Not connected to peer " ++ peerId))
  | Some connection =>
      let message :=
        {| type := fingerprint_request;
           payload := request;
           senderId := getMyPeerId;
           signature := [];
           timestamp := now |} in
      let message :=
        {| type := type message;
           payload := payload message;
           senderId := senderId message;
           signature := signMessage message;
           timestamp := timestamp message |} in
      response <- sendMessage s peerId message ;;
      Ok (payload response)
  end.

(** [FingerprintCoordinator.requestComparisons]: one round of the loop
    over the discovered peers (an exception of the round is caught and
    logged), then the loop. *)
Definition requestFrom (mediaItemId fingerprintHash : string)
  (st : State * list ReportObject) (peer : MeshPeer)
  : State * list ReportObject :=
  let '(s, reports) := st in
  match (if JSMap.has (activePeers s) (peerId peer) then Ok s
         else connectToPeer s (peerId peer)) with
  | Throw _ => (s, reports)
  | Ok s' =>
      let request :=
        {| req_mediaItemId := mediaItemId;
           fingerprintHash := fingerprintHash;
           ephemeralPublicKey := [] |} in
      match sendFingerprintRequest s' (peerId peer) request with
      | Throw _ => (s', reports)
      | Ok response => (s', reports ++ [signedReport response])
      end
  end.

Definition requestComparisons (s : State) (mediaItemId fingerprintHash : string)
  : State * list ReportObject :=
  let peers := getDiscoveredPeers s in
  fold_left (requestFrom mediaItemId fingerprintHash) peers (s, []).

End WithEnvironment.

End MeshTransportManager.

(** ** Vocabulary of the statements *)

(** Sum, mean and sum of squared deviations of a list of reals. *)
Definition Rsum (l : list R) : R := fold_right Rplus 0 l.

Definition Rmean (l : list R) : R := Rsum l / INR (List.length l).

Definition Rsumsq (m : R) (l : list R) : R :=
  Rsum (map (fun x => (x - m) * (x - m)) l).

(** [x] is a finite number of the interval [[0, 1]], as the comparisons of
    the language decide it. *)
Definition in_unit (x : number) : bool := (0 <=? x)%js && (x <=? 1)%js.

(** The four tampering indicators of the specification, in the order the
    analyzer tests them. *)
Definition indicator_conditions (a : ConfidenceAggregation) : list bool :=
  [ (aggregatedScore a <? 0.3)%js;
    match consensusLevel a with low => true | _ => false end;
    (outlierCount a / (reportCount a + outlierCount a) >? 0.3)%js;
    (standardDeviation a >? 0.3)%js ].

Definition indicator_count (a : ConfidenceAggregation) : nat :=
  List.length (filter (fun b => b) (indicator_conditions a)).

(** A report carrying a given score; the other fields are irrelevant to
    the statistics. *)
Definition report_with_score (peer : string) (score : number) : PeerReport :=
  {| id := "r";
     mediaItemId := "m";
     peerEphemeralId := peer;
     confidenceScore := score;
     signature := [];
     ephemeralPubKey := [];
     timestamp := "t";
     peerAddress := "a";
     proximityLevel := near |}.

(** The duration test in the words of the specification,
    [samples.length / sampleRate < minDuration], with the quotient
    computed in binary64. *)
Definition duration_below
  (length sampleRate minDuration : float) : bool :=
  (length / sampleRate <? minDuration)%float.

(** The flagging rule in the words of the specification:
    [|score - mean| / stdDev > outlierThreshold]. *)
Definition flagged_by_rule (mean stdDev threshold score : number) : bool :=
  (JS.abs (score - mean) / stdDev >? threshold)%js.

Definition is_finite (x : number) : Prop := exists r, x = JS.Fin r.

(** [x] is [-Infinity] or a finite number that is at most [M]. *)
Definition below (x : number) (M : R) : Prop :=
  match x with
  | JS.Fin m => m <= M
  | JS.NInf => True
  | _ => False
  end.

(** The mean of the squared elements: the correlation at offset 0 of a
    vector with itself. *)
Definition mean_square (rs : list R) : R :=
  Rsum (map (fun x => x * x) rs) / INR (List.length rs).

(** The claims of the specification that the code does not meet, as
    predicates on the results. *)

(** A peer without a local fingerprint answers with a response whose
    score is zero. *)
Definition answers_with_zero_report (r : result FingerprintResponse) : Prop :=
  exists response, r = Ok response /\ resp_confidenceScore response = 0.

(** The five-report scenario: one outlier, a score of about 0.955, high
    consensus. *)
Definition scenario_as_specified (agg : ConfidenceAggregation) : Prop :=
  outlierCount agg = 1
  /\ (exists s, aggregatedScore agg = JS.Fin s /\ Rabs (s - 0.955) <= 0.001)
  /\ consensusLevel agg = high.

(** [compare(fp, fp)]: similarity at least 0.95 and ['same_location']. *)
Definition self_comparison_as_specified (c : FingerprintComparison) : Prop :=
  (similarity c >=? 0.95)%js = true /\ proximityEstimate c = same_location.

(** What the code computes on the five-report scenario. *)
Definition scenario_as_computed (reports : list PeerReport)
  : ConfidenceAggregation :=
  {| aggregatedScore := 0.774;
     reportCount := 5;
     outlierCount := 0;
     standardDeviation := sqrt 0.131144;
     consensusLevel := low;
     peerScores := ConfidenceAggregator.buildPeerScores reports [] |}.

(** The frame magnitudes [extract] computes before normalising them. *)
Definition rawMagnitudes (config : FingerprintConfig) (audioData : AudioData)
  (sampleRate : number) : result Float32Array :=
  let filtered :=
    MainsHumExtractor.bandpassFilter (MainsHumExtractor.toFloat32 audioData)
      sampleRate (lowCutoff config) (highCutoff config) in
  let mainsFrequency :=
    MainsHumExtractor.detectMainsFrequency filtered sampleRate in
  let numFrames :=
    JS.floor ((JS.len filtered - fftWindowSize config) / hopSize config)%js in
  n <- typed_array_length numFrames ;;
  Ok (MainsHumExtractor.frameMagnitudes config filtered sampleRate
        mainsFrequency n).

(** The loop bodies of [crossCorrelate] and [fft], as functions of the
    loop state. *)
Definition corr_step (v : Float32Array) (offset : Z) (st : number * nat)
  (i : nat) : number * nat :=
  let '(sum, count) := st in
  let j := (Z.of_nat i + offset)%Z in
  if (0 <=? j)%Z && (j <? Z.of_nat (List.length v))%Z
  then ((sum + JS.getN v i * JS.getZ v j)%js, S count)
  else (sum, count).

Definition search_step (corr : Z -> number) (st : number * Z) (offset : Z)
  : number * Z :=
  let '(maxCorrelation, bestOffset) := st in
  if (corr offset >? maxCorrelation)%js then (corr offset, offset)
  else (maxCorrelation, bestOffset).

Definition dft_step (input : Float32Array) (k : nat) (st : number * number)
  (t : nat) : number * number :=
  let '(sumReal, sumImag) := st in
  let angle := (2 * JS.PI * JS.Fin (INR k) * JS.Fin (INR t) / JS.len input)%js in
  ((sumReal + JS.getN input t * JS.cos angle)%js,
   (sumImag - JS.getN input t * JS.sin angle)%js).

(** The Hamming window and the angle of the transform, as reals. *)
Definition hamming (n i : nat) : R :=
  0.54 + - (0.46 * cos (2 * PI * INR i / (INR n + - (1)))).

Definition dft_angle (n k t : nat) : R := 2 * PI * INR k * INR t / INR n.

(** The flag [detectOutliers] sets for the score of one report among
    [reports]. *)
Definition flag_of (reports : list PeerReport) (threshold : number)
  (r : PeerReport) : bool :=
  let scores := map confidenceScore reports in
  let mean := ConfidenceAggregator.computeMean scores in
  (ConfidenceAggregator.zScore mean
     (ConfidenceAggregator.computeStdDev scores mean) (confidenceScore r)
   >? threshold)%js.

(** The aggregation of reports none of which is excluded. *)
Definition untrimmed (reports : list PeerReport) : ConfidenceAggregation :=
  let scores := map confidenceScore reports in
  let mean := ConfidenceAggregator.computeMean scores in
  {| aggregatedScore := mean;
     reportCount := JS.len reports;
     outlierCount := 0;
     standardDeviation := ConfidenceAggregator.computeStdDev scores mean;
     consensusLevel := ConfidenceAggregator.assessConsensus scores mean;
     peerScores :=
       map (fun r => {| peerId := peerEphemeralId r;
                        score := confidenceScore r;
                        included := true |}) reports |}.

(** The aggregation of no report. *)
Definition empty_aggregation : ConfidenceAggregation :=
  {| aggregatedScore := 0;
     reportCount := 0;
     outlierCount := 0;
     standardDeviation := 0;
     consensusLevel := low;
     peerScores := [] |}.

(** What [compare] returns for fingerprints of different mains
    frequencies. *)
Definition different_grids : FingerprintComparison :=
  {| similarity := 0;
     correlation := 0;
     confidence := low;
     timeOffset := 0;
     proximityEstimate := distant |}.

(** The polynomial [b0 * 31^(n-1) + ... + b(n-1)] of the bytes
    [b0 .. b(n-1)]. *)
Definition byte_polynomial (bytes : Uint8Array) : Z :=
  fold_left (fun acc byte => (31 * acc + Z.of_N (Byte.to_N byte))%Z) bytes 0%Z.

(** The keys of the discovered peers are their peer ids, as
    [discoveredPeers.set(mockPeer.peerId, mockPeer)] makes them. *)
Definition keyed_by_id (s : MeshTransportManager.State) : Prop :=
  forall k peer,
    In (k, peer) (MeshTransportManager.discoveredPeers s) ->
    MeshTransportManager.peerId peer = k.

(** A vector that holds [NaN] only. *)
Definition all_nan (v : list number) : Prop := Forall (eq JS.NaN) v.

(** ** Sample inputs *)

(** A verifier that rejects an empty signature, throws on a one-byte
    signature and accepts the others. *)
Definition verify_by_signature (_ sig _ : Uint8Array) : option bool :=
  match sig with
  | [] => Some false
  | [_] => None
  | _ => Some true
  end.

Definition encode_nothing (_ : string) (_ : number) (_ : string) : Uint8Array := [].

Definition signed_report (peer : string) (score : number) (sig : Uint8Array)
  : PeerReport :=
  {| id := "r";
     mediaItemId := "m";
     peerEphemeralId := peer;
     confidenceScore := score;
     signature := sig;
     ephemeralPubKey := [];
     timestamp := "t";
     peerAddress := "a";
     proximityLevel := near |}.

(** Three reports, two of them with a signature that fails. *)
Definition three_reports_one_valid : list PeerReport :=
  [ signed_report "p1" 0.9 [];
    signed_report "p2" 0.8 [Byte.x00; Byte.x01];
    signed_report "p3" 0.7 [Byte.x00] ].

Definition three_reports_none_valid : list PeerReport :=
  [ signed_report "p1" 0.9 [];
    signed_report "p2" 0.8 [Byte.x00];
    signed_report "p3" 0.7 [] ].

(** Three equal scores. *)
Definition three_equal_reports : list PeerReport :=
  [ report_with_score "p1" 0.5;
    report_with_score "p2" 0.5;
    report_with_score "p3" 0.5 ].

(** Three scores of which one lies far from the others. *)
Definition three_spread_reports : list PeerReport :=
  [ report_with_score "p1" 0.9;
    report_with_score "p2" 0.95;
    report_with_score "p3" 0.1 ].

(** Two equal scores. *)
Definition two_equal_reports : list PeerReport :=
  [ report_with_score "p1" 0.75;
    report_with_score "p2" 0.75 ].

(** The five-report scenario of the specification. *)
Definition five_scores : list R := [0.95; 0.94; 0.96; 0.05; 0.97].

Definition five_reports : list PeerReport :=
  [ report_with_score "p1" 0.95;
    report_with_score "p2" 0.94;
    report_with_score "p3" 0.96;
    report_with_score "p4" 0.05;
    report_with_score "p5" 0.97 ].

Definition sample_request : FingerprintRequest :=
  {| req_mediaItemId := "media-1";
     fingerprintHash := "abc";
     ephemeralPublicKey := [] |}.

(** A fingerprint whose vector is the single value 0.5. *)
Definition half_fingerprint : Fingerprint :=
  {| vector := [JS.Fin 0.5];
     hash := "h";
     mainsFrequency := 60;
     extractionQuality := 1;
     duration := 5;
     fp_sampleRate := 44100;
     extractedAt := "t" |}.

(** Two seconds of silence at 44100 Hz. *)
Definition two_seconds : AudioData :=
  Float32Samples (repeat (JS.Fin 0) (Z.to_nat 88200)).

(** 6144 samples: a 0 followed by 6143 samples of value 200; what the
    band-pass filter makes of it when the window size is 1 (a single
    impulse of height 100 at index 1, here with [k] zeros after it); the
    first frame under the Hamming window; and the magnitude of that
    frame. *)
Definition step_audio : Float32Array :=
  JS.Fin 0 :: repeat (JS.Fin 200) (Z.to_nat 6143).

Definition impulse (k : nat) : Float32Array :=
  JS.Fin 0 :: JS.Fin 100 :: repeat (JS.Fin 0) k.

Definition windowed_impulse (k : nat) : list R :=
  map (fun i => (if Nat.eqb i 1 then 100 else 0) * hamming (S (S k)) i)
      (seq 0 (S (S k))).

Definition step_magnitude : R := 100 * hamming (S (S (Z.to_nat 4094))) 1.

(** A manager that has discovered two peers and is connected to the
    first. *)
Definition sample_peer (name : string) : MeshTransportManager.MeshPeer :=
  {| MeshTransportManager.peerId := name;
     MeshTransportManager.publicKey := [];
     MeshTransportManager.address := "webrtc://signaling.example.com";
     MeshTransportManager.transport := MeshTransportManager.webrtc;
     MeshTransportManager.signalStrength := 0.8;
     MeshTransportManager.capabilities :=
       {| MeshTransportManager.fingerprintComparison := true;
          MeshTransportManager.relaySupport := false;
          MeshTransportManager.storageProvider := false |};
     MeshTransportManager.lastSeen := "t" |}.

Definition sample_manager : MeshTransportManager.State :=
  {| MeshTransportManager.discoveredPeers :=
       [("a"%string, sample_peer "a"); ("b"%string, sample_peer "b")];
     MeshTransportManager.activePeers :=
       [("a"%string,
         {| MeshTransportManager.conn_peerId := "a";
            MeshTransportManager.conn_transport := MeshTransportManager.webrtc |})];
     MeshTransportManager.isDiscovering := true;
     MeshTransportManager.emitted := [] |}.

(** A fingerprint whose vector is a single [NaN]. *)
Definition nan_fingerprint : Fingerprint :=
  {| vector := [JS.NaN];
     hash := "h";
     mainsFrequency := 50;
     extractionQuality := JS.NaN;
     duration := 5;
     fp_sampleRate := 50;
     extractedAt := "t" |}.

(** * Properties *)

(** ** Deciding comparisons *)

Lemma Rltb_true (a b : R) : a < b -> JS.Rltb a b = true.
Proof. intros H. unfold JS.Rltb. destruct (Rlt_dec a b); [reflexivity | contradiction]. Qed.

Lemma Rltb_false (a b : R) : ~ a < b -> JS.Rltb a b = false.
Proof. intros H. unfold JS.Rltb. destruct (Rlt_dec a b); [contradiction | reflexivity]. Qed.

Lemma Rleb_true (a b : R) : a <= b -> JS.Rleb a b = true.
Proof. intros H. unfold JS.Rleb. destruct (Rle_dec a b); [reflexivity | contradiction]. Qed.

Lemma Rleb_false (a b : R) : ~ a <= b -> JS.Rleb a b = false.
Proof. intros H. unfold JS.Rleb. destruct (Rle_dec a b); [contradiction | reflexivity]. Qed.

Lemma Reqb_true (a b : R) : a = b -> JS.Reqb a b = true.
Proof. intros H. unfold JS.Reqb. destruct (Req_dec_T a b); [reflexivity | contradiction]. Qed.

Lemma Reqb_false (a b : R) : a <> b -> JS.Reqb a b = false.
Proof. intros H. unfold JS.Reqb. destruct (Req_dec_T a b); [contradiction | reflexivity]. Qed.

Lemma Rltb_spec (a b : R) : JS.Rltb a b = true <-> a < b.
Proof.
  unfold JS.Rltb. destruct (Rlt_dec a b); split; intros; try assumption;
    try reflexivity; try discriminate; contradiction.
Qed.

Lemma Rleb_spec (a b : R) : JS.Rleb a b = true <-> a <= b.
Proof.
  unfold JS.Rleb. destruct (Rle_dec a b); split; intros; try assumption;
    try reflexivity; try discriminate; contradiction.
Qed.

Lemma INR_S_pos (n : nat) : 0 < INR (S n).
Proof. apply lt_0_INR. lia. Qed.

Lemma len_nil (A : Type) : (JS.len (@nil A) === 0)%js = true.
Proof. unfold JS.len. simpl. apply Reqb_true. reflexivity. Qed.

Lemma len_cons (A : Type) (x : A) (l : list A) :
  (JS.len (x :: l) === 0)%js = false.
Proof.
  unfold JS.len, JS.eq. apply Reqb_false.
  pose proof (INR_S_pos (List.length l)). simpl List.length. lra.
Qed.

(** ** The aggregator: signature filter and minimum-reports check *)

Module AggregatorFacts.
Import ConfidenceAggregator.

Section WithCrypto.

Variable crypto_verify : Uint8Array -> Uint8Array -> Uint8Array -> option bool.
Variable encodeReport : string -> number -> string -> Uint8Array.

(** The signature loop keeps exactly the reports whose verification
    succeeded, in their order. *)
Lemma verifyReportSignatures_filter (reports : list PeerReport) :
  verifyReportSignatures crypto_verify encodeReport reports
  = filter (signatureValid crypto_verify encodeReport) reports.
Proof.
  induction reports as [|r rest IH]; simpl; [reflexivity|].
  rewrite IH. reflexivity.
Qed.

Lemma filter_none (A : Type) (p : A -> bool) (l : list A) :
  (forall x, In x l -> p x = false) -> filter p l = [].
Proof.
  induction l as [|x l IH]; intros H; simpl; [reflexivity|].
  rewrite (H x) by (left; reflexivity).
  apply IH. intros y Hy. apply H. right. exact Hy.
Qed.

Lemma computeMean_nil : computeMean [] = 0.
Proof. unfold computeMean. rewrite len_nil. reflexivity. Qed.

Lemma computeStdDev_nil (mean : number) : computeStdDev [] mean = 0.
Proof. unfold computeStdDev. rewrite len_nil. reflexivity. Qed.

Lemma aggregateReports_nil (threshold : number) :
  aggregateReports [] threshold =
  {| aggregatedScore := 0;
     reportCount := 0;
     outlierCount := 0;
     standardDeviation := 0;
     consensusLevel := low;
     peerScores := [] |}.
Proof.
  unfold aggregateReports. simpl.
  rewrite computeMean_nil, computeStdDev_nil.
  unfold assessConsensus. rewrite len_nil. reflexivity.
Qed.

(** The outcome of [aggregate] is decided by the length test alone. *)
Lemma aggregate_unfold (reports : list PeerReport) (options : Options) :
  aggregate crypto_verify encodeReport reports options =
  if (JS.len reports <? default (minPeers options) 3)%js
  then Throw (InsufficientReportsError (JS.len reports)
                                       (default (minPeers options) 3))
  else Ok (aggregateReports
             (if default (verifySignatures options) true
              then filter (signatureValid crypto_verify encodeReport) reports
              else reports)
             (default (outlierThreshold options) 2)).
Proof.
  unfold aggregate.
  destruct (JS.len reports <? default (minPeers options) 3)%js; [reflexivity|].
  destruct (default (verifySignatures options) true); [|reflexivity].
  rewrite verifyReportSignatures_filter. reflexivity.
Qed.

(** C10. With at least [minPeers] reports, signature verification enabled
    and every signature failing verification (returning [false] or
    throwing), [aggregate] does not raise: it returns the aggregation with
    [aggregatedScore = 0], [reportCount = 0], [outlierCount = 0],
    [standardDeviation = 0], [consensusLevel = 'low'] and an empty
    [peerScores]. *)
Theorem aggregate_all_signatures_invalid
  (reports : list PeerReport) (options : Options) :
  (JS.len reports <? default (minPeers options) 3)%js = false ->
  default (verifySignatures options) true = true ->
  (forall r, In r reports ->
             signatureValid crypto_verify encodeReport r = false) ->
  aggregate crypto_verify encodeReport reports options =
  Ok {| aggregatedScore := 0;
        reportCount := 0;
        outlierCount := 0;
        standardDeviation := 0;
        consensusLevel := low;
        peerScores := [] |}.
Proof.
  intros Hlen Hver Hbad.
  rewrite aggregate_unfold, Hlen, Hver.
  rewrite (filter_none _ _ reports Hbad).
  rewrite aggregateReports_nil. reflexivity.
Qed.

(** C4. [aggregate] raises [InsufficientReportsError] exactly when
    [reports.length < minPeers] (default 3), the test being made on the
    input list before the signature filter; with at least [minPeers]
    reports it never raises, and when verification is enabled the result
    is the aggregation of the reports whose signature verified (the others
    are dropped), however few of them remain. *)
Theorem aggregate_insufficient_iff
  (reports : list PeerReport) (options : Options) :
  let minPeers := default (minPeers options) 3 in
  let threshold := default (outlierThreshold options) 2 in
  let survivors := filter (signatureValid crypto_verify encodeReport) reports in
  (aggregate crypto_verify encodeReport reports options
   = Throw (InsufficientReportsError (JS.len reports) minPeers)
   <-> (JS.len reports <? minPeers)%js = true)
  /\ (forall e, aggregate crypto_verify encodeReport reports options = Throw e ->
                e = InsufficientReportsError (JS.len reports) minPeers)
  /\ ((JS.len reports <? minPeers)%js = false ->
      default (verifySignatures options) true = true ->
      aggregate crypto_verify encodeReport reports options
      = Ok (aggregateReports survivors threshold)
      /\ map peerId (peerScores (aggregateReports survivors threshold))
         = map peerEphemeralId survivors).
Proof.
  intros minPeers threshold survivors. rewrite aggregate_unfold.
  fold minPeers threshold survivors.
  destruct (JS.len reports <? minPeers)%js eqn:Hlen.
  - split; [split; intros; reflexivity|].
    split; [intros e He; inversion He; reflexivity|].
    intros Hf; discriminate.
  - split; [split; intros H; discriminate|].
    split; [intros e He; discriminate|].
    intros _ Hver. rewrite Hver. split; [reflexivity|].
    unfold aggregateReports. simpl peerScores.
    generalize (detectOutliers (map confidenceScore survivors)
      (computeMean (map confidenceScore survivors))
      (computeStdDev (map confidenceScore survivors)
         (computeMean (map confidenceScore survivors))) threshold).
    induction survivors as [|r rest IH]; intros mask; simpl;
      [reflexivity|].
    rewrite IH. reflexivity.
Qed.

End WithCrypto.

Lemma three_lt_three : (JS.len three_reports_one_valid <? 3)%js = false.
Proof. unfold JS.len, JS.lt. simpl. apply Rltb_false. lra. Qed.

Lemma aggregate_insufficient_iff_witness :
  aggregate verify_by_signature encode_nothing three_reports_one_valid no_options
  = Ok (aggregateReports [signed_report "p2" 0.8 [Byte.x00; Byte.x01]] 2)
  /\ map peerId
       (peerScores (aggregateReports [signed_report "p2" 0.8 [Byte.x00; Byte.x01]] 2))
     = ["p2"%string].
Proof.
  exact (proj2 (proj2 (aggregate_insufficient_iff verify_by_signature
                  encode_nothing three_reports_one_valid no_options))
               three_lt_three eq_refl).
Defined.

Lemma aggregate_all_signatures_invalid_witness :
  aggregate verify_by_signature encode_nothing three_reports_none_valid no_options
  = Ok {| aggregatedScore := 0;
          reportCount := 0;
          outlierCount := 0;
          standardDeviation := 0;
          consensusLevel := low;
          peerScores := [] |}.
Proof.
  apply aggregate_all_signatures_invalid.
  - unfold JS.len, JS.lt. simpl. apply Rltb_false. lra.
  - reflexivity.
  - intros r [H|[H|[H|[]]]]; subst r; reflexivity.
Defined.

End AggregatorFacts.

(** ** The tamper analyzer *)

Module TamperFacts.
Import TamperDetectionAnalyzer.

Section WithFormat.

Variable percent : number -> string.

Lemma push_if_length (c : bool) (msg : string) (l : list string) :
  List.length (push_if c msg l) = (List.length l + (if c then 1 else 0))%nat.
Proof.
  unfold push_if. destruct c.
  - rewrite length_app. reflexivity.
  - lia.
Qed.

(** The analyzer pushes one message per condition that holds. *)
Lemma indicators_length (a : ConfidenceAggregation) :
  List.length (indicators (analyzeTampering percent a)) = indicator_count a.
Proof.
  unfold analyzeTampering, indicator_count, indicator_conditions.
  cbn [indicators]. rewrite !push_if_length. cbn [List.length].
  destruct (aggregatedScore a <? 0.3)%js;
    destruct (consensusLevel a);
    destruct (outlierCount a / (reportCount a + outlierCount a) >? 0.3)%js;
    destruct (standardDeviation a >? 0.3)%js; reflexivity.
Qed.

(** C9. For every aggregation, [analyzeTampering] returns [riskLevel]
    ['low'] when no indicator is triggered, ['medium'] when one or two are
    and ['high'] when three or more are, and [tamperingLikely] is [true]
    exactly when at least two are; the indicators are
    [aggregatedScore < 0.3], [consensusLevel == 'low'],
    [outlierCount / (reportCount + outlierCount) > 0.3] and
    [standardDeviation > 0.3]. *)
Theorem analyzeTampering_risk (a : ConfidenceAggregation) :
  let r := analyzeTampering percent a in
  List.length (indicators r) = indicator_count a
  /\ riskLevel r =
       match indicator_count a with
       | 0%nat => low
       | 1%nat | 2%nat => medium
       | _ => high
       end
  /\ tamperingLikely r = Nat.leb 2 (indicator_count a).
Proof.
  intros r. pose proof (indicators_length a) as Hlen. fold r in Hlen.
  split; [exact Hlen|].
  rewrite <- Hlen. unfold r, analyzeTampering. cbn [riskLevel tamperingLikely indicators].
  split; [|reflexivity].
  match goal with |- context [List.length ?l] => generalize (List.length l) end.
  intros [|[|[|n]]]; reflexivity.
Qed.

End WithFormat.

End TamperFacts.

(** ** The responder side of a comparison request *)

Module CoordinatorFacts.
Import FingerprintCoordinator.

(** C2 (as amended). When the local lookup returns [null],
    [handleFingerprintRequest] raises the error
    ['No matching fingerprint found locally'] and produces no response. *)
Theorem handleFingerprintRequest_no_local_fingerprint
  (extractorCallback : string -> result (option Float32Array))
  (random : nat -> number) (base36 : number -> string) (now : string)
  (request : FingerprintRequest) :
  extractorCallback (fingerprintHash request) = Ok None ->
  handleFingerprintRequest extractorCallback random base36 now request
  = Throw NoMatchingFingerprintError.
Proof.
  intros H. unfold handleFingerprintRequest. rewrite H. reflexivity.
Qed.

Lemma handleFingerprintRequest_no_local_fingerprint_witness :
  handleFingerprintRequest (fun _ => Ok None) (fun _ => 0) (fun _ => "x"%string)
                           "now" sample_request
  = Throw NoMatchingFingerprintError.
Proof.
  apply handleFingerprintRequest_no_local_fingerprint. reflexivity.
Defined.

(** C2 as stated fails: with a callback that finds nothing, the handler
    throws instead of returning a zero-score report. *)
Lemma handleFingerprintRequest_not_zero_report :
  ~ answers_with_zero_report
      (handleFingerprintRequest (fun _ => Ok None) (fun _ => 0)
                                (fun _ => "x"%string) "now" sample_request).
Proof.
  intros [response [H _]]. discriminate H.
Qed.

End CoordinatorFacts.

(** ** The statistics on finite scores *)

Module StatFacts.
Import ConfidenceAggregator.

Lemma fold_add_fin (f : number -> number) (g : R -> R) :
  (forall r, f (JS.Fin r) = JS.Fin (g r)) ->
  forall (rs : list R) (a : R),
    fold_left (fun acc val => (acc + f val)%js) (map JS.Fin rs) (JS.Fin a)
    = JS.Fin (a + Rsum (map g rs)).
Proof.
  intros Hf rs. induction rs as [|r rs IH]; intros a; simpl.
  - f_equal. lra.
  - rewrite Hf. simpl. rewrite IH. f_equal. lra.
Qed.

Lemma reduce_sum_fin (f : number -> number) (g : R -> R) (rs : list R) :
  (forall r, f (JS.Fin r) = JS.Fin (g r)) ->
  reduce_sum f (map JS.Fin rs) = JS.Fin (Rsum (map g rs)).
Proof.
  intros Hf. unfold reduce_sum. rewrite (fold_add_fin f g Hf). f_equal. lra.
Qed.

Lemma len_map_fin (rs : list R) :
  JS.len (map JS.Fin rs) = JS.Fin (INR (List.length rs)).
Proof. unfold JS.len. rewrite length_map. reflexivity. Qed.

Lemma len_eq0_fin (rs : list R) :
  rs <> [] -> (JS.len (map JS.Fin rs) === 0)%js = false.
Proof. destruct rs as [|r rs]; [congruence|]. intros _. apply len_cons. Qed.

Lemma INR_length_pos {A : Type} {l : list A} : l <> [] -> 0 < INR (List.length l).
Proof. destruct l; [congruence|]. intros _. apply INR_S_pos. Qed.

Lemma div_fin (a b : R) : b <> 0 -> (JS.Fin a / JS.Fin b)%js = JS.Fin (a / b).
Proof. intros H. unfold JS.div. rewrite (Reqb_false _ _ H). reflexivity. Qed.

(** [computeMean] on finite values is the arithmetic mean. *)
Lemma computeMean_fin (rs : list R) :
  rs <> [] -> computeMean (map JS.Fin rs) = JS.Fin (Rmean rs).
Proof.
  intros Hne. unfold computeMean. rewrite (len_eq0_fin rs Hne).
  rewrite (reduce_sum_fin (fun val => val) (fun r => r)) by reflexivity.
  rewrite map_id, len_map_fin.
  pose proof (INR_length_pos Hne).
  rewrite div_fin by lra. reflexivity.
Qed.

Lemma Rsumsq_nonneg (m : R) (rs : list R) : 0 <= Rsumsq m rs.
Proof.
  unfold Rsumsq. induction rs as [|r rs IH]; simpl; [lra|].
  pose proof (Rle_0_sqr (r - m)) as H. unfold Rsqr in H. lra.
Qed.

(** [computeStdDev] on finite values is the square root of the mean
    squared deviation. *)
Lemma computeStdDev_fin (rs : list R) (m : R) :
  rs <> [] ->
  computeStdDev (map JS.Fin rs) (JS.Fin m)
  = JS.Fin (sqrt (Rsumsq m rs / INR (List.length rs))).
Proof.
  intros Hne. unfold computeStdDev. rewrite (len_eq0_fin rs Hne).
  rewrite (reduce_sum_fin (fun val => JS.sq (val - JS.Fin m)%js)
                          (fun r => (r - m) * (r - m))) by reflexivity.
  rewrite len_map_fin.
  pose proof (INR_length_pos Hne) as Hpos.
  rewrite div_fin by lra. fold (Rsumsq m rs).
  unfold JS.sqrt. rewrite Rltb_false; [reflexivity|].
  pose proof (Rsumsq_nonneg m rs) as Hs.
  apply Rle_not_lt. apply Rmult_le_pos; [exact Hs|].
  left. apply Rinv_0_lt_compat. exact Hpos.
Qed.

(** The z-score of a finite value for a finite mean and deviation. *)
Lemma zScore_fin (m s v : R) :
  zScore (JS.Fin m) (JS.Fin s) (JS.Fin v)
  = if JS.Rltb 0 s then JS.Fin (Rabs ((v - m) / s)) else JS.Fin 0.
Proof.
  unfold zScore, JS.gt. simpl JS.lt.
  destruct (JS.Rltb 0 s) eqn:Hs; [|reflexivity].
  apply Rltb_spec in Hs.
  unfold JS.sub. simpl JS.add. rewrite div_fin by lra. reflexivity.
Qed.

Lemma filter_unmasked_map (A B : Type) (f : A -> B) (l : list A) (mask : list bool) :
  filter_unmasked (map f l) mask = map f (filter_unmasked l mask).
Proof.
  revert mask. induction l as [|x l IH]; intros mask; simpl; [reflexivity|].
  destruct mask as [|m mask]; simpl.
  - rewrite IH. reflexivity.
  - destruct m; simpl; rewrite IH; reflexivity.
Qed.

Lemma filter_unmasked_Forall {A : Type} {P : A -> Prop} {l : list A} (mask : list bool) :
  Forall P l -> Forall P (filter_unmasked l mask).
Proof.
  intros H. revert mask. induction H as [|x l Hx Hl IH]; intros mask; simpl.
  - constructor.
  - destruct mask as [|m mask]; [constructor; auto|].
    destruct m; simpl; [apply IH | constructor; auto].
Qed.

Lemma filter_unmasked_all_false (A : Type) (l : list A) (mask : list bool) :
  Forall (fun b => b = false) mask -> filter_unmasked l mask = l.
Proof.
  revert mask. induction l as [|x l IH]; intros mask H; simpl; [reflexivity|].
  destruct mask as [|m mask]; [f_equal; apply IH; constructor|].
  inversion H; subst. simpl. f_equal. apply IH. assumption.
Qed.

Lemma Rsum_bounds {rs : list R} :
  Forall (fun r => 0 <= r <= 1) rs -> 0 <= Rsum rs <= INR (List.length rs).
Proof.
  induction 1 as [|r rs Hr Hrs IH].
  - simpl. lra.
  - change (Rsum (r :: rs)) with (r + Rsum rs).
    change (List.length (r :: rs)) with (S (List.length rs)).
    rewrite S_INR. lra.
Qed.

(** The mean of values of [[0, 1]] lies in [[0, 1]]. *)
Lemma Rmean_bounds (rs : list R) :
  rs <> [] -> Forall (fun r => 0 <= r <= 1) rs -> 0 <= Rmean rs <= 1.
Proof.
  intros Hne H. pose proof (Rsum_bounds H) as [Hlo Hhi].
  pose proof (INR_length_pos Hne) as Hpos.
  unfold Rmean. split.
  - apply Rmult_le_pos; [exact Hlo|]. left. apply Rinv_0_lt_compat. exact Hpos.
  - apply (Rmult_le_reg_r (INR (List.length rs))); [exact Hpos|].
    unfold Rdiv. rewrite Rmult_assoc, Rinv_l by lra. lra.
Qed.

Lemma in_unit_fin (x : number) :
  in_unit x = true <-> exists r, x = JS.Fin r /\ 0 <= r <= 1.
Proof.
  unfold in_unit. split.
  - intros H. apply andb_prop in H. destruct H as [H0 H1].
    destruct x as [r| | |]; simpl in *; try discriminate.
    exists r. split; [reflexivity|].
    apply Rleb_spec in H0. apply Rleb_spec in H1. lra.
  - intros [r [-> [H0 H1]]]. simpl. rewrite !Rleb_true by lra. reflexivity.
Qed.

Lemma in_unit_list {xs : list number} :
  Forall (fun x => in_unit x = true) xs ->
  exists rs, xs = map JS.Fin rs /\ Forall (fun r => 0 <= r <= 1) rs.
Proof.
  induction 1 as [|x xs Hx Hxs [rs [-> Hrs]]].
  - exists []. split; [reflexivity | constructor].
  - apply in_unit_fin in Hx. destruct Hx as [r [-> Hr]].
    exists (r :: rs). split; [reflexivity | constructor; assumption].
Qed.

(** The trimmed mean of scores of [[0, 1]] lies in [[0, 1]], whatever the
    outlier mask. *)
Lemma trimmed_mean_in_unit (scores : list number) (mask : list bool) :
  Forall (fun x => in_unit x = true) scores ->
  in_unit (computeMean (filter_unmasked scores mask)) = true.
Proof.
  intros H. destruct (in_unit_list H) as [rs [-> Hrs]].
  rewrite filter_unmasked_map.
  pose proof (filter_unmasked_Forall mask Hrs) as Hf.
  destruct (filter_unmasked rs mask) as [|r rs'] eqn:E.
  - simpl. rewrite AggregatorFacts.computeMean_nil.
    apply in_unit_fin. exists 0. split; [reflexivity | lra].
  - rewrite computeMean_fin by congruence.
    apply in_unit_fin. eexists. split; [reflexivity|].
    apply Rmean_bounds; [congruence | exact Hf].
Qed.

End StatFacts.

(** ** Outlier detection *)

Module OutlierFacts.
Import ConfidenceAggregator.

Lemma abs_div_pos (a sd : number) :
  (sd >? 0)%js = true -> JS.abs (a / sd)%js = (JS.abs a / sd)%js.
Proof.
  unfold JS.gt. intros Hsd.
  destruct sd as [s| | |]; simpl in Hsd; try discriminate.
  - apply Rltb_spec in Hsd.
    destruct a as [x| | |]; simpl; try reflexivity.
    + rewrite !Reqb_false by lra. simpl. f_equal.
      unfold Rdiv. rewrite Rabs_mult. f_equal.
      apply Rabs_pos_eq. left. apply Rinv_0_lt_compat. exact Hsd.
    + rewrite Rltb_false by lra. reflexivity.
    + rewrite Rltb_false by lra. reflexivity.
  - destruct a as [x| | |]; simpl; try reflexivity.
    f_equal. apply Rabs_R0.
Qed.

Lemma add_not_finite (x y : number) : ~ is_finite x -> ~ is_finite (x + y)%js.
Proof.
  intros Hx [r Hr]. apply Hx.
  destruct x as [a| | |]; [exists a; reflexivity | | |];
    destruct y; simpl in Hr; discriminate.
Qed.

Lemma fold_add_not_finite (f : number -> number) (l : list number) (a0 : number) :
  ~ is_finite a0 ->
  ~ is_finite (fold_left (fun acc val => (acc + f val)%js) l a0).
Proof.
  revert a0. induction l as [|v l IH]; intros a0 H; simpl; [exact H|].
  apply IH. apply add_not_finite. exact H.
Qed.

(** The deviation computed by [computeStdDev] is a non-negative finite
    number, [Infinity] or [NaN]. *)
Lemma computeStdDev_shape (values : list number) (mean : number) :
  match computeStdDev values mean with
  | JS.Fin s => 0 <= s
  | JS.NInf => False
  | _ => True
  end.
Proof.
  unfold computeStdDev. destruct (JS.len values === 0)%js; [simpl; lra|].
  cbv zeta. match goal with |- context [JS.sqrt ?x] => destruct x as [a| | |] end;
    simpl; try exact I.
  destruct (JS.Rltb a 0); [exact I | apply sqrt_pos].
Qed.

(** The code's test is the rule of the specification behind the guard
    [stdDev > 0], whenever the threshold is not negative. *)
Lemma zScore_rule (mean stdDev threshold v : number) :
  (threshold <? 0)%js = false ->
  (zScore mean stdDev v >? threshold)%js
  = (stdDev >? 0)%js && flagged_by_rule mean stdDev threshold v.
Proof.
  intros Ht. unfold zScore, flagged_by_rule.
  destruct (stdDev >? 0)%js eqn:Hsd; cbn [andb].
  - rewrite (abs_div_pos _ _ Hsd). reflexivity.
  - unfold JS.gt. exact Ht.
Qed.

Lemma detectOutliers_rule (values : list number) (mean stdDev threshold : number) :
  (threshold <? 0)%js = false ->
  detectOutliers values mean stdDev threshold
  = map (fun v => (stdDev >? 0)%js && flagged_by_rule mean stdDev threshold v)
        values.
Proof.
  intros Ht. unfold detectOutliers.
  apply map_ext. intros v. apply zScore_rule. exact Ht.
Qed.

Lemma detectOutliers_zero_stdDev (values : list number) (mean threshold : number) :
  (threshold <? 0)%js = false ->
  detectOutliers values mean 0 threshold = map (fun _ => false) values.
Proof.
  intros Ht. unfold detectOutliers. apply map_ext. intros v.
  unfold zScore, JS.gt. simpl JS.lt. rewrite Rltb_false by lra. exact Ht.
Qed.

Lemma buildPeerScores_included (reports : list PeerReport) (f : PeerReport -> bool) :
  map included (buildPeerScores reports (map f reports))
  = map (fun r => negb (f r)) reports.
Proof.
  induction reports as [|r reports IH]; simpl; [reflexivity|].
  rewrite IH. reflexivity.
Qed.

End OutlierFacts.

(** ** The aggregation result *)

Module AggregationFacts.
Import ConfidenceAggregator.

Section WithCrypto.

Variable crypto_verify : Uint8Array -> Uint8Array -> Uint8Array -> option bool.
Variable encodeReport : string -> number -> string -> Uint8Array.

(** C6. For every list of at least [minPeers] reports whose scores all
    lie in [[0, 1]], whatever the outcome of signature verification and of
    outlier detection (any verifier, any threshold), [aggregate] returns an
    aggregation whose [aggregatedScore] lies in [[0, 1]]. *)
Theorem aggregatedScore_in_unit (reports : list PeerReport) (options : Options) :
  (JS.len reports <? default (minPeers options) 3)%js = false ->
  Forall (fun r => in_unit (confidenceScore r) = true) reports ->
  exists agg,
    aggregate crypto_verify encodeReport reports options = Ok agg
    /\ in_unit (aggregatedScore agg) = true.
Proof.
  intros Hlen Hscores.
  rewrite AggregatorFacts.aggregate_unfold, Hlen.
  eexists. split; [reflexivity|].
  unfold aggregateReports. cbn [aggregatedScore].
  apply StatFacts.trimmed_mean_in_unit.
  apply Forall_map.
  destruct (default (verifySignatures options) true); [|exact Hscores].
  apply (incl_Forall (incl_filter _ reports) Hscores).
Qed.

End WithCrypto.

Lemma aggregatedScore_in_unit_witness :
  exists agg,
    aggregate verify_by_signature encode_nothing
      three_reports_one_valid no_options = Ok agg
    /\ in_unit (aggregatedScore agg) = true.
Proof.
  apply aggregatedScore_in_unit.
  - exact AggregatorFacts.three_lt_three.
  - repeat constructor; cbn [confidenceScore signed_report];
      apply StatFacts.in_unit_fin; eexists; (split; [reflexivity | lra]).
Defined.

Lemma filter_all_false (A : Type) (l : list A) :
  filter (fun isOutlier => isOutlier) (map (fun _ : A => false) l) = [].
Proof. induction l; simpl; auto. Qed.

(** The flags computed by the body of [aggregate] follow the rule of the
    specification behind the guard [stdDev > 0], when the threshold is not
    negative. *)
Lemma aggregateReports_rule (reports : list PeerReport) (threshold : number) :
  (threshold <? 0)%js = false ->
  let scores := map confidenceScore reports in
  let mean := computeMean scores in
  let stdDev := computeStdDev scores mean in
  let agg := aggregateReports reports threshold in
  standardDeviation agg = stdDev
  /\ map included (peerScores agg)
     = map (fun r => negb ((stdDev >? 0)%js
                           && flagged_by_rule mean stdDev threshold
                                (confidenceScore r))) reports
  /\ (stdDev = 0 ->
      map included (peerScores agg) = map (fun _ => true) reports
      /\ outlierCount agg = 0).
Proof.
  intros Ht scores mean stdDev agg.
  split; [reflexivity|].
  pose proof (OutlierFacts.detectOutliers_rule scores mean stdDev threshold Ht) as Hrule.
  pose proof (OutlierFacts.detectOutliers_zero_stdDev scores mean threshold Ht) as Hzero.
  subst agg stdDev mean scores.
  unfold aggregateReports. cbn [peerScores outlierCount].
  split.
  - rewrite Hrule. rewrite map_map.
    apply (OutlierFacts.buildPeerScores_included reports
             (fun r => (_ >? 0)%js && flagged_by_rule _ _ threshold (confidenceScore r))).
  - intros H0. rewrite H0, Hzero. rewrite map_map. split.
    + apply (OutlierFacts.buildPeerScores_included reports (fun _ => false)).
    + rewrite filter_all_false. reflexivity.
Qed.

(** C7 (as amended). In [aggregate], for a threshold that is not
    negative, a surviving report is flagged as an outlier exactly when
    [stdDev > 0] and [|score - mean| / stdDev > outlierThreshold], mean
    and deviation being those the code computes over all the
    signature-surviving scores; in particular no report is flagged when
    the deviation is 0. *)
Theorem outliers_follow_rule
  (crypto_verify : Uint8Array -> Uint8Array -> Uint8Array -> option bool)
  (encodeReport : string -> number -> string -> Uint8Array)
  (reports : list PeerReport) (options : Options) :
  let threshold := default (outlierThreshold options) 2 in
  let survivors :=
    if default (verifySignatures options) true
    then filter (signatureValid crypto_verify encodeReport) reports
    else reports in
  let scores := map confidenceScore survivors in
  let mean := computeMean scores in
  let stdDev := computeStdDev scores mean in
  (JS.len reports <? default (minPeers options) 3)%js = false ->
  (threshold <? 0)%js = false ->
  exists agg,
    aggregate crypto_verify encodeReport reports options = Ok agg
    /\ standardDeviation agg = stdDev
    /\ map included (peerScores agg)
       = map (fun r => negb ((stdDev >? 0)%js
                             && flagged_by_rule mean stdDev threshold
                                  (confidenceScore r))) survivors
    /\ (stdDev = 0 ->
        map included (peerScores agg) = map (fun _ => true) survivors
        /\ outlierCount agg = 0).
Proof.
  intros threshold survivors scores mean stdDev Hlen Ht.
  rewrite AggregatorFacts.aggregate_unfold, Hlen.
  eexists. split; [reflexivity|].
  apply (aggregateReports_rule survivors threshold Ht).
Qed.

Lemma three_equal_stats :
  computeMean (map confidenceScore three_equal_reports) = 0.5
  /\ computeStdDev (map confidenceScore three_equal_reports) 0.5 = 0.
Proof.
  change (map confidenceScore three_equal_reports)
    with (map JS.Fin [0.5; 0.5; 0.5]).
  rewrite StatFacts.computeMean_fin by discriminate.
  rewrite StatFacts.computeStdDev_fin by discriminate.
  split; f_equal.
  - unfold Rmean, Rsum. simpl. lra.
  - replace (Rsumsq 0.5 [0.5; 0.5; 0.5] / INR (List.length [0.5; 0.5; 0.5])) with 0.
    + apply sqrt_0.
    + unfold Rsumsq, Rsum. simpl. lra.
Qed.

Lemma three_not_insufficient : (JS.len three_equal_reports <? 3)%js = false.
Proof. unfold JS.len, JS.lt. simpl. apply Rltb_false. lra. Qed.

Lemma outliers_follow_rule_witness :
  exists agg,
    aggregate (fun _ _ _ => Some true) (fun _ _ _ => []) three_equal_reports
      {| outlierThreshold := Some (JS.Fin 0);
         minPeers := None;
         verifySignatures := Some false |} = Ok agg
    /\ map included (peerScores agg) = [true; true; true]
    /\ outlierCount agg = 0.
Proof.
  destruct (outliers_follow_rule (fun _ _ _ => Some true) (fun _ _ _ => [])
              three_equal_reports
              {| outlierThreshold := Some (JS.Fin 0);
                 minPeers := None;
                 verifySignatures := Some false |})
    as [agg [Hagg [_ [_ H]]]].
  - exact three_not_insufficient.
  - simpl. apply Rltb_false. lra.
  - exists agg. split; [exact Hagg|]. apply H.
    cbn [default verifySignatures].
    destruct three_equal_stats as [Hm Hs]. rewrite Hm. exact Hs.
Defined.

(** C7 as stated fails for a negative threshold: the deviation of three
    equal scores is 0 and yet [aggregate] flags every report. *)
Lemma zero_deviation_all_flagged :
  exists agg,
    aggregate (fun _ _ _ => Some true) (fun _ _ _ => []) three_equal_reports
      {| outlierThreshold := Some (JS.Fin (-1));
         minPeers := None;
         verifySignatures := Some false |} = Ok agg
    /\ standardDeviation agg = 0
    /\ map included (peerScores agg) = [false; false; false]
    /\ outlierCount agg = 3.
Proof.
  rewrite AggregatorFacts.aggregate_unfold.
  cbn [default minPeers outlierThreshold verifySignatures].
  rewrite three_not_insufficient.
  eexists. split; [reflexivity|].
  destruct three_equal_stats as [Hm Hs].
  unfold aggregateReports. cbn [standardDeviation peerScores outlierCount].
  rewrite Hm, Hs.
  assert (Hmask : detectOutliers (map confidenceScore three_equal_reports)
                    0.5 0 (-1) = [true; true; true]).
  { unfold detectOutliers. simpl map.
    rewrite !StatFacts.zScore_fin. rewrite !Rltb_false by lra.
    unfold JS.gt. simpl JS.lt. rewrite !Rltb_true by lra. reflexivity. }
  rewrite Hmask. split; [reflexivity|]. split; [reflexivity|].
  unfold JS.len. simpl. f_equal. lra.
Qed.

(** *** The five-report scenario *)

Lemma five_mean : Rmean five_scores = 0.774.
Proof. unfold Rmean, Rsum, five_scores. simpl. lra. Qed.

Lemma five_variance :
  Rsumsq 0.774 five_scores / INR (List.length five_scores) = 0.131144.
Proof. unfold Rsumsq, Rsum, five_scores. simpl. lra. Qed.

Lemma five_deviation_lower : 0.3621 < sqrt 0.131144.
Proof.
  replace 0.3621 with (sqrt (0.3621 * 0.3621)) by (apply sqrt_square; lra).
  apply sqrt_lt_1; lra.
Qed.

(** A deviation of at most two standard deviations is not flagged. *)
Lemma within_two_deviations (x s : R) :
  0 < s -> Rabs x <= 2 * s -> ~ 2 < Rabs (x / s).
Proof.
  intros Hs Hx. unfold Rdiv. rewrite Rabs_mult, Rabs_inv.
  rewrite (Rabs_pos_eq s) by lra.
  pose proof (Rinv_0_lt_compat s Hs) as Hi.
  assert (Hone : s * / s = 1) by (apply Rinv_r; lra).
  intros Hlt.
  assert (Rabs x * / s <= 2 * s * / s) by (apply Rmult_le_compat_r; lra).
  nra.
Qed.

Lemma buildPeerScores_all_false (reports : list PeerReport) (n : nat) :
  buildPeerScores reports (repeat false n) = buildPeerScores reports [].
Proof.
  revert n. induction reports as [|r reports IH]; intros n; simpl; [reflexivity|].
  destruct n as [|n]; simpl; [reflexivity|]. rewrite IH.
  f_equal.
Qed.

Lemma five_mask :
  detectOutliers (map JS.Fin five_scores) 0.774 (sqrt 0.131144) 2
  = repeat false 5.
Proof.
  pose proof five_deviation_lower as Hs.
  unfold detectOutliers, five_scores. simpl map. simpl repeat.
  rewrite !StatFacts.zScore_fin. rewrite !Rltb_true by lra.
  unfold JS.gt. simpl JS.lt.
  repeat (rewrite Rltb_false;
          [| apply within_two_deviations; [lra|];
             unfold Rabs; destruct (Rcase_abs _); lra]).
  reflexivity.
Qed.

(** On scores [0.95, 0.94, 0.96, 0.05, 0.97] and threshold 2 the z-score
    of 0.05 is about 1.9992: nothing is flagged. *)
Lemma five_scores_aggregation (reports : list PeerReport) :
  map confidenceScore reports = map JS.Fin five_scores ->
  aggregateReports reports 2 = scenario_as_computed reports.
Proof.
  intros Hscores. pose proof five_deviation_lower as Hs.
  assert (Hlen : List.length reports = 5%nat).
  { rewrite <- (length_map confidenceScore), Hscores. reflexivity. }
  unfold aggregateReports, scenario_as_computed. rewrite Hscores.
  rewrite StatFacts.computeMean_fin by discriminate.
  rewrite five_mean.
  rewrite StatFacts.computeStdDev_fin by discriminate.
  rewrite five_variance, five_mask.
  rewrite !StatFacts.filter_unmasked_all_false by (repeat constructor).
  rewrite StatFacts.computeMean_fin by discriminate. rewrite five_mean.
  rewrite buildPeerScores_all_false.
  f_equal.
  - unfold JS.len. rewrite Hlen. simpl. f_equal. lra.
  - unfold assessConsensus.
    rewrite StatFacts.len_eq0_fin by discriminate.
    rewrite StatFacts.computeMean_fin by discriminate. rewrite five_mean.
    rewrite StatFacts.computeStdDev_fin by discriminate. rewrite five_variance.
    unfold JS.gt, JS.ge. simpl JS.lt. rewrite Rltb_true by lra.
    rewrite Reqb_false by lra. simpl JS.lt.
    assert (Hcv : 0.3 <= sqrt 0.131144 / 0.774).
    { apply (Rmult_le_reg_r 0.774); [lra|].
      unfold Rdiv. rewrite Rmult_assoc, Rinv_l by lra. lra. }
    rewrite !Rltb_false by lra. reflexivity.
Qed.

(** C1 (as amended). For five reports with scores
    [0.95, 0.94, 0.96, 0.05, 0.97] (signature verification disabled or all
    signatures valid) and [outlierThreshold = 2.0], no report is flagged:
    the aggregation has [outlierCount = 0], [aggregatedScore = 0.774] (the
    mean of the five scores), [consensusLevel = 'low'] and keeps the five
    reports. *)
Theorem five_reports_no_outlier
  (crypto_verify : Uint8Array -> Uint8Array -> Uint8Array -> option bool)
  (encodeReport : string -> number -> string -> Uint8Array)
  (reports : list PeerReport) (verify : bool) :
  map confidenceScore reports = map JS.Fin five_scores ->
  (verify = false
   \/ forall r, In r reports -> signatureValid crypto_verify encodeReport r = true) ->
  aggregate crypto_verify encodeReport reports
    {| outlierThreshold := Some (JS.Fin 2);
       minPeers := None;
       verifySignatures := Some verify |}
  = Ok (scenario_as_computed reports).
Proof.
  intros Hscores Hvalid.
  assert (Hlen : List.length reports = 5%nat).
  { rewrite <- (length_map confidenceScore), Hscores. reflexivity. }
  rewrite AggregatorFacts.aggregate_unfold. cbn [default minPeers outlierThreshold verifySignatures].
  unfold JS.len at 1. rewrite Hlen. simpl JS.lt. rewrite Rltb_false by (simpl; lra).
  assert (Hsame : (if verify
                   then filter (signatureValid crypto_verify encodeReport) reports
                   else reports) = reports).
  { destruct verify; [|reflexivity].
    destruct Hvalid as [H|H]; [discriminate|].
    clear Hscores Hlen. induction reports as [|r reports IH]; [reflexivity|].
    simpl. rewrite (H r) by (left; reflexivity). f_equal.
    apply IH. intros r' Hr'. apply H. right. exact Hr'. }
  rewrite Hsame. rewrite (five_scores_aggregation reports Hscores). reflexivity.
Qed.

Lemma five_reports_no_outlier_witness :
  aggregate (fun _ _ _ => Some true) (fun _ _ _ => []) five_reports
    {| outlierThreshold := Some (JS.Fin 2);
       minPeers := None;
       verifySignatures := Some true |}
  = Ok (scenario_as_computed five_reports).
Proof.
  apply five_reports_no_outlier.
  - reflexivity.
  - right. intros r _. reflexivity.
Defined.

(** C1 as stated fails: on the five reports of the scenario the
    aggregation has no outlier, score 0.774 and low consensus. *)
Lemma five_reports_not_as_specified :
  exists agg,
    aggregate (fun _ _ _ => Some true) (fun _ _ _ => []) five_reports
      {| outlierThreshold := Some (JS.Fin 2);
         minPeers := None;
         verifySignatures := Some false |} = Ok agg
    /\ outlierCount agg = 0
    /\ aggregatedScore agg = 0.774
    /\ consensusLevel agg = low
    /\ ~ scenario_as_specified agg.
Proof.
  exists (scenario_as_computed five_reports).
  split.
  - rewrite AggregatorFacts.aggregate_unfold.
    cbn [default minPeers outlierThreshold verifySignatures].
    unfold JS.len. simpl JS.lt. rewrite Rltb_false by (simpl; lra).
    rewrite (five_scores_aggregation five_reports eq_refl). reflexivity.
  - repeat split. intros [_ [_ H]]. discriminate H.
Qed.

End AggregationFacts.

(** ** The extractor: minimum duration *)

Module ExtractFacts.
Import MainsHumExtractor.

Lemma div_lt_iff (l s m : R) : 0 < s -> (l / s < m <-> l < s * m).
Proof.
  intros Hs. split; intros H.
  - apply (Rmult_lt_compat_r s) in H; [|exact Hs].
    unfold Rdiv in H. rewrite Rmult_assoc, Rinv_l, Rmult_1_r in H by lra. lra.
  - apply (Rmult_lt_reg_r s); [exact Hs|].
    unfold Rdiv. rewrite Rmult_assoc, Rinv_l, Rmult_1_r by lra. lra.
Qed.

Lemma Rltb_iff (a b c d : R) : (a < b <-> c < d) -> JS.Rltb a b = JS.Rltb c d.
Proof.
  intros H. unfold JS.Rltb.
  destruct (Rlt_dec a b), (Rlt_dec c d); tauto.
Qed.

(** In exact arithmetic, for a sample rate that is not negative, the
    test of the code, [length < sampleRate * minDuration], is the test of
    the specification, [length / sampleRate < minDuration]. *)
Lemma duration_test (l : R) (sampleRate minDuration : number) :
  0 <= l ->
  (sampleRate <? 0)%js = false ->
  (JS.Fin l <? sampleRate * minDuration)%js
  = (JS.Fin l / sampleRate <? minDuration)%js.
Proof.
  intros Hl Hs.
  destruct sampleRate as [s| | |]; simpl in Hs; try discriminate.
  - assert (Hs0 : 0 <= s).
    { destruct (Rle_dec 0 s); [assumption|].
      rewrite Rltb_true in Hs by lra. discriminate. }
    destruct (Req_dec_T s 0) as [->|Hne].
    + destruct minDuration as [m| | |]; simpl;
        rewrite ?Reqb_true by reflexivity; unfold JS.inf_sign;
        destruct (Req_dec_T l 0) as [->|Hl0];
        rewrite ?Reqb_true by reflexivity; rewrite ?Reqb_false by lra;
        rewrite ?Rltb_false by lra; reflexivity.
    + assert (0 < s) by lra.
      destruct minDuration as [m| | |]; simpl.
      * rewrite Reqb_false by lra. simpl. apply Rltb_iff.
        symmetry. apply div_lt_iff. assumption.
      * rewrite !Reqb_false by lra. unfold JS.inf_sign.
        rewrite Rltb_false by lra. reflexivity.
      * rewrite !Reqb_false by lra. unfold JS.inf_sign.
        rewrite Rltb_true by lra. reflexivity.
      * rewrite Reqb_false by lra. reflexivity.
  - destruct minDuration as [m| | |]; simpl; try reflexivity.
    unfold JS.inf_sign, JS.Reqb, JS.Rltb.
    destruct (Req_dec_T m 0), (Rlt_dec m 0), (Rlt_dec 0 m);
      try reflexivity; exfalso; lra.
  - destruct minDuration; reflexivity.
Qed.

Lemma typed_array_length_throws (x : number) (e : exn) :
  typed_array_length x = Throw e -> e = RangeError.
Proof.
  destruct x as [a| | |]; simpl; try congruence.
  destruct (JS.trunc a <? 0)%Z; congruence.
Qed.

Section WithConfig.

Variable config : FingerprintConfig.
Variable computeHash : Float32Array -> string.
Variable now : string.

Lemma extractFingerprintVector_throws
  (data : Float32Array) (sampleRate targetFreq : number) (e : exn) :
  extractFingerprintVector config data sampleRate targetFreq = Throw e ->
  e = RangeError.
Proof.
  unfold extractFingerprintVector.
  destruct (typed_array_length _) as [n|e'] eqn:E; simpl; [discriminate|].
  intros H. inversion H; subst. apply (typed_array_length_throws _ _ E).
Qed.

(** [extract] either fails the duration test, or runs the pipeline, whose
    only failure is the allocation of the vector. *)
Lemma extract_cases (audioData : AudioData) (sampleRateArg : option number) :
  let sampleRate :=
    match sampleRateArg with Some s => s | None => sampleRate config end in
  let n := JS.Fin (INR (audio_length audioData)) in
  ((n <? sampleRate * minDuration config)%js = true
   /\ extract config computeHash now audioData sampleRateArg
      = Throw (AudioTooShortError (minDuration config)))
  \/ ((n <? sampleRate * minDuration config)%js = false
      /\ ((exists fp, extract config computeHash now audioData sampleRateArg = Ok fp)
          \/ extract config computeHash now audioData sampleRateArg
             = Throw RangeError)).
Proof.
  intros sampleRate n. unfold extract. fold sampleRate. fold n.
  destruct (n <? sampleRate * minDuration config)%js; [left; auto|].
  right. split; [reflexivity|].
  destruct (extractFingerprintVector _ _ _ _) as [v|e] eqn:E; simpl.
  - left. eexists. reflexivity.
  - right. f_equal. apply (extractFingerprintVector_throws _ _ _ _ E).
Qed.

End WithConfig.

(** The two tests on whole numbers: for a sample rate [s > 0] and a
    minimum duration [d / 2^j], [n < s * (d / 2^j)] is [n * 2^j < s * d]. *)
Lemma product_test_whole (n : nat) (s d : Z) (j : nat) :
  (0 < s)%Z ->
  (JS.Fin (INR n) <? JS.Fin (IZR s) * JS.Fin (IZR d / 2 ^ j))%js = true
  <-> (Z.of_nat n * 2 ^ Z.of_nat j < s * d)%Z.
Proof.
  intros Hs. cbn [JS.mul JS.lt].
  assert (Hp : 0 < 2 ^ j) by (apply pow_lt; lra).
  assert (Hpow : IZR (2 ^ Z.of_nat j) = 2 ^ j) by (rewrite <- pow_IZR; reflexivity).
  assert (Hprod : IZR s * (IZR d / 2 ^ j) = IZR (s * d) / 2 ^ j)
    by (rewrite mult_IZR; field; lra).
  rewrite Hprod, INR_IZR_INZ.
  assert (Hiff : IZR (Z.of_nat n) < IZR (s * d) / 2 ^ j
                 <-> IZR (Z.of_nat n * 2 ^ Z.of_nat j) < IZR (s * d)).
  { rewrite (mult_IZR (Z.of_nat n)), Hpow. split; intros H.
    - apply (Rmult_lt_compat_r (2 ^ j)) in H; [|exact Hp].
      unfold Rdiv in H. rewrite Rmult_assoc, Rinv_l, Rmult_1_r in H by lra.
      exact H.
    - apply (Rmult_lt_reg_r (2 ^ j)); [exact Hp|].
      unfold Rdiv. rewrite Rmult_assoc, Rinv_l, Rmult_1_r by lra. exact H. }
  split; intros H.
  - apply Rltb_spec in H. apply lt_IZR. apply Hiff. exact H.
  - apply Rltb_true. apply Hiff. apply IZR_lt. exact H.
Qed.

(** C8 (as amended). For a sample rate that is a positive whole number
    [s] and a minimum duration that is a binary fraction [d / 2^j] with
    [s * d < 2^53] - the inputs on which binary64 computes the product
    [sampleRate * minDuration] without rounding, the defaults 44100 and 5
    among them - [extract] raises [AudioTooShortError] exactly when
    [samples.length / sampleRate < minDuration], which is the test
    [samples.length < sampleRate * minDuration] of the code, and then no
    fingerprint is produced; in particular 2 seconds of audio at 44100 Hz
    (88200 samples) are rejected under the default configuration. *)
Theorem extract_too_short_iff
  (computeHash : Float32Array -> string) (now : string) :
  (forall (config : FingerprintConfig) (audioData : AudioData)
          (sampleRateArg : option number) (s d : Z) (j : nat),
      let sampleRate :=
        match sampleRateArg with Some x => x | None => sampleRate config end in
      let n := JS.Fin (INR (audio_length audioData)) in
      sampleRate = JS.Fin (IZR s) ->
      minDuration config = JS.Fin (IZR d / 2 ^ j) ->
      (0 < s)%Z -> (0 <= d)%Z -> (s * d < 2 ^ 53)%Z ->
      (extract config computeHash now audioData sampleRateArg
       = Throw (AudioTooShortError (minDuration config))
       <-> (n / sampleRate <? minDuration config)%js = true)
      /\ (n / sampleRate <? minDuration config)%js
         = (n <? sampleRate * minDuration config)%js
      /\ ((n / sampleRate <? minDuration config)%js = true
          <-> (Z.of_nat (audio_length audioData) * 2 ^ Z.of_nat j < s * d)%Z)
      /\ ((n / sampleRate <? minDuration config)%js = true ->
          forall fp,
            extract config computeHash now audioData sampleRateArg <> Ok fp))
  /\ (forall (audioData : AudioData) (sampleRateArg : option number),
         audio_length audioData = Z.to_nat 88200 ->
         sampleRateArg = None \/ sampleRateArg = Some (JS.Fin 44100) ->
         extract DEFAULT_FINGERPRINT_CONFIG computeHash now audioData sampleRateArg
         = Throw (AudioTooShortError 5)).
Proof.
  split.
  - intros config audioData sampleRateArg s d j sampleRate n Hrate Hmin Hs _ _.
    assert (Hcode :
      extract config computeHash now audioData sampleRateArg
      = Throw (AudioTooShortError (minDuration config))
      <-> (n <? sampleRate * minDuration config)%js = true).
    { subst n sampleRate.
      destruct (extract_cases config computeHash now audioData sampleRateArg)
        as [[Ht He]|[Ht He]]; rewrite Ht.
      - split; auto.
      - split; [|discriminate].
        destruct He as [[fp He]|He]; rewrite He; discriminate. }
    assert (Hpos : (sampleRate <? 0)%js = false).
    { rewrite Hrate. cbn [JS.lt]. apply Rltb_false.
      apply IZR_lt in Hs. lra. }
    assert (Hsame : (n <? sampleRate * minDuration config)%js
                    = (n / sampleRate <? minDuration config)%js).
    { subst n. apply duration_test; [apply pos_INR | exact Hpos]. }
    rewrite <- Hsame. split; [exact Hcode|]. split; [reflexivity|]. split.
    + rewrite Hrate, Hmin. subst n. apply product_test_whole. exact Hs.
    + intros Ht fp Hfp. apply Hcode in Ht. rewrite Ht in Hfp. discriminate.
  - intros audioData sampleRateArg Hlen Hrate.
    unfold extract. rewrite Hlen.
    assert (Hn : INR (Z.to_nat 88200) = 88200).
    { rewrite INR_IZR_INZ, Z2Nat.id by lia. reflexivity. }
    rewrite Hn.
    destruct Hrate as [-> | ->]; simpl; rewrite Rltb_true by lra; reflexivity.
Qed.

Lemma extract_too_short_iff_witness :
  (extract DEFAULT_FINGERPRINT_CONFIG (fun _ => ""%string) "now" two_seconds None
   = Throw (AudioTooShortError 5)
   <-> (JS.Fin (INR (audio_length two_seconds)) / 44100 <? 5)%js = true)
  /\ extract DEFAULT_FINGERPRINT_CONFIG (fun _ => ""%string) "now" two_seconds None
     = Throw (AudioTooShortError 5).
Proof.
  pose proof (extract_too_short_iff (fun _ => ""%string) "now") as [Hiff Hdef].
  split.
  - apply (Hiff DEFAULT_FINGERPRINT_CONFIG two_seconds None 44100%Z 5%Z 0%nat).
    + reflexivity.
    + cbn [minDuration DEFAULT_FINGERPRINT_CONFIG]. f_equal. simpl. lra.
    + lia.
    + lia.
    + reflexivity.
  - apply Hdef; [apply repeat_length | left; reflexivity].
Defined.

End ExtractFacts.

(** ** The comparator on identical fingerprints *)

Module CompareFacts.
Import MainsHumExtractor.

Lemma same_mains_frequency (f : number) : (JS.abs (f - f) >? 5)%js = false.
Proof.
  unfold JS.gt. destruct f as [a| | |]; simpl; try reflexivity.
  replace (a + - a) with 0 by lra. rewrite Rabs_R0. apply Rltb_false. lra.
Qed.

Lemma getN_fin (rs : list R) (i : nat) :
  (i < List.length rs)%nat -> JS.getN (map JS.Fin rs) i = JS.Fin (nth i rs 0).
Proof.
  intros H. unfold JS.getN.
  rewrite (nth_indep _ JS.NaN (JS.Fin 0)) by (rewrite length_map; exact H).
  apply (map_nth JS.Fin).
Qed.

Lemma getZ_fin (rs : list R) (j : Z) :
  (0 <= j < Z.of_nat (List.length rs))%Z ->
  JS.getZ (map JS.Fin rs) j = JS.Fin (nth (Z.to_nat j) rs 0).
Proof.
  intros H. unfold JS.getZ.
  destruct (j <? 0)%Z eqn:E; [apply Z.ltb_lt in E; lia|].
  apply getN_fin. lia.
Qed.

Lemma fold_left_ext {A B : Type} (f g : A -> B -> A) (l : list B) (a : A) :
  (forall x y, f x y = g x y) -> fold_left f l a = fold_left g l a.
Proof.
  intros H. revert a. induction l as [|y l IH]; intros a; simpl; [reflexivity|].
  rewrite H. apply IH.
Qed.

Section Correlation.

Variable rs : list R.
Let v := map JS.Fin rs.

Lemma correlationAt_fold (minLength : nat) (offset : Z) :
  correlationAt v v minLength offset
  = let '(sum, count) :=
      fold_left (corr_step v offset) (seq 0 minLength) (JS.Fin 0, 0%nat) in
    if (0 <? count)%nat then (sum / JS.Fin (INR count))%js else 0.
Proof.
  unfold correlationAt.
  rewrite (fold_left_ext _ (corr_step v offset)); [reflexivity|].
  intros [sum count] i. reflexivity.
Qed.

(** The inner loop keeps a finite sum. *)
Lemma corr_fold_finite (offset : Z) (l : list nat) (s : R) (count : nat) :
  (forall i, In i l -> (i < List.length rs)%nat) ->
  exists s' count',
    fold_left (corr_step v offset) l (JS.Fin s, count) = (JS.Fin s', count').
Proof.
  revert s count. induction l as [|i l IH]; intros s count Hl; simpl.
  - exists s, count. reflexivity.
  - assert (Hi : (i < List.length rs)%nat) by (apply Hl; left; reflexivity).
    assert (Hl' : forall i, In i l -> (i < List.length rs)%nat)
      by (intros k Hk; apply Hl; right; exact Hk).
    destruct ((0 <=? Z.of_nat i + offset)%Z
              && (Z.of_nat i + offset <? Z.of_nat (List.length v))%Z) eqn:E.
    + apply andb_prop in E. destruct E as [E1 E2].
      apply Z.leb_le in E1. apply Z.ltb_lt in E2.
      unfold v in E2. rewrite length_map in E2.
      unfold v. rewrite (getN_fin rs i Hi), getZ_fin by lia. simpl.
      apply IH. exact Hl'.
    + apply IH. exact Hl'.
Qed.

Lemma correlationAt_finite (minLength : nat) (offset : Z) :
  (minLength <= List.length rs)%nat ->
  exists c, correlationAt v v minLength offset = JS.Fin c.
Proof.
  intros Hn. rewrite correlationAt_fold.
  destruct (corr_fold_finite offset (seq 0 minLength) 0 0) as [s [count H]].
  { intros i Hi. apply in_seq in Hi. lia. }
  rewrite H. destruct (0 <? count)%nat eqn:Hc.
  - apply Nat.ltb_lt in Hc. assert (0 < INR count) by (apply lt_0_INR; exact Hc).
    rewrite StatFacts.div_fin by lra. eexists. reflexivity.
  - exists 0. reflexivity.
Qed.

(** At offset 0 every index contributes its square. *)
Lemma corr_fold_zero (a m : nat) (s : R) (count : nat) :
  (a + m <= List.length rs)%nat ->
  fold_left (corr_step v 0) (seq a m) (JS.Fin s, count)
  = (JS.Fin (s + Rsum (map (fun i => nth i rs 0 * nth i rs 0) (seq a m))),
     (count + m)%nat).
Proof.
  revert a s count. induction m as [|m IH]; intros a s count H; simpl.
  - f_equal; [f_equal; lra | lia].
  - assert (E : ((0 <=? Z.of_nat a + 0)%Z
                 && (Z.of_nat a + 0 <? Z.of_nat (List.length v))%Z) = true).
    { unfold v. rewrite length_map. apply andb_true_intro. split.
      - apply Z.leb_le. lia.
      - apply Z.ltb_lt. lia. }
    rewrite E. unfold v. rewrite getN_fin, getZ_fin by lia.
    replace (Z.to_nat (Z.of_nat a + 0)) with a by lia. simpl.
    fold v. rewrite IH by lia. f_equal; [f_equal; lra | lia].
Qed.

Lemma map_nth_seq {A : Type} (f : R -> A) (l : list R) :
  map (fun i => f (nth i l 0)) (seq 0 (List.length l)) = map f l.
Proof.
  induction l as [|x l IH]; simpl; [reflexivity|].
  f_equal. rewrite <- seq_shift, map_map. exact IH.
Qed.

Lemma correlationAt_zero :
  rs <> [] ->
  correlationAt v v (List.length rs) 0 = JS.Fin (mean_square rs).
Proof.
  intros Hne. rewrite correlationAt_fold.
  rewrite corr_fold_zero by lia.
  pose proof (StatFacts.INR_length_pos Hne) as Hpos.
  destruct (0 <? 0 + List.length rs)%nat eqn:Hc.
  - simpl Nat.add. rewrite StatFacts.div_fin by lra. f_equal.
    unfold mean_square. f_equal.
    rewrite (map_nth_seq (fun x => x * x) rs). lra.
  - apply Nat.ltb_ge in Hc. destruct rs; [congruence | simpl in Hc; lia].
Qed.

End Correlation.

(** The search for the best offset, for any finite correlation. *)
Section MaxSearch.

Variable corr : Z -> number.
Hypothesis corr_finite : forall o, exists c, corr o = JS.Fin c.

Lemma search_step_finite (st : number * Z) (o : Z) :
  (exists M0, below (fst st) M0) ->
  exists m1, fst (search_step corr st o) = JS.Fin m1
             /\ below (fst st) m1 /\ below (corr o) m1.
Proof.
  destruct st as [mx b]. intros [M0 H0]. simpl in H0.
  destruct (corr_finite o) as [c Hc]. unfold search_step. rewrite Hc.
  unfold JS.gt. destruct mx as [m| | |]; simpl in *; try contradiction.
  - destruct (Rlt_dec m c) as [Hlt|Hge].
    + rewrite Rltb_true by lra. exists c. simpl. repeat split; lra.
    + rewrite Rltb_false by lra. exists m. simpl. repeat split; lra.
  - exists c. simpl. repeat split; lra.
Qed.

Lemma below_trans {x : number} {a b : R} : below x a -> a <= b -> below x b.
Proof. destruct x; simpl; intros; try lra; assumption. Qed.

Lemma search_max (l : list Z) (st : number * Z) :
  (exists M0, below (fst st) M0) ->
  l <> [] \/ (exists m, fst st = JS.Fin m) ->
  exists M, fst (fold_left (search_step corr) l st) = JS.Fin M
            /\ below (fst st) M
            /\ forall o, In o l -> below (corr o) M.
Proof.
  revert st. induction l as [|o l IH]; intros st Hst Hne.
  - destruct Hne as [Hne|[m Hm]]; [congruence|].
    exists m. simpl. rewrite Hm. repeat split; [simpl; lra | intros o []].
  - simpl. destruct (search_step_finite st o Hst) as [m1 [H1 [Hb Hc]]].
    destruct (IH (search_step corr st o)) as [M [HM [HbM Hl]]].
    + exists m1. rewrite H1. simpl. lra.
    + right. exists m1. exact H1.
    + rewrite H1 in HbM. simpl in HbM.
      exists M. split; [exact HM|]. split.
      * apply (below_trans Hb HbM).
      * intros o' [<-|Hin]; [apply (below_trans Hc HbM) | apply Hl; exact Hin].
Qed.

End MaxSearch.

Lemma offsets_zero (maxOffset : nat) : In 0%Z (offsets maxOffset).
Proof.
  unfold offsets. apply in_map_iff. exists maxOffset. split; [lia|].
  apply in_seq. lia.
Qed.

(** The correlation found for a finite vector against itself is finite and
    at least the mean square of the vector. *)
Lemma crossCorrelate_self {rs : list R} :
  rs <> [] ->
  exists c off,
    crossCorrelate (map JS.Fin rs) (map JS.Fin rs) = (JS.Fin c, off)
    /\ mean_square rs <= c.
Proof.
  intros Hne. set (v := map JS.Fin rs).
  assert (Hmin : Nat.min (List.length v) (List.length v) = List.length rs).
  { unfold v. rewrite length_map. apply Nat.min_id. }
  set (corr := fun o => correlationAt v v (List.length rs) o).
  assert (Hfin : forall o, exists c, corr o = JS.Fin c).
  { intros o. apply correlationAt_finite. lia. }
  assert (Hfold : crossCorrelate v v
                  = fold_left (search_step corr)
                      (offsets (List.length rs / 2)) (JS.NInf, 0%Z)).
  { unfold crossCorrelate. rewrite Hmin.
    apply fold_left_ext. intros [mx b] o. reflexivity. }
  destruct (search_max corr Hfin (offsets (List.length rs / 2)) (JS.NInf, 0%Z))
    as [M [HM [_ Hall]]].
  - exists 0. exact I.
  - left. intros E. pose proof (offsets_zero (List.length rs / 2)) as H0.
    rewrite E in H0. exact H0.
  - rewrite <- Hfold in HM.
    destruct (crossCorrelate v v) as [mx off] eqn:Ecc. simpl in HM. subst mx.
    exists M, off. split; [reflexivity|].
    pose proof (Hall 0%Z (offsets_zero _)) as H0.
    unfold corr in H0. unfold v in H0. rewrite (correlationAt_zero rs Hne) in H0.
    exact H0.
Qed.

Lemma estimateProximity_same_location (s t : number) :
  estimateProximity s t = same_location
  <-> (s >=? 0.85)%js && (t <? 10)%js = true.
Proof.
  unfold estimateProximity.
  destruct ((s >=? 0.85)%js && (t <? 10)%js); [split; reflexivity|].
  destruct ((s >=? 0.6)%js && (t <? 50)%js); [split; discriminate|].
  destruct (s >=? 0.3)%js; split; discriminate.
Qed.

Section WithConfig.

Variable config : FingerprintConfig.

(** C3 (as amended). For every fingerprint [fp] with a non-empty vector
    of finite values, [compare(fp, fp)] does not take the mains-frequency
    shortcut; its [correlation] is finite and at least the mean of the
    squared elements of the vector (the correlation at offset 0);
    [similarity] is the half sum of that correlation and of the cosine
    similarity with the realigned vector; and [proximityEstimate] is
    ['same_location'] exactly when this similarity is at least 0.85 and
    the best offset has magnitude below 10. *)
Theorem compare_self (fp : Fingerprint) (rs : list R) :
  vector fp = map JS.Fin rs ->
  rs <> [] ->
  let r := compare config fp fp in
  exists c off,
    crossCorrelate (vector fp) (vector fp) = (JS.Fin c, off)
    /\ correlation r = JS.Fin c
    /\ mean_square rs <= c
    /\ similarity r
       = ((JS.Fin c + cosineSimilarity (vector fp)
                        (alignVectors (vector fp) off)) / 2)%js
    /\ (proximityEstimate r = same_location
        <-> (similarity r >=? 0.85)%js && (JS.abs (JS.of_Z off) <? 10)%js = true).
Proof.
  intros Hv Hne r.
  destruct (crossCorrelate_self Hne) as [c [off [Hcc Hms]]].
  exists c, off. rewrite Hv. split; [exact Hcc|].
  unfold r, compare. rewrite same_mains_frequency, Hv, Hcc.
  cbn [correlation similarity proximityEstimate].
  repeat split; try assumption; apply estimateProximity_same_location.
Qed.

End WithConfig.

Lemma half_cross : crossCorrelate [JS.Fin 0.5] [JS.Fin 0.5] = (JS.Fin 0.25, 0%Z).
Proof.
  unfold crossCorrelate, offsets, correlationAt. simpl.
  rewrite Reqb_false by lra. simpl. f_equal. f_equal. lra.
Qed.

Lemma half_cosine :
  cosineSimilarity [JS.Fin 0.5] (alignVectors [JS.Fin 0.5] 0) = 1.
Proof.
  unfold cosineSimilarity, alignVectors. simpl.
  replace ((0 + 0.5 * 0.5) * (0 + 0.5 * 0.5)) with (0.25 * 0.25) by lra.
  rewrite Rltb_false by lra. rewrite sqrt_square by lra.
  unfold JS.gt. simpl. rewrite Rltb_true by lra. rewrite Reqb_false by lra.
  f_equal. lra.
Qed.

Lemma half_comparison :
  let r := compare DEFAULT_FINGERPRINT_CONFIG half_fingerprint half_fingerprint in
  similarity r = 0.625 /\ proximityEstimate r = nearby.
Proof.
  unfold compare. rewrite same_mains_frequency.
  simpl vector. rewrite half_cross, half_cosine.
  cbn [similarity proximityEstimate].
  assert (Hs : ((JS.Fin 0.25 + JS.Fin 1) / JS.Fin 2)%js = 0.625).
  { simpl. rewrite Reqb_false by lra. f_equal. lra. }
  rewrite Hs. split; [reflexivity|].
  unfold estimateProximity, JS.ge. simpl.
  replace (Rabs 0) with 0 by (symmetry; apply Rabs_R0).
  rewrite (Rleb_false 0.85) by lra. rewrite (Rleb_true 0.6) by lra.
  rewrite (Rltb_true 0 50) by lra. reflexivity.
Qed.

Lemma compare_self_witness :
  exists c off,
    crossCorrelate [JS.Fin 0.5] [JS.Fin 0.5] = (JS.Fin c, off)
    /\ correlation (compare DEFAULT_FINGERPRINT_CONFIG half_fingerprint
                            half_fingerprint) = JS.Fin c
    /\ mean_square [0.5] <= c.
Proof.
  destruct (compare_self DEFAULT_FINGERPRINT_CONFIG half_fingerprint
              [0.5] eq_refl)
    as [c [off [H1 [H2 [H3 _]]]]].
  - discriminate.
  - exists c, off. repeat split; assumption.
Defined.

(** C3 as stated fails: a fingerprint whose vector is [[0.5]] compared
    with itself has similarity 0.625 and proximity ['nearby']. *)
Lemma compare_self_not_as_specified :
  let r := compare DEFAULT_FINGERPRINT_CONFIG half_fingerprint half_fingerprint in
  similarity r = 0.625
  /\ proximityEstimate r = nearby
  /\ ~ self_comparison_as_specified r.
Proof.
  destruct half_comparison as [Hs Hp].
  split; [exact Hs|]. split; [exact Hp|].
  intros [_ H]. rewrite Hp in H. discriminate.
Qed.

End CompareFacts.

(** ** The extractor: normalisation of the fingerprint vector *)

Module NormalizeFacts.
Import MainsHumExtractor.

Lemma min_fold_fin (rs : list R) (a : R) :
  exists m, fold_left JS.min (map JS.Fin rs) (JS.Fin a) = JS.Fin m
            /\ m <= a /\ (forall r, In r rs -> m <= r).
Proof.
  revert a. induction rs as [|r rs IH]; intros a; simpl.
  - exists a. repeat split; [lra | intros r []].
  - destruct (Rlt_dec r a) as [Hlt|Hge].
    + rewrite Rltb_true by lra. destruct (IH r) as [m [Hm [Hle Hall]]].
      exists m. repeat split; [exact Hm | lra |].
      intros r' [<-|Hin]; [lra | apply Hall; exact Hin].
    + rewrite Rltb_false by lra. destruct (IH a) as [m [Hm [Hle Hall]]].
      exists m. repeat split; [exact Hm | lra |].
      intros r' [<-|Hin]; [lra | apply Hall; exact Hin].
Qed.

Lemma max_fold_fin (rs : list R) (a : R) :
  exists m, fold_left JS.max (map JS.Fin rs) (JS.Fin a) = JS.Fin m
            /\ a <= m /\ (forall r, In r rs -> r <= m).
Proof.
  revert a. induction rs as [|r rs IH]; intros a; simpl.
  - exists a. repeat split; [lra | intros r []].
  - destruct (Rlt_dec a r) as [Hlt|Hge].
    + rewrite Rltb_true by lra. destruct (IH r) as [m [Hm [Hle Hall]]].
      exists m. repeat split; [exact Hm | lra |].
      intros r' [<-|Hin]; [lra | apply Hall; exact Hin].
    + rewrite Rltb_false by lra. destruct (IH a) as [m [Hm [Hle Hall]]].
      exists m. repeat split; [exact Hm | lra |].
      intros r' [<-|Hin]; [lra | apply Hall; exact Hin].
Qed.

(** Minimum and maximum of a non-empty finite vector are finite bounds of
    its elements. *)
Lemma min_max_fin (rs : list R) :
  rs <> [] ->
  exists mn mx,
    JS.min_list (map JS.Fin rs) = JS.Fin mn
    /\ JS.max_list (map JS.Fin rs) = JS.Fin mx
    /\ forall r, In r rs -> mn <= r <= mx.
Proof.
  destruct rs as [|r0 rs]; [congruence|]. intros _.
  unfold JS.min_list, JS.max_list. simpl.
  destruct (min_fold_fin rs r0) as [mn [Hmn [Hmn0 Hmnall]]].
  destruct (max_fold_fin rs r0) as [mx [Hmx [Hmx0 Hmxall]]].
  exists mn, mx. repeat split; try assumption.
  - destruct H as [<-|Hin]; [lra | apply Hmnall; exact Hin].
  - destruct H as [<-|Hin]; [lra | apply Hmxall; exact Hin].
Qed.

(** [normalize] on finite magnitudes: the identity when they are all
    equal, the min-max rescaling into [[0, 1]] otherwise. *)
Lemma normalize_fin (rs : list R) :
  rs <> [] ->
  ((forall a b, In a rs -> In b rs -> a = b) ->
   normalize (map JS.Fin rs) = map JS.Fin rs)
  /\ ((exists a b, In a rs /\ In b rs /\ a <> b) ->
      Forall (fun x => in_unit x = true) (normalize (map JS.Fin rs))).
Proof.
  intros Hne. destruct (min_max_fin rs Hne) as [mn [mx [Hmn [Hmx Hb]]]].
  assert (Hin_mn : exists r, In r rs) by (destruct rs; [congruence | eexists; left; reflexivity]).
  destruct Hin_mn as [r0 Hr0]. pose proof (Hb r0 Hr0) as Hr0b.
  unfold normalize. rewrite Hmn, Hmx. simpl JS.sub. simpl JS.eq. split.
  - intros Hall.
    destruct (Req_dec_T (mx + - mn) 0) as [E|E];
      [rewrite Reqb_true by exact E; reflexivity|].
    exfalso. apply E.
    assert (Hmn' : exists m, fold_left JS.min (map JS.Fin rs) JS.PInf = JS.Fin m
                             /\ In m rs).
    { clear -Hne. destruct rs as [|r rs]; [congruence|]. simpl.
      assert (G : forall l a, exists m,
                 fold_left JS.min (map JS.Fin l) (JS.Fin a) = JS.Fin m
                 /\ (m = a \/ In m l)).
      { induction l as [|x l IH]; intros a; simpl.
        - exists a. auto.
        - destruct (JS.Rltb x a).
          + destruct (IH x) as [m [Hm Hor]]. exists m. split; [exact Hm|].
            destruct Hor as [E|Hin]; [right; left; congruence | right; right; exact Hin].
          + destruct (IH a) as [m [Hm Hor]]. exists m. split; [exact Hm|].
            destruct Hor as [E|Hin]; [left; exact E | right; right; exact Hin]. }
      destruct (G rs r) as [m [Hm Hor]]. exists m. split; [exact Hm|].
      destruct Hor as [E|Hin]; [left; congruence | right; exact Hin]. }
    assert (Hmx' : exists m, fold_left JS.max (map JS.Fin rs) JS.NInf = JS.Fin m
                             /\ In m rs).
    { clear -Hne. destruct rs as [|r rs]; [congruence|]. simpl.
      assert (G : forall l a, exists m,
                 fold_left JS.max (map JS.Fin l) (JS.Fin a) = JS.Fin m
                 /\ (m = a \/ In m l)).
      { induction l as [|x l IH]; intros a; simpl.
        - exists a. auto.
        - destruct (JS.Rltb a x).
          + destruct (IH x) as [m [Hm Hor]]. exists m. split; [exact Hm|].
            destruct Hor as [E|Hin]; [right; left; congruence | right; right; exact Hin].
          + destruct (IH a) as [m [Hm Hor]]. exists m. split; [exact Hm|].
            destruct Hor as [E|Hin]; [left; exact E | right; right; exact Hin]. }
      destruct (G rs r) as [m [Hm Hor]]. exists m. split; [exact Hm|].
      destruct Hor as [E|Hin]; [left; congruence | right; exact Hin]. }
    destruct Hmn' as [m1 [Hm1 Hin1]]. destruct Hmx' as [m2 [Hm2 Hin2]].
    unfold JS.min_list in Hmn. unfold JS.max_list in Hmx.
    rewrite Hmn in Hm1. rewrite Hmx in Hm2.
    inversion Hm1; inversion Hm2; subst.
    rewrite (Hall m1 m2 Hin1 Hin2). lra.
  - intros [a [b [Ha [Hb' Hab]]]].
    pose proof (Hb a Ha). pose proof (Hb b Hb').
    assert (Hrange : 0 < mx - mn) by lra.
    rewrite Reqb_false by lra.
    apply Forall_map. apply Forall_map. apply Forall_forall. intros v Hv.
    pose proof (Hb v Hv) as Hvb.
    simpl. rewrite Reqb_false by lra.
    apply StatFacts.in_unit_fin. eexists. split; [reflexivity|].
    assert (Hi : 0 < / (mx + - mn)) by (apply Rinv_0_lt_compat; lra).
    assert (Hone : (mx + - mn) * / (mx + - mn) = 1) by (apply Rinv_r; lra).
    unfold Rdiv. split.
    + apply Rmult_le_pos; lra.
    + assert ((v + - mn) * / (mx + - mn) <= (mx + - mn) * / (mx + - mn))
        by (apply Rmult_le_compat_r; lra).
      lra.
Qed.

Section WithConfig.

Variable config : FingerprintConfig.
Variable computeHash : Float32Array -> string.
Variable now : string.

Lemma extract_vector (audioData : AudioData) (sampleRateArg : option number)
  (fp : Fingerprint) :
  let sampleRate :=
    match sampleRateArg with Some s => s | None => sampleRate config end in
  extract config computeHash now audioData sampleRateArg = Ok fp ->
  exists mags,
    rawMagnitudes config audioData sampleRate = Ok mags
    /\ vector fp = normalize mags.
Proof.
  intros sampleRate. unfold extract, rawMagnitudes, extractFingerprintVector.
  fold sampleRate.
  destruct (_ <? _)%js; [discriminate|].
  destruct (typed_array_length _) as [n|e]; simpl; [|discriminate].
  intros H. inversion H; subst. simpl. eexists. split; reflexivity.
Qed.

(** C5 (as amended). For every audio input accepted by [extract], the
    vector of the returned fingerprint is [normalize] applied to the frame
    magnitudes; when these are finite and not all equal, every element of
    the vector lies in [[0, 1]]; when they are finite and all equal
    ([max - min = 0]) they are returned as they are. *)
Theorem extract_vector_normalized
  (audioData : AudioData) (sampleRateArg : option number) (fp : Fingerprint) :
  let sampleRate :=
    match sampleRateArg with Some s => s | None => sampleRate config end in
  extract config computeHash now audioData sampleRateArg = Ok fp ->
  exists mags,
    rawMagnitudes config audioData sampleRate = Ok mags
    /\ vector fp = normalize mags
    /\ forall rs, mags = map JS.Fin rs -> rs <> [] ->
         ((exists a b, In a rs /\ In b rs /\ a <> b) ->
          Forall (fun x => in_unit x = true) (vector fp))
         /\ ((forall a b, In a rs -> In b rs -> a = b) -> vector fp = mags).
Proof.
  intros sampleRate H.
  destruct (extract_vector audioData sampleRateArg fp H) as [mags [Hraw Hv]].
  exists mags. split; [exact Hraw|]. split; [exact Hv|].
  intros rs -> Hne. rewrite Hv.
  destruct (normalize_fin rs Hne) as [Heq Hunit]. split; assumption.
Qed.

End WithConfig.

End NormalizeFacts.

(** ** The extractor on a step: one frame, not normalised *)

Module StepFacts.
Import MainsHumExtractor.

Lemma INR_to_nat (z : Z) : (0 <= z)%Z -> INR (Z.to_nat z) = IZR z.
Proof. intros H. rewrite INR_IZR_INZ, Z2Nat.id by exact H. reflexivity. Qed.

Lemma Zfloor_IZR (z : Z) : Zfloor (IZR z) = z.
Proof. apply Zfloor_eq. lra. Qed.

Lemma filter_seq_interval (p : nat -> bool) (len start a b : nat) :
  (forall j, (start <= j < start + len)%nat -> (p j = true <-> (a <= j < b)%nat)) ->
  (start <= a)%nat -> (a <= b)%nat -> (b <= start + len)%nat ->
  filter p (seq start len) = seq a (b - a).
Proof.
  revert start a b. induction len as [|len IH]; intros start a b Hp Ha Hab Hb.
  - simpl. replace (b - a)%nat with 0%nat by lia. reflexivity.
  - simpl. destruct (p start) eqn:E.
    + apply (Hp start) in E; [|lia].
      assert (a = start) by lia. subst a.
      replace (b - start)%nat with (S (b - S start)) by lia. simpl. f_equal.
      apply IH; try lia.
      intros j Hj. rewrite (Hp j) by lia. lia.
    + destruct (Nat.eq_dec a b) as [->|Hne].
      * replace (b - b)%nat with 0%nat by lia. simpl.
        transitivity (seq (S start) (S start - S start));
          [|rewrite Nat.sub_diag; reflexivity].
        apply IH; try lia.
        intros j Hj. rewrite (Hp j) by lia. lia.
      * assert (start <> a).
        { intros ->. assert (p a = true) by (apply Hp; lia). congruence. }
        apply IH; try lia.
        intros j Hj. rewrite (Hp j) by lia. lia.
Qed.

Lemma INR_le_iff (a b : nat) : INR a <= INR b <-> (a <= b)%nat.
Proof. split; [apply INR_le | apply le_INR]. Qed.

Lemma INR_lt_iff (a b : nat) : INR a < INR b <-> (a < b)%nat.
Proof. split; [apply INR_lt | apply lt_INR]. Qed.

(** The window of the moving average for a window size of 1. *)
Lemma window_one (n i : nat) :
  (i < n)%nat ->
  loop_indices (JS.max 0 (JS.Fin (INR i) - JS.Fin 1)%js)
               (JS.min (JS.Fin (INR n)) (JS.Fin (INR i) + JS.Fin 1)%js) n
  = seq (i - 1) (S i - (i - 1)).
Proof.
  intros Hi. unfold loop_indices.
  apply filter_seq_interval; try lia.
  intros j Hj. simpl.
  assert (H1 : INR i + 1 = INR (S i)) by (rewrite S_INR; reflexivity).
  rewrite H1.
  assert (Hstop : (if JS.Rltb (INR (S i)) (INR n) then JS.Fin (INR (S i))
                   else JS.Fin (INR n)) = JS.Fin (INR (S i))).
  { destruct (Rlt_dec (INR (S i)) (INR n)) as [H|H].
    - rewrite Rltb_true by exact H. reflexivity.
    - rewrite Rltb_false by exact H. f_equal.
      assert (n = S i); [|subst; reflexivity].
      apply Rnot_lt_le in H. apply INR_le in H. lia. }
  rewrite Hstop.
  assert (Hstart : (if JS.Rltb 0 (INR i + - (1)) then JS.Fin (INR i + - (1))
                    else JS.Fin 0) = JS.Fin (INR (i - 1))).
  { destruct i as [|i].
    - simpl INR. rewrite Rltb_false by lra. reflexivity.
    - replace (S i - 1)%nat with i by lia. rewrite S_INR.
      destruct (Rlt_dec 0 (INR i + 1 + - (1))) as [H|H].
      + rewrite Rltb_true by exact H. f_equal. lra.
      + rewrite Rltb_false by exact H. f_equal.
        pose proof (pos_INR i). lra. }
  rewrite Hstart. cbn [JS.le JS.lt].
  rewrite andb_true_iff, Rleb_spec, Rltb_spec, INR_le_iff, INR_lt_iff. lia.
Qed.

Lemma nth_repeat_lt (A : Type) (x d : A) (k j : nat) :
  (j < k)%nat -> nth j (repeat x k) d = x.
Proof.
  revert j. induction k as [|k IH]; intros j Hj; [lia|].
  destruct j as [|j]; simpl; [reflexivity | apply IH; lia].
Qed.

Lemma map_const_seq (A : Type) (g : nat -> A) (c : A) (start len : nat) :
  (forall i, (start <= i < start + len)%nat -> g i = c) ->
  map g (seq start len) = repeat c len.
Proof.
  revert start. induction len as [|len IH]; intros start H; simpl; [reflexivity|].
  rewrite H by lia. f_equal. apply IH. intros i Hi. apply H. lia.
Qed.

Lemma step_length : List.length step_audio = Z.to_nat 6144.
Proof.
  change (List.length step_audio)
    with (S (List.length (repeat (JS.Fin 200) (Z.to_nat 6143)))).
  rewrite repeat_length. lia.
Qed.

Lemma window_size_one : JS.floor (100 / ((45 + 65) / 2))%js = JS.Fin 1.
Proof.
  simpl. rewrite !Reqb_false by lra. simpl. f_equal.
  change 1 with (IZR 1). f_equal. apply Zfloor_eq. simpl. lra.
Qed.

Lemma getN_cons (x : number) (l : list number) (j : nat) :
  JS.getN (x :: l) (S j) = JS.getN l j.
Proof. reflexivity. Qed.

Lemma step_audio_tail (j : nat) :
  (j < Z.to_nat 6143)%nat -> JS.getN step_audio (S j) = JS.Fin 200.
Proof.
  intros H. unfold step_audio. rewrite getN_cons.
  unfold JS.getN. apply nth_repeat_lt. exact H.
Qed.

Lemma step_audio_head : JS.getN step_audio 0 = JS.Fin 0.
Proof. reflexivity. Qed.

(** The filtered step is a single impulse. *)
Lemma bandpass_step :
  bandpassFilter step_audio 100 45 65
  = JS.Fin 0 :: JS.Fin 100 :: repeat (JS.Fin 0) (Z.to_nat 6142).
Proof.
  unfold bandpassFilter. rewrite window_size_one.
  set (n := List.length step_audio).
  assert (Hn : n = S (S (Z.to_nat 6142))) by (unfold n; rewrite step_length; lia).
  transitivity (map (fun i => if Nat.eqb i 1 then JS.Fin 100 else JS.Fin 0) (seq 0 n)).
  - apply map_ext_in. intros i Hi. apply in_seq in Hi.
    unfold JS.len. fold n. rewrite window_one by lia.
    assert (Hlen : (Z.to_nat 6144 = n)%nat) by (unfold n; rewrite step_length; lia).
    destruct i as [|[|i]].
    + cbn [Nat.sub seq fold_left List.length]. rewrite step_audio_head.
      unfold JS.len. cbn [List.length INR Nat.eqb].
      simpl. rewrite Reqb_false by lra. simpl. f_equal. lra.
    + cbn [Nat.sub seq fold_left List.length].
      rewrite step_audio_head, (step_audio_tail 0) by lia.
      unfold JS.len. cbn [List.length Nat.eqb].
      simpl. rewrite Reqb_false by lra. simpl. f_equal. lra.
    + replace (S (S (S i)) - (S (S i) - 1))%nat with 2%nat by lia.
      replace (S (S i) - 1)%nat with (S i) by lia.
      cbn [seq fold_left List.length].
      rewrite (step_audio_tail (S i)), (step_audio_tail i) by lia.
      unfold JS.len. cbn [List.length Nat.eqb].
      simpl. rewrite Reqb_false by lra. simpl. f_equal. lra.
  - rewrite Hn. generalize (Z.to_nat 6142). intros m.
    cbn [seq map Nat.eqb]. do 2 f_equal.
    apply map_const_seq. intros i Hi.
    destruct i as [|[|i]]; [lia | lia | reflexivity].
Qed.

(** *** Slicing the first frame *)

Lemma relative_index_IZR (z : Z) (len : nat) :
  (0 <= z)%Z -> JS.relative_index (JS.Fin (IZR z)) len = Nat.min (Z.to_nat z) len.
Proof.
  intros Hz. unfold JS.relative_index, JS.trunc.
  assert (0 <= IZR z) by (apply IZR_le; exact Hz).
  rewrite Rltb_false by lra. rewrite Zfloor_IZR.
  destruct (z <? 0)%Z eqn:E; [apply Z.ltb_lt in E; lia | reflexivity].
Qed.

Lemma firstn_repeat_le (A : Type) (x : A) (k m : nat) :
  (k <= m)%nat -> firstn k (repeat x m) = repeat x k.
Proof.
  revert m. induction k as [|k IH]; intros m H; [reflexivity|].
  destruct m as [|m]; [lia|]. simpl. f_equal. apply IH. lia.
Qed.

Lemma slice_prefix (A : Type) (l : list A) (z : Z) :
  (0 <= z)%Z -> (Z.to_nat z <= List.length l)%nat ->
  JS.slice l (JS.Fin (IZR 0)) (JS.Fin (IZR z)) = firstn (Z.to_nat z) l.
Proof.
  intros Hz Hl. unfold JS.slice.
  rewrite !relative_index_IZR by lia.
  rewrite Nat.min_l by exact Hl.
  change (Z.to_nat 0) with 0%nat. rewrite Nat.min_0_l, Nat.sub_0_r.
  reflexivity.
Qed.

Lemma impulse_length (k : nat) : List.length (impulse k) = S (S k).
Proof. unfold impulse. cbn [List.length]. rewrite repeat_length. reflexivity. Qed.

Lemma first_frame :
  JS.slice (impulse (Z.to_nat 6142)) (JS.Fin (INR 0) * 2048)%js
           (JS.Fin (INR 0) * 2048 + 4096)%js
  = impulse (Z.to_nat 4094).
Proof.
  assert (H0 : (JS.Fin (INR 0) * 2048)%js = JS.Fin (IZR 0)).
  { cbn [INR JS.mul]. f_equal. lra. }
  rewrite H0.
  assert (H1 : (JS.Fin (IZR 0) + 4096)%js = JS.Fin (IZR 4096)).
  { cbn [JS.add]. f_equal. lra. }
  rewrite H1.
  rewrite slice_prefix by (rewrite ?impulse_length; lia).
  replace (Z.to_nat 4096) with (S (S (Z.to_nat 4094))) by lia.
  unfold impulse. rewrite !firstn_cons.
  rewrite firstn_repeat_le by lia. reflexivity.
Qed.

(** *** The Hamming window and the transform of an impulse *)

Lemma hamming_lower (n i : nat) : 0.08 <= hamming n i.
Proof.
  unfold hamming. pose proof (COS_bound (2 * PI * INR i / (INR n + - (1)))). lra.
Qed.

Lemma getN_impulse (k i : nat) :
  JS.getN (impulse k) i
  = if Nat.eqb i 1 then JS.Fin 100
    else if Nat.ltb i (S (S k)) then JS.Fin 0 else JS.NaN.
Proof.
  unfold impulse. destruct i as [|[|i]]; [reflexivity | reflexivity |].
  rewrite !getN_cons. unfold JS.getN. cbn [Nat.eqb].
  destruct (Nat.ltb (S (S i)) (S (S k))) eqn:E.
  - apply Nat.ltb_lt in E. apply nth_repeat_lt. lia.
  - apply Nat.ltb_ge in E. apply nth_overflow. rewrite repeat_length. lia.
Qed.

Lemma hamming_impulse (k : nat) :
  applyHammingWindow (impulse k) = map JS.Fin (windowed_impulse k).
Proof.
  unfold applyHammingWindow, windowed_impulse. rewrite map_map, impulse_length.
  apply map_ext_in. intros i Hi. apply in_seq in Hi.
  rewrite getN_impulse. unfold JS.len. rewrite impulse_length.
  assert (Hn : INR (S (S k)) + - (1) <> 0).
  { rewrite !S_INR. pose proof (pos_INR k). lra. }
  remember (INR (S (S k))) as n eqn:En.
  cbn [JS.PI JS.mul JS.sub JS.neg JS.add JS.div].
  rewrite Reqb_false by exact Hn.
  cbn [JS.cos JS.mul JS.add JS.neg].
  replace (Nat.ltb i (S (S k))) with true by (symmetry; apply Nat.ltb_lt; lia).
  unfold hamming. rewrite <- En.
  destruct (Nat.eqb i 1); reflexivity.
Qed.

Lemma Rsum_cons (x : R) (l : list R) : Rsum (x :: l) = x + Rsum l.
Proof. reflexivity. Qed.

Lemma dft_bin_fold (input : Float32Array) (k : nat) :
  dft_bin input k
  = fold_left (dft_step input k) (seq 0 (List.length input)) (JS.Fin 0, JS.Fin 0).
Proof.
  unfold dft_bin. apply CompareFacts.fold_left_ext.
  intros [re im] t. reflexivity.
Qed.

(** The transform of finite samples is a pair of finite sums. *)
Lemma dft_fold_fin (ws : list R) (k : nat) (ts : list nat) (re im : R) :
  ws <> [] ->
  (forall t, In t ts -> (t < List.length ws)%nat) ->
  fold_left (dft_step (map JS.Fin ws) k) ts (JS.Fin re, JS.Fin im)
  = (JS.Fin (re + Rsum (map (fun t => nth t ws 0 * cos (dft_angle (List.length ws) k t)) ts)),
     JS.Fin (im - Rsum (map (fun t => nth t ws 0 * sin (dft_angle (List.length ws) k t)) ts))).
Proof.
  intros Hne. revert re im. induction ts as [|t ts IH]; intros re im Hts.
  - simpl. f_equal; f_equal; lra.
  - cbn [fold_left]. unfold dft_step at 2.
    rewrite CompareFacts.getN_fin by (apply Hts; left; reflexivity).
    rewrite StatFacts.len_map_fin.
    pose proof (StatFacts.INR_length_pos Hne) as Hpos.
    cbn [JS.PI JS.mul JS.sub JS.neg JS.add JS.div].
    rewrite Reqb_false by lra.
    cbn [JS.cos JS.sin JS.mul JS.add JS.neg].
    rewrite IH by (intros t' Ht'; apply Hts; right; exact Ht').
    unfold dft_angle. cbn [map]. rewrite !Rsum_cons. f_equal; f_equal; lra.
Qed.

Lemma Rsum_zero {A : Type} (g : A -> R) (l : list A) :
  (forall x, In x l -> g x = 0) -> Rsum (map g l) = 0.
Proof.
  induction l as [|x l IH]; intros H; simpl; [reflexivity|].
  rewrite H by (left; reflexivity). rewrite IH; [lra|].
  intros y Hy. apply H. right. exact Hy.
Qed.

Lemma nth_map_seq {A : Type} (f : nat -> A) (len t : nat) (d : A) :
  (t < len)%nat -> nth t (map f (seq 0 len)) d = f t.
Proof.
  intros H. rewrite (nth_indep _ d (f 0%nat)) by (rewrite length_map, length_seq; lia).
  rewrite map_nth. rewrite seq_nth by lia. reflexivity.
Qed.

Lemma nth_windowed_impulse (k t : nat) :
  (t < S (S k))%nat ->
  nth t (windowed_impulse k) 0
  = (if Nat.eqb t 1 then 100 else 0) * hamming (S (S k)) t.
Proof.
  intros Ht. unfold windowed_impulse.
  apply (nth_map_seq (fun i => (if Nat.eqb i 1 then 100 else 0) * hamming (S (S k)) i)).
  exact Ht.
Qed.

Lemma windowed_impulse_length (k : nat) :
  List.length (windowed_impulse k) = S (S k).
Proof. unfold windowed_impulse. rewrite length_map, length_seq. reflexivity. Qed.

(** Only the sample at index 1 contributes to the transform. *)
Lemma dft_windowed_impulse (k bin : nat) :
  let c := 100 * hamming (S (S k)) 1 in
  let a := dft_angle (S (S k)) bin 1 in
  dft_bin (map JS.Fin (windowed_impulse k)) bin
  = (JS.Fin (c * cos a), JS.Fin (- (c * sin a))).
Proof.
  intros c a. rewrite dft_bin_fold, length_map.
  rewrite dft_fold_fin.
  - rewrite windowed_impulse_length.
    change (seq 0 (S (S k))) with (0%nat :: 1%nat :: seq 2 k).
    cbn [map]. rewrite !Rsum_cons.
    rewrite !nth_windowed_impulse by lia. cbn [Nat.eqb].
    rewrite (Rsum_zero (fun t => nth t (windowed_impulse k) 0
                                 * cos (dft_angle (S (S k)) bin t))),
            (Rsum_zero (fun t => nth t (windowed_impulse k) 0
                                 * sin (dft_angle (S (S k)) bin t))).
    + unfold c, a. f_equal; f_equal; lra.
    + intros t Ht. apply in_seq in Ht. rewrite nth_windowed_impulse by lia.
      destruct t as [|[|t]]; [lia | lia |]. cbn [Nat.eqb]. lra.
    + intros t Ht. apply in_seq in Ht. rewrite nth_windowed_impulse by lia.
      destruct t as [|[|t]]; [lia | lia |]. cbn [Nat.eqb]. lra.
  - unfold windowed_impulse. discriminate.
  - intros t Ht. apply in_seq in Ht. lia.
Qed.

(** Reading the interleaved output of [fft]. *)
Lemma nth_pairs {A B : Type} (g : A -> B * B) (l : list A) (k : nat) (d : B) (a0 : A) :
  (k < List.length l)%nat ->
  nth (2 * k) (flat_map (fun x => let '(a, b) := g x in [a; b]) l) d
  = fst (g (nth k l a0))
  /\ nth (2 * k + 1) (flat_map (fun x => let '(a, b) := g x in [a; b]) l) d
     = snd (g (nth k l a0)).
Proof.
  revert k. induction l as [|x l IH]; intros k Hk; [simpl in Hk; lia|].
  cbn [flat_map]. destruct (g x) as [a b] eqn:E.
  destruct k as [|k].
  - cbn. rewrite E. split; reflexivity.
  - replace (2 * S k)%nat with (S (S (2 * k))) by lia.
    replace (S (S (2 * k)) + 1)%nat with (S (S (2 * k + 1))) by lia.
    cbn [app nth]. apply IH. simpl in Hk. lia.
Qed.

Lemma nth_fft (input : Float32Array) (k : nat) :
  (k < List.length input)%nat ->
  JS.getN (fft input) (2 * k) = fst (dft_bin input k)
  /\ JS.getN (fft input) (2 * k + 1) = snd (dft_bin input k).
Proof.
  intros Hk. unfold JS.getN, fft.
  pose proof (nth_pairs (dft_bin input) (seq 0 (List.length input)) k JS.NaN 0%nat) as H.
  rewrite length_seq, seq_nth in H by exact Hk. apply H. exact Hk.
Qed.

Lemma get_IZR (arr : Float32Array) (z : Z) :
  (0 <= z)%Z -> JS.get arr (JS.Fin (IZR z)) = JS.getN arr (Z.to_nat z).
Proof.
  intros Hz. unfold JS.get, JS.to_integer. rewrite Zfloor_IZR.
  rewrite Reqb_true by reflexivity. unfold JS.getZ.
  destruct (z <? 0)%Z eqn:E; [apply Z.ltb_lt in E; lia | reflexivity].
Qed.

(** The magnitude of every bin is the height of the windowed impulse. *)
Lemma magnitude_windowed_impulse (k : nat) (bin : Z) :
  (0 <= bin < Z.of_nat (S (S k)))%Z ->
  bin_magnitude (fft (map JS.Fin (windowed_impulse k))) (JS.Fin (IZR bin))
  = JS.Fin (100 * hamming (S (S k)) 1).
Proof.
  intros Hbin. unfold bin_magnitude.
  assert (H0 : (JS.Fin (IZR bin) * 2)%js = JS.Fin (IZR (bin * 2))).
  { cbn [JS.mul]. f_equal. rewrite mult_IZR. reflexivity. }
  assert (H1 : (JS.Fin (IZR (bin * 2)) + 1)%js = JS.Fin (IZR (bin * 2 + 1))).
  { cbn [JS.add]. f_equal. rewrite plus_IZR. reflexivity. }
  rewrite H0, H1. rewrite !get_IZR by lia.
  replace (Z.to_nat (bin * 2)) with (2 * Z.to_nat bin)%nat by lia.
  replace (Z.to_nat (bin * 2 + 1)) with (2 * Z.to_nat bin + 1)%nat by lia.
  destruct (nth_fft (map JS.Fin (windowed_impulse k)) (Z.to_nat bin)) as [Hre Him].
  { rewrite length_map, windowed_impulse_length. lia. }
  rewrite Hre, Him, dft_windowed_impulse. cbn [fst snd].
  set (c := 100 * hamming (S (S k)) 1).
  set (a := dft_angle (S (S k)) (Z.to_nat bin) 1).
  assert (Hc : 0 <= c) by (unfold c; pose proof (hamming_lower (S (S k)) 1); lra).
  assert (Hsq : c * cos a * (c * cos a) + - (c * sin a) * - (c * sin a) = c * c).
  { pose proof (sin2_cos2 a) as H. unfold Rsqr in H.
    replace (c * cos a * (c * cos a) + - (c * sin a) * - (c * sin a))
      with (c * c * (sin a * sin a + cos a * cos a)) by ring.
    rewrite H. ring. }
  unfold JS.sq. cbn [JS.mul JS.add]. rewrite Hsq.
  unfold JS.sqrt. rewrite Rltb_false by nra.
  f_equal. apply sqrt_square. exact Hc.
Qed.

(** *** The pipeline on the step *)

Lemma detect_50_or_60 (data : Float32Array) (sampleRate : number) :
  detectMainsFrequency data sampleRate = JS.Fin 50
  \/ detectMainsFrequency data sampleRate = JS.Fin 60.
Proof.
  unfold detectMainsFrequency. cbv zeta.
  destruct (fold_left _ _ _) as [maxMagnitude maxBin].
  destruct (_ <? _)%js; [left | right]; reflexivity.
Qed.

Lemma target_bin (f : number) :
  f = JS.Fin 50 \/ f = JS.Fin 60 ->
  exists bin,
    JS.round (f / (100 / 4096))%js = JS.Fin (IZR bin)
    /\ (0 <= bin < 4096)%Z.
Proof.
  intros [-> | ->]; cbn [JS.div];
    rewrite ?Reqb_false by lra; cbn [JS.div]; rewrite ?Reqb_false by lra;
    cbn [JS.round].
  - exists 2048%Z. split; [|lia]. do 2 f_equal. apply Zfloor_eq. lra.
  - exists 2458%Z. split; [|lia]. do 2 f_equal. apply Zfloor_eq. lra.
Qed.

Lemma one_frame (data : Float32Array) :
  List.length data = Z.to_nat 6144 ->
  typed_array_length
    (JS.floor ((JS.len data - fftWindowSize DEFAULT_FINGERPRINT_CONFIG)
               / hopSize DEFAULT_FINGERPRINT_CONFIG)%js)
  = Ok 1%nat.
Proof.
  intros Hlen. unfold JS.len. rewrite Hlen.
  rewrite INR_to_nat by lia.
  cbn [fftWindowSize hopSize DEFAULT_FINGERPRINT_CONFIG JS.sub JS.neg JS.add JS.div].
  rewrite Reqb_false by lra. cbn [JS.floor].
  replace (Zfloor ((6144 + - (4096)) / 2048)) with 1%Z
    by (symmetry; apply Zfloor_eq; lra).
  unfold typed_array_length, JS.trunc.
  rewrite Rltb_false by lra. rewrite Zfloor_IZR. reflexivity.
Qed.

Lemma normalize_single (m : R) : normalize [JS.Fin m] = [JS.Fin m].
Proof.
  unfold normalize, JS.min_list, JS.max_list. cbn.
  rewrite Reqb_true by lra. reflexivity.
Qed.

Lemma step_magnitude_lower : 8 <= step_magnitude.
Proof.
  unfold step_magnitude. pose proof (hamming_lower (S (S (Z.to_nat 4094))) 1). lra.
Qed.

Lemma step_vector (mainsFrequency : number) :
  mainsFrequency = JS.Fin 50 \/ mainsFrequency = JS.Fin 60 ->
  extractFingerprintVector DEFAULT_FINGERPRINT_CONFIG
    (impulse (Z.to_nat 6142)) 100 mainsFrequency
  = Ok [JS.Fin step_magnitude].
Proof.
  intros Hf. unfold extractFingerprintVector.
  rewrite one_frame by (rewrite impulse_length; lia).
  unfold bind, frameMagnitudes. cbn [seq map].
  change (hopSize DEFAULT_FINGERPRINT_CONFIG) with (JS.Fin 2048).
  change (fftWindowSize DEFAULT_FINGERPRINT_CONFIG) with (JS.Fin 4096).
  rewrite first_frame, hamming_impulse.
  destruct (target_bin mainsFrequency Hf) as [bin [Hbin Hrange]].
  rewrite Hbin. rewrite magnitude_windowed_impulse by lia.
  fold step_magnitude. rewrite normalize_single. reflexivity.
Qed.

Section Run.

Variable computeHash : Float32Array -> string.
Variable now : string.

(** On 6144 samples at 100 Hz (a step from 0 to 200 after the first
    sample) [extract] returns a one-element vector whose element is at
    least 8. *)
Lemma step_extract :
  exists fp,
    extract DEFAULT_FINGERPRINT_CONFIG computeHash now
            (Float32Samples step_audio) (Some (JS.Fin 100)) = Ok fp
    /\ vector fp = [JS.Fin step_magnitude].
Proof.
  unfold extract. cbn [audio_length]. rewrite step_length.
  rewrite INR_to_nat by lia.
  cbn [minDuration lowCutoff highCutoff DEFAULT_FINGERPRINT_CONFIG toFloat32
       JS.mul JS.lt].
  rewrite Rltb_false by lra.
  rewrite bandpass_step. fold (impulse (Z.to_nat 6142)).
  rewrite step_vector by apply detect_50_or_60.
  cbn [bind]. eexists. split; reflexivity.
Qed.

End Run.

End StepFacts.

(** ** The fingerprint vector is not always within [[0, 1]] *)

Module VectorRangeFacts.
Import MainsHumExtractor.

Lemma extract_vector_normalized_witness :
  exists fp mags,
    extract DEFAULT_FINGERPRINT_CONFIG (fun _ => ""%string) "now"
            (Float32Samples step_audio) (Some (JS.Fin 100)) = Ok fp
    /\ rawMagnitudes DEFAULT_FINGERPRINT_CONFIG
         (Float32Samples step_audio) 100 = Ok mags
    /\ vector fp = normalize mags.
Proof.
  destruct (StepFacts.step_extract (fun _ => ""%string) "now") as [fp [H _]].
  destruct (NormalizeFacts.extract_vector_normalized
              DEFAULT_FINGERPRINT_CONFIG (fun _ => ""%string) "now"
              (Float32Samples step_audio) (Some (JS.Fin 100)) fp H)
    as [mags [Hraw [Hv _]]].
  exists fp, mags. repeat split; assumption.
Defined.

(** C5 as stated fails: under the default configuration, 6144 samples at
    100 Hz (61 seconds, accepted by the duration test) holding a step
    from 0 to 200 give exactly one frame; its magnitude, at least 8, is
    returned without rescaling because [max - min = 0]. *)
Lemma extract_vector_not_in_unit :
  exists fp m,
    extract DEFAULT_FINGERPRINT_CONFIG (fun _ => ""%string) "now"
            (Float32Samples step_audio) (Some (JS.Fin 100)) = Ok fp
    /\ vector fp = [JS.Fin m]
    /\ 8 <= m
    /\ ~ Forall (fun x => in_unit x = true) (vector fp).
Proof.
  destruct (StepFacts.step_extract (fun _ => ""%string) "now") as [fp [H Hv]].
  pose proof StepFacts.step_magnitude_lower as Hm.
  exists fp, step_magnitude. repeat split; try assumption.
  rewrite Hv. intros HF. inversion HF as [|x l Hx _]; subst.
  apply StatFacts.in_unit_fin in Hx. destruct Hx as [r [Hr Hb]].
  inversion Hr; subst. lra.
Qed.

End VectorRangeFacts.

(** ** The duration test at the boundary *)

Module DurationFacts.
Import MainsHumExtractor.

Lemma bandpassFilter_length (data : Float32Array) (sampleRate low high : number) :
  List.length (bandpassFilter data sampleRate low high) = List.length data.
Proof. unfold bandpassFilter. rewrite length_map, length_seq. reflexivity. Qed.

(** C8 as stated fails where the product [sampleRate * minDuration] is
    rounded.  With 48510 samples at 44100 Hz and [minDuration = 1.1] the
    product is 48510.00000000001 and the code raises [AudioTooShortError],
    although [samples.length / sampleRate < minDuration] does not hold of
    the quotient the code would compute.  With 4410 samples at 44100 Hz
    and [minDuration = 0.1] the product is 4410 and the code accepts the
    recording, although its duration, 4410 / 44100 = 1/10, is below the
    binary64 number 0.1, which is [7205759403792794 / 2^56]. *)
Lemma duration_test_rounds :
  (Binary64.tooShort 48510 44100 1.1 = true
   /\ duration_below 48510 44100 1.1 = false)
  /\ (Binary64.tooShort 4410 44100 0.1 = false
      /\ Prim2SF 0.1 = SpecFloat.S754_finite false 7205759403792794 (-56)
      /\ (4410 * 2 ^ 56 < 44100 * 7205759403792794)%Z).
Proof.
  split; [split; reflexivity|].
  split; [reflexivity|]. split; reflexivity.
Qed.

End DurationFacts.

(** ** Sums of squares *)

Module SumFacts.

Lemma Rsum_app (l1 l2 : list R) : Rsum (l1 ++ l2) = Rsum l1 + Rsum l2.
Proof.
  induction l1 as [|a l1 IH]; simpl.
  - lra.
  - unfold Rsum in *. simpl. rewrite IH. lra.
Qed.

Lemma Rsum_shift (m : R) (l : list R) :
  Rsum (map (fun x => x - m) l) = Rsum l - INR (List.length l) * m.
Proof.
  induction l as [|a l IH].
  - simpl. lra.
  - cbn [map]. rewrite !StepFacts.Rsum_cons, IH.
    change (List.length (a :: l)) with (S (List.length l)). rewrite S_INR. lra.
Qed.

Lemma Rsum_squares_nonneg (l : list R) : 0 <= Rsum (map (fun x => x * x) l).
Proof.
  induction l as [|a l IH].
  - simpl. lra.
  - cbn [map]. rewrite StepFacts.Rsum_cons. nra.
Qed.

(** [2 a S <= n a^2 + Q] and the Cauchy-Schwarz inequality [S^2 <= n Q],
    for the sum [S] and the sum of squares [Q] of [n] reals. *)
Lemma twice_sum_le (a : R) (l : list R) :
  2 * a * Rsum l
  <= INR (List.length l) * (a * a) + Rsum (map (fun x => x * x) l).
Proof.
  induction l as [|x l IH].
  - simpl. lra.
  - cbn [map]. rewrite !StepFacts.Rsum_cons.
    change (List.length (x :: l)) with (S (List.length l)). rewrite S_INR.
    pose proof (Rle_0_sqr (a - x)) as Hsq. unfold Rsqr in Hsq.
    nra.
Qed.

Lemma sum_squared_le (l : list R) :
  Rsum l * Rsum l <= INR (List.length l) * Rsum (map (fun x => x * x) l).
Proof.
  induction l as [|x l IH].
  - simpl. lra.
  - cbn [map]. rewrite !StepFacts.Rsum_cons.
    change (List.length (x :: l)) with (S (List.length l)). rewrite S_INR.
    pose proof (twice_sum_le x l) as H2.
    pose proof (Rsum_squares_nonneg l) as Hq.
    nra.
Qed.


Lemma Rsum_mean (l : list R) :
  l <> [] -> Rsum l = INR (List.length l) * Rmean l.
Proof.
  intros Hne. unfold Rmean. pose proof (StatFacts.INR_length_pos Hne). field. lra.
Qed.


(** One deviation from the mean against the sum of all squared
    deviations: [n (v - m)^2 <= (n - 1) sum (x - m)^2]. *)
Lemma deviation_bound (rs : list R) (v : R) :
  In v rs ->
  INR (List.length rs) * ((v - Rmean rs) * (v - Rmean rs))
  <= (INR (List.length rs) - 1) * Rsumsq (Rmean rs) rs.
Proof.
  intros Hin.
  assert (Hne : rs <> []) by (intros ->; contradiction).
  pose proof (Rsum_shift (Rmean rs) rs) as Hz.
  rewrite (Rsum_mean rs Hne) in Hz.
  set (m := Rmean rs) in *.
  destruct (in_split _ _ Hin) as [l1 [l2 Hrs]].
  unfold Rsumsq.
  assert (Hq : map (fun x => (x - m) * (x - m)) rs
               = map (fun d => d * d) (map (fun x => x - m) rs)).
  { rewrite map_map. reflexivity. }
  rewrite Hq. clearbody m. clear Hq Hne Hin.
  assert (Hlen : INR (List.length rs)
                 = INR (List.length (map (fun x => x - m) (l1 ++ l2))) + 1).
  { rewrite Hrs, length_map, !length_app. cbn [List.length].
    rewrite Nat.add_succ_r, S_INR. reflexivity. }
  rewrite Hlen. rewrite Hrs in Hz |- *.
  rewrite !map_app in *. cbn [map] in *.
  rewrite !Rsum_app, ?StepFacts.Rsum_cons in *.
  set (d1 := map (fun x => x - m) l1) in *.
  set (d2 := map (fun x => x - m) l2) in *.
  pose proof (sum_squared_le (d1 ++ d2)) as Hcs.
  rewrite map_app, !Rsum_app in Hcs.
  set (n' := INR (List.length (d1 ++ d2))) in *.
  set (q1 := Rsum (map (fun d => d * d) d1)) in *.
  set (q2 := Rsum (map (fun d => d * d) d2)) in *.
  set (s1 := Rsum d1) in *. set (s2 := Rsum d2) in *.
  assert (Hs : s1 + s2 = - (v - m)) by lra.
  rewrite Hs in Hcs.
  nra.
Qed.

End SumFacts.

(** ** Populations too small for the z-score test *)

Module SmallPopulationFacts.

Import ConfidenceAggregator.

Lemma abs_square (x : R) : Rabs x * Rabs x = x * x.
Proof. unfold Rabs. destruct (Rcase_abs x); lra. Qed.

(** With [n] finite scores and a threshold [t >= 0] such that
    [t^2 >= n - 1], no z-score exceeds the threshold. *)
Lemma zScore_bound (rs : list R) (v t : R) :
  In v rs -> 0 <= t -> INR (List.length rs) - 1 <= t * t ->
  (zScore (JS.Fin (Rmean rs))
          (computeStdDev (map JS.Fin rs) (JS.Fin (Rmean rs))) (JS.Fin v)
   >? JS.Fin t)%js = false.
Proof.
  intros Hin Ht Hn.
  assert (Hne : rs <> []) by (intros ->; contradiction).
  rewrite (StatFacts.computeStdDev_fin rs (Rmean rs) Hne), StatFacts.zScore_fin.
  pose proof (StatFacts.INR_length_pos Hne) as Hpos.
  pose proof (StatFacts.Rsumsq_nonneg (Rmean rs) rs) as Hq.
  pose proof (SumFacts.deviation_bound rs v Hin) as Hd.
  set (m := Rmean rs) in *. set (n := INR (List.length rs)) in *.
  set (Q := Rsumsq m rs) in *.
  assert (HV : 0 <= Q / n).
  { apply Rmult_le_pos; [exact Hq | left; apply Rinv_0_lt_compat; exact Hpos]. }
  pose proof (sqrt_sqrt (Q / n) HV) as Hss.
  set (s := sqrt (Q / n)) in *.
  unfold JS.gt, JS.lt.
  destruct (JS.Rltb 0 s) eqn:Hs.
  - apply Rltb_spec in Hs. apply Rltb_false. intros Hlt.
    set (x := (v - m) / s) in *.
    assert (Hx : v - m = x * s) by (unfold x; field; lra).
    pose proof (abs_square x) as Habs.
    assert (Hxx : t * t < x * x).
    { rewrite <- Habs. pose proof (Rabs_pos x). nra. }
    assert (HQ : Q = n * (s * s)) by (rewrite Hss; field; lra).
    assert (Hsspos : 0 < s * s) by (apply Rmult_lt_0_compat; assumption).
    assert (HQpos : 0 < Q).
    { rewrite HQ. apply Rmult_lt_0_compat; assumption. }
    assert (Hd' : n * ((v - m) * (v - m)) = (x * x) * Q).
    { rewrite Hx, HQ. ring. }
    rewrite Hd' in Hd.
    assert (H1 : t * t * Q < x * x * Q).
    { apply Rmult_lt_compat_r; assumption. }
    assert (H2 : (n - 1) * Q <= t * t * Q).
    { apply Rmult_le_compat_r; assumption. }
    lra.
  - apply Rltb_false. lra.
Qed.

(** A sum of squared deviations that is finite has finite terms. *)
Lemma sub_finite (x y : number) :
  is_finite (x - y)%js -> is_finite x /\ is_finite y.
Proof.
  intros [r Hr]. destruct x, y; simpl in Hr; try discriminate;
    split; eexists; reflexivity.
Qed.

Lemma sq_finite (x : number) : is_finite (JS.sq x) -> is_finite x.
Proof.
  intros [r Hr]. destruct x; simpl in Hr; try discriminate.
  eexists; reflexivity.
Qed.

Lemma add_finite_r (x y : number) : is_finite (x + y)%js -> is_finite y.
Proof.
  intros [r Hr]. destruct x, y; simpl in Hr; try discriminate.
  eexists; reflexivity.
Qed.

Lemma sum_finite_terms (f : number -> number) (l : list number) (a0 : number) :
  is_finite (fold_left (fun acc val => (acc + f val)%js) l a0) ->
  forall v, In v l -> is_finite (f v).
Proof.
  revert a0. induction l as [|x l IH]; intros a0 Hfin v Hin.
  - contradiction.
  - cbn [fold_left] in Hfin. destruct Hin as [<- | Hin].
    + destruct (f x) as [b| | |] eqn:Hfx; try (eexists; reflexivity);
        exfalso; revert Hfin;
        apply OutlierFacts.fold_add_not_finite;
        intros [r Hr]; destruct a0; discriminate.
    + exact (IH _ Hfin v Hin).
Qed.

Lemma all_finite (l : list number) :
  (forall v, In v l -> is_finite v) -> exists rs, l = map JS.Fin rs.
Proof.
  induction l as [|x l IH]; intros H.
  - exists []. reflexivity.
  - destruct (H x (or_introl eq_refl)) as [r ->].
    destruct IH as [rs ->]; [intros v Hv; apply H; right; exact Hv|].
    exists (r :: rs). reflexivity.
Qed.

(** A positive finite standard deviation is that of finite values. *)
Lemma computeStdDev_finite (values : list number) (mean : number) (s : R) :
  computeStdDev values mean = JS.Fin s -> 0 < s ->
  exists rs m, rs <> [] /\ values = map JS.Fin rs /\ mean = JS.Fin m.
Proof.
  intros H Hs. unfold computeStdDev in H.
  destruct values as [|v0 values'].
  - rewrite len_nil in H. injection H as H. lra.
  - rewrite len_cons in H. cbv zeta in H.
    set (values := v0 :: values') in *.
    assert (Hsum : is_finite
              (reduce_sum (fun val => JS.sq (val - mean)) values)).
    { destruct (reduce_sum (fun val => JS.sq (val - mean)) values) eqn:E.
      - eexists; reflexivity.
      - exfalso. unfold JS.len in H. cbn [JS.div] in H.
        match type of H with
        | context [JS.Rltb ?a ?b] => destruct (JS.Rltb a b)
        end; discriminate.
      - exfalso. unfold JS.len in H. cbn [JS.div] in H.
        match type of H with
        | context [JS.Rltb ?a ?b] => destruct (JS.Rltb a b)
        end; discriminate.
      - discriminate. }
    pose proof (sum_finite_terms _ _ _ Hsum) as Hterms.
    assert (Hall : forall v, In v values -> is_finite v /\ is_finite mean).
    { intros v Hv. apply sub_finite, sq_finite, Hterms, Hv. }
    destruct (all_finite values) as [rs Hrs]; [intros v Hv; apply Hall, Hv|].
    destruct (Hall v0 (or_introl eq_refl)) as [_ [m Hm]].
    exists rs, m. repeat split; try assumption.
    intros ->. discriminate.
Qed.

(** In exact arithmetic no value is flagged when the threshold [t >= 0]
    satisfies [t^2 >= n - 1], whatever the [n] values are. *)
Lemma detectOutliers_small (values : list number) (t : R) :
  0 <= t -> INR (List.length values) - 1 <= t * t ->
  detectOutliers values (computeMean values)
                 (computeStdDev values (computeMean values)) (JS.Fin t)
  = map (fun _ => false) values.
Proof.
  intros Ht Hn. unfold detectOutliers. apply map_ext_in. intros v Hv.
  destruct (computeStdDev values (computeMean values)) as [s| | |] eqn:Hsd.
  - destruct (Rlt_dec 0 s) as [Hs | Hs].
    + destruct (computeStdDev_finite _ _ _ Hsd Hs) as [rs [m [Hne [Hrs Hm]]]].
      subst values. rewrite (StatFacts.computeMean_fin rs Hne) in Hm, Hsd |- *.
      apply in_map_iff in Hv. destruct Hv as [r [<- Hr]].
      rewrite <- Hsd. rewrite length_map in Hn.
      apply zScore_bound; assumption.
    + unfold zScore, JS.gt, JS.lt. rewrite (Rltb_false _ _ Hs).
      apply Rltb_false. lra.
  - unfold zScore. cbn [JS.gt JS.lt].
    destruct ((v - computeMean values)%js) as [d| | |]; cbn;
      try reflexivity.
    apply Rltb_false. rewrite Rabs_R0. lra.
  - unfold zScore. cbn. apply Rltb_false. lra.
  - unfold zScore. cbn. apply Rltb_false. lra.
Qed.

End SmallPopulationFacts.

(** ** The counts and the per-peer scores of an aggregation *)

Module CountFacts.

Import ConfidenceAggregator.

(** The entry of [peerScores] for one report. *)
Lemma buildPeerScores_map (reports : list PeerReport) (f : PeerReport -> bool) :
  buildPeerScores reports (map f reports)
  = map (fun r => {| peerId := peerEphemeralId r;
                     score := confidenceScore r;
                     included := negb (f r) |}) reports.
Proof.
  induction reports as [|r reports IH]; [reflexivity|].
  cbn [map buildPeerScores hd tl]. rewrite IH. reflexivity.
Qed.

Lemma filter_unmasked_filter (A : Type) (f : A -> bool) (l : list A) :
  filter_unmasked l (map f l) = filter (fun x => negb (f x)) l.
Proof.
  induction l as [|x l IH]; [reflexivity|].
  cbn [map filter_unmasked filter]. rewrite IH. reflexivity.
Qed.

Lemma filter_true_map (A : Type) (f : A -> bool) (l : list A) :
  List.length (filter (fun isOutlier => isOutlier) (map f l))
  = List.length (filter f l).
Proof.
  induction l as [|x l IH]; [reflexivity|].
  cbn [map filter]. destruct (f x); cbn [List.length]; rewrite IH; reflexivity.
Qed.

Lemma filter_split (A : Type) (f : A -> bool) (l : list A) :
  (List.length (filter (fun x => negb (f x)) l) + List.length (filter f l))%nat
  = List.length l.
Proof.
  induction l as [|x l IH]; [reflexivity|].
  cbn [filter]. destruct (f x); cbn [negb List.length]; lia.
Qed.

Lemma included_count (f : PeerReport -> bool) (reports : list PeerReport) :
  List.length (filter included (buildPeerScores reports (map f reports)))
  = List.length (filter (fun r => negb (f r)) reports)
  /\ List.length (filter (fun p => negb (included p))
                         (buildPeerScores reports (map f reports)))
     = List.length (filter f reports).
Proof.
  rewrite buildPeerScores_map.
  induction reports as [|r reports [IH1 IH2]]; [split; reflexivity|].
  cbn [map filter included]. destruct (f r); cbn [negb List.length];
    rewrite ?IH1, ?IH2; split; reflexivity.
Qed.

Lemma outlierMask_map (reports : list PeerReport) (threshold : number) :
  let scores := map confidenceScore reports in
  let mean := computeMean scores in
  detectOutliers scores mean (computeStdDev scores mean) threshold
  = map (flag_of reports threshold) reports.
Proof. cbv zeta. unfold detectOutliers. rewrite map_map. reflexivity. Qed.

Lemma aggregateReports_counts (reports : list PeerReport) (threshold : number) :
  let agg := aggregateReports reports threshold in
  map peerId (peerScores agg) = map peerEphemeralId reports
  /\ map score (peerScores agg) = map confidenceScore reports
  /\ reportCount agg = JS.len (filter included (peerScores agg))
  /\ outlierCount agg
     = JS.len (filter (fun p => negb (included p)) (peerScores agg))
  /\ (reportCount agg + outlierCount agg)%js = JS.len reports.
Proof.
  cbv zeta. unfold aggregateReports. cbv zeta.
  cbn [peerScores reportCount outlierCount].
  pose proof (outlierMask_map reports threshold) as Hmask. cbv zeta in Hmask.
  rewrite Hmask. set (f := flag_of reports threshold).
  destruct (included_count f reports) as [Hin Hout].
  unfold JS.len. rewrite Hin, Hout, filter_true_map, filter_unmasked_filter.
  repeat split.
  - rewrite buildPeerScores_map, map_map. reflexivity.
  - rewrite buildPeerScores_map, map_map. reflexivity.
  - cbn [JS.add]. rewrite <- plus_INR, filter_split. reflexivity.
Qed.

Section WithCrypto.

Variable crypto_verify : Uint8Array -> Uint8Array -> Uint8Array -> option bool.
Variable encodeReport : string -> number -> string -> Uint8Array.

Lemma aggregate_ok (reports : list PeerReport) (options : Options)
  (agg : ConfidenceAggregation) :
  aggregate crypto_verify encodeReport reports options = Ok agg ->
  (JS.len reports <? default (minPeers options) 3)%js = false
  /\ agg = aggregateReports
             (if default (verifySignatures options) true
              then filter (signatureValid crypto_verify encodeReport) reports
              else reports)
             (default (outlierThreshold options) 2).
Proof.
  rewrite AggregatorFacts.aggregate_unfold.
  destruct (JS.len reports <? default (minPeers options) 3)%js; [discriminate|].
  intros H. injection H as <-. split; reflexivity.
Qed.

(** X2.  In every aggregation that [aggregate] returns, [peerScores] has
    one entry per report that survived signature verification, in order,
    with that report's peer id and score; [reportCount] is the number of
    entries marked included, [outlierCount] the number of the others, and
    the two counts add up to the number of surviving reports. *)
Theorem aggregate_counts (reports : list PeerReport) (options : Options)
  (agg : ConfidenceAggregation) :
  let survivors :=
    if default (verifySignatures options) true
    then filter (signatureValid crypto_verify encodeReport) reports
    else reports in
  aggregate crypto_verify encodeReport reports options = Ok agg ->
  map peerId (peerScores agg) = map peerEphemeralId survivors
  /\ map score (peerScores agg) = map confidenceScore survivors
  /\ reportCount agg = JS.len (filter included (peerScores agg))
  /\ outlierCount agg
     = JS.len (filter (fun p => negb (included p)) (peerScores agg))
  /\ (reportCount agg + outlierCount agg)%js = JS.len survivors.
Proof.
  intros survivors H. apply aggregate_ok in H. destruct H as [_ ->].
  apply aggregateReports_counts.
Qed.

End WithCrypto.

Lemma aggregate_counts_witness :
  let agg := aggregateReports five_reports 2 in
  map peerId (peerScores agg) = map peerEphemeralId five_reports
  /\ map score (peerScores agg) = map confidenceScore five_reports
  /\ reportCount agg = JS.len (filter included (peerScores agg))
  /\ outlierCount agg
     = JS.len (filter (fun p => negb (included p)) (peerScores agg))
  /\ (reportCount agg + outlierCount agg)%js = JS.len five_reports.
Proof.
  apply (aggregate_counts (fun _ _ _ => Some true) (fun _ _ _ => [])
           five_reports
           {| outlierThreshold := None;
              minPeers := None;
              verifySignatures := Some false |}).
  rewrite AggregatorFacts.aggregate_unfold.
  cbn [default minPeers verifySignatures outlierThreshold].
  unfold JS.len, JS.lt. rewrite Rltb_false; [reflexivity | simpl; lra].
Defined.

End CountFacts.

(** ** Aggregations that exclude nothing *)

Module UntrimmedFacts.

Import ConfidenceAggregator.

Lemma aggregateReports_untrimmed (reports : list PeerReport) (threshold : number) :
  let scores := map confidenceScore reports in
  let mean := computeMean scores in
  detectOutliers scores mean (computeStdDev scores mean) threshold
  = map (fun _ => false) scores ->
  aggregateReports reports threshold = untrimmed reports.
Proof.
  cbv zeta. intros Hmask. unfold aggregateReports, untrimmed. cbv zeta.
  rewrite Hmask.
  assert (Hall : Forall (fun b => b = false)
                   (map (fun _ : number => false) (map confidenceScore reports))).
  { apply Forall_forall. intros b Hb. apply in_map_iff in Hb.
    destruct Hb as [x [<- _]]. reflexivity. }
  rewrite !(StatFacts.filter_unmasked_all_false _ _ _ Hall).
  rewrite AggregationFacts.filter_all_false.
  rewrite map_map.
  rewrite (CountFacts.buildPeerScores_map reports (fun _ => false)).
  reflexivity.
Qed.

Lemma aggregateReports_unanimous
  (survivors : list PeerReport) (threshold : number) (c : R) :
  (threshold <? 0)%js = false ->
  survivors <> [] ->
  (forall r, In r survivors -> confidenceScore r = JS.Fin c) ->
  let scores := map confidenceScore survivors in
  aggregateReports survivors threshold = untrimmed survivors
  /\ computeMean scores = JS.Fin c
  /\ computeStdDev scores (JS.Fin c) = 0
  /\ assessConsensus scores (JS.Fin c)
     = if JS.Rleb 0.7 c then high
       else if JS.Rleb 0.5 c then medium
       else low.
Proof.
  intros Hthr Hne Hall scores.
  assert (Hscores : scores = map JS.Fin (map (fun _ => c) survivors)).
  { unfold scores. rewrite map_map. apply map_ext_in. exact Hall. }
  set (rs := map (fun _ : PeerReport => c) survivors) in *.
  assert (Hrs : rs <> []).
  { unfold rs. destruct survivors; [contradiction | discriminate]. }
  pose proof (StatFacts.INR_length_pos Hrs) as Hpos.
  assert (Hsum : Rsum rs = INR (List.length rs) * c).
  { unfold rs. clear. induction survivors as [|r l IH].
    - simpl. lra.
    - cbn [map]. rewrite StepFacts.Rsum_cons, IH.
      change (List.length (c :: map (fun _ : PeerReport => c) l))
        with (S (List.length (map (fun _ : PeerReport => c) l))).
      rewrite S_INR. lra. }
  assert (Hmean : Rmean rs = c).
  { unfold Rmean. rewrite Hsum. field. lra. }
  assert (Hsq : Rsumsq c rs = 0).
  { unfold rs, Rsumsq. clear. induction survivors as [|r l IH].
    - reflexivity.
    - cbn [map]. rewrite StepFacts.Rsum_cons, IH. lra. }
  assert (Hm : computeMean scores = JS.Fin c).
  { rewrite Hscores, (StatFacts.computeMean_fin rs Hrs), Hmean. reflexivity. }
  assert (Hsd : computeStdDev scores (JS.Fin c) = 0).
  { rewrite Hscores, (StatFacts.computeStdDev_fin rs c Hrs), Hsq.
    unfold Rdiv. rewrite Rmult_0_l, sqrt_0. reflexivity. }
  split; [|split; [exact Hm | split; [exact Hsd|]]].
  - apply aggregateReports_untrimmed. cbv zeta. fold scores.
    rewrite Hm, Hsd.
    apply OutlierFacts.detectOutliers_zero_stdDev. exact Hthr.
  - unfold assessConsensus. rewrite Hscores at 1.
    rewrite (StatFacts.len_eq0_fin rs Hrs). cbv zeta. rewrite Hm, Hsd.
    unfold JS.gt, JS.ge. cbn [JS.lt JS.le].
    destruct (JS.Rleb 0.7 c) eqn:H7.
    + apply Rleb_spec in H7. rewrite Rltb_true by lra.
      rewrite StatFacts.div_fin by lra. cbn [JS.lt].
      unfold Rdiv. rewrite Rmult_0_l, Rltb_true by lra. reflexivity.
    + rewrite andb_false_r.
      destruct (JS.Rleb 0.5 c) eqn:H5.
      * apply Rleb_spec in H5. rewrite Rltb_true by lra.
        rewrite StatFacts.div_fin by lra. cbn [JS.lt].
        unfold Rdiv. rewrite Rmult_0_l, Rltb_true by lra. reflexivity.
      * rewrite andb_false_r. reflexivity.
Qed.

Lemma three_equal_scores (r : PeerReport) :
  In r three_equal_reports -> confidenceScore r = JS.Fin 0.5.
Proof.
  intros Hr. simpl in Hr.
  destruct Hr as [<- | [<- | [<- | []]]]; reflexivity.
Qed.

Lemma default_threshold_not_negative : (JS.Fin 2 <? 0)%js = false.
Proof. unfold JS.lt. apply Rltb_false. lra. Qed.

Section WithCrypto.

Variable crypto_verify : Uint8Array -> Uint8Array -> Uint8Array -> option bool.
Variable encodeReport : string -> number -> string -> Uint8Array.

(** X1.  Three values are too few for the z-score test at the default
    threshold: when at most three reports survive signature verification
    and the threshold is at least 2 (the default), [aggregate] excludes
    no report, whatever the scores are; the aggregated score is then the
    plain mean of all the surviving scores.  With the default [minPeers]
    of 3 this is the smallest population [aggregate] accepts. *)
Theorem few_reports_never_trimmed
  (reports : list PeerReport) (options : Options) (t : R) :
  let survivors :=
    if default (verifySignatures options) true
    then filter (signatureValid crypto_verify encodeReport) reports
    else reports in
  (JS.len reports <? default (minPeers options) 3)%js = false ->
  default (outlierThreshold options) 2 = JS.Fin t ->
  2 <= t ->
  (List.length survivors <= 3)%nat ->
  exists agg,
    aggregate crypto_verify encodeReport reports options = Ok agg
    /\ outlierCount agg = 0
    /\ reportCount agg = JS.len survivors
    /\ Forall (fun p => included p = true) (peerScores agg)
    /\ aggregatedScore agg = computeMean (map confidenceScore survivors).
Proof.
  intros survivors Hmin Hthr Ht Hn.
  rewrite AggregatorFacts.aggregate_unfold, Hmin, Hthr.
  fold survivors.
  rewrite aggregateReports_untrimmed.
  - eexists. split; [reflexivity|]. unfold untrimmed. cbv zeta.
    cbn [outlierCount reportCount peerScores aggregatedScore].
    repeat split.
    apply Forall_forall. intros p Hp. apply in_map_iff in Hp.
    destruct Hp as [r [<- _]]. reflexivity.
  - cbv zeta. apply SmallPopulationFacts.detectOutliers_small; [lra|].
    rewrite length_map.
    apply le_INR in Hn. change (INR 3) with (2 + 1) in Hn. nra.
Qed.

(** X3.  When one or two reports survive signature verification and
    they carry the same score [c] of [[0, 1]] (and the threshold is not
    negative), [aggregate] returns that score with a standard deviation
    of 0 and no outlier, and the consensus is ['high'] if [c >= 0.7],
    ['medium'] if [0.5 <= c < 0.7] and ['low'] otherwise. *)
Theorem unanimous_reports
  (reports : list PeerReport) (options : Options) (c : R) :
  let survivors :=
    if default (verifySignatures options) true
    then filter (signatureValid crypto_verify encodeReport) reports
    else reports in
  (JS.len reports <? default (minPeers options) 3)%js = false ->
  (default (outlierThreshold options) 2 <? 0)%js = false ->
  (1 <= List.length survivors <= 2)%nat ->
  0 <= c <= 1 ->
  (forall r, In r survivors -> confidenceScore r = JS.Fin c) ->
  exists agg,
    aggregate crypto_verify encodeReport reports options = Ok agg
    /\ aggregatedScore agg = JS.Fin c
    /\ standardDeviation agg = 0
    /\ outlierCount agg = 0
    /\ reportCount agg = JS.len survivors
    /\ consensusLevel agg
       = if JS.Rleb 0.7 c then high
         else if JS.Rleb 0.5 c then medium
         else low.
Proof.
  intros survivors Hmin Hthr Hlen _ Hall.
  assert (Hne : survivors <> []).
  { intros E. rewrite E in Hlen. simpl in Hlen. lia. }
  rewrite AggregatorFacts.aggregate_unfold, Hmin. fold survivors.
  destruct (aggregateReports_unanimous survivors _ c Hthr Hne Hall)
    as [Hagg [Hm [Hsd Hcons]]].
  rewrite Hagg. eexists. split; [reflexivity|].
  unfold untrimmed. cbv zeta.
  cbn [outlierCount reportCount standardDeviation aggregatedScore
       consensusLevel].
  rewrite Hm, Hsd, Hcons. repeat split.
Qed.

End WithCrypto.

Lemma few_reports_never_trimmed_witness :
  exists agg,
    aggregate (fun _ _ _ => Some true) (fun _ _ _ => []) three_spread_reports
      {| outlierThreshold := None;
         minPeers := None;
         verifySignatures := Some false |} = Ok agg
    /\ outlierCount agg = 0
    /\ reportCount agg = JS.len three_spread_reports
    /\ Forall (fun p => included p = true) (peerScores agg)
    /\ aggregatedScore agg
       = computeMean (map confidenceScore three_spread_reports).
Proof.
  apply (few_reports_never_trimmed (fun _ _ _ => Some true) (fun _ _ _ => [])
           three_spread_reports
           {| outlierThreshold := None;
              minPeers := None;
              verifySignatures := Some false |} 2).
  - unfold JS.len, JS.lt. cbn [default minPeers].
    apply Rltb_false. simpl. lra.
  - reflexivity.
  - lra.
  - simpl. lia.
Defined.

Lemma unanimous_reports_witness :
  exists agg,
    aggregate (fun _ _ _ => Some true) (fun _ _ _ => []) two_equal_reports
      {| outlierThreshold := None;
         minPeers := Some (JS.Fin 2);
         verifySignatures := Some false |} = Ok agg
    /\ aggregatedScore agg = JS.Fin 0.75
    /\ standardDeviation agg = 0
    /\ outlierCount agg = 0
    /\ reportCount agg = JS.len two_equal_reports
    /\ consensusLevel agg
       = if JS.Rleb 0.7 0.75 then high
         else if JS.Rleb 0.5 0.75 then medium
         else low.
Proof.
  apply (unanimous_reports (fun _ _ _ => Some true) (fun _ _ _ => [])
           two_equal_reports
           {| outlierThreshold := None;
              minPeers := Some (JS.Fin 2);
              verifySignatures := Some false |} 0.75).
  - unfold JS.len, JS.lt. cbn [default minPeers].
    apply Rltb_false. simpl. lra.
  - exact default_threshold_not_negative.
  - simpl. lia.
  - lra.
  - intros r Hr. simpl in Hr. destruct Hr as [<- | [<- | []]]; reflexivity.
Defined.

End UntrimmedFacts.

(** ** The spread of scores of the unit interval *)

Module SpreadFacts.

Import ConfidenceAggregator.



Section WithCrypto.

Variable crypto_verify : Uint8Array -> Uint8Array -> Uint8Array -> option bool.
Variable encodeReport : string -> number -> string -> Uint8Array.


End WithCrypto.


End SpreadFacts.

(** ** Aggregations under the tamper analysis *)

Module RiskFacts.

Import ConfidenceAggregator TamperDetectionAnalyzer.

Lemma ge_half (a : number) :
  (a >=? 0.7)%js = true -> (a >=? 0.5)%js = true.
Proof.
  unfold JS.ge. destruct a; cbn [JS.le]; try discriminate; try reflexivity.
  intros H. apply Rleb_spec in H. apply Rleb_true. lra.
Qed.

Lemma assessConsensus_not_low (scores : list number) (a : number) :
  assessConsensus scores a <> low -> (a >=? 0.5)%js = true.
Proof.
  unfold assessConsensus. destruct (JS.len scores === 0)%js; [congruence|].
  cbv zeta.
  destruct (a >=? 0.7)%js eqn:H7.
  - intros _. apply ge_half. exact H7.
  - rewrite andb_false_r. destruct (a >=? 0.5)%js; [reflexivity|].
    rewrite andb_false_r. congruence.
Qed.

Lemma not_very_low (a : number) :
  (a >=? 0.5)%js = true -> (a <? 0.3)%js = false.
Proof.
  unfold JS.ge. destruct a; cbn [JS.le JS.lt]; try discriminate; try reflexivity.
  intros H. apply Rleb_spec in H. apply Rltb_false. lra.
Qed.

Section WithFormat.

Variable percent : number -> string.
Variable crypto_verify : Uint8Array -> Uint8Array -> Uint8Array -> option bool.
Variable encodeReport : string -> number -> string -> Uint8Array.

(** X8.  An aggregation that [aggregate] returns with a consensus other
    than ['low'] has an aggregated score of at least 0.5, so
    [analyzeTampering] finds at most two indicators in it (outlier ratio
    and variance) and never rates it ['high']. *)
Theorem consensus_limits_risk
  (reports : list PeerReport) (options : Options) (agg : ConfidenceAggregation) :
  aggregate crypto_verify encodeReport reports options = Ok agg ->
  consensusLevel agg <> low ->
  (aggregatedScore agg >=? 0.5)%js = true
  /\ (List.length (indicators (analyzeTampering percent agg)) <= 2)%nat
  /\ riskLevel (analyzeTampering percent agg) <> high.
Proof.
  intros Hagg Hcons.
  apply CountFacts.aggregate_ok in Hagg. destruct Hagg as [_ Hagg].
  assert (Hscore : (aggregatedScore agg >=? 0.5)%js = true).
  { rewrite Hagg in Hcons |- *. unfold aggregateReports in Hcons |- *.
    cbv zeta in Hcons |- *. cbn [consensusLevel aggregatedScore] in Hcons |- *.
    exact (assessConsensus_not_low _ _ Hcons). }
  clear Hagg. split; [exact Hscore|].
  pose proof (TamperFacts.indicators_length percent agg) as Hlen.
  assert (Hcount : (indicator_count agg <= 2)%nat).
  { unfold indicator_count, indicator_conditions.
    rewrite (not_very_low _ Hscore).
    destruct (consensusLevel agg); try congruence;
      destruct (_ >? _)%js; destruct (_ >? _)%js; cbn; lia. }
  split; [lia|].
  unfold analyzeTampering in Hlen |- *. cbv zeta in Hlen |- *.
  cbn [indicators riskLevel] in Hlen |- *. rewrite Hlen.
  destruct (indicator_count agg) as [|[|[|k]]]; cbn; try congruence. lia.
Qed.

(** X7.  When signature verification rejects every report, the
    aggregation that [aggregate] returns (it raises nothing) is read by
    [analyzeTampering] as likely tampering of ['medium'] risk, with the
    two indicators 'Very low confidence score' and 'Low peer
    consensus'. *)
Theorem rejected_signatures_look_tampered
  (reports : list PeerReport) (options : Options) :
  (JS.len reports <? default (minPeers options) 3)%js = false ->
  default (verifySignatures options) true = true ->
  (forall r, In r reports ->
             signatureValid crypto_verify encodeReport r = false) ->
  exists agg,
    aggregate crypto_verify encodeReport reports options = Ok agg
    /\ analyzeTampering percent agg
       = {| tamperingLikely := true;
            indicators := ["Very low confidence score"; "Low peer consensus"]%string;
            riskLevel := medium |}.
Proof.
  intros Hmin Hverify Hbad.
  rewrite AggregatorFacts.aggregate_unfold, Hmin, Hverify.
  rewrite (AggregatorFacts.filter_none _ _ reports Hbad).
  rewrite AggregatorFacts.aggregateReports_nil.
  eexists. split; [reflexivity|].
  unfold analyzeTampering. cbv zeta.
  cbn [aggregatedScore consensusLevel outlierCount reportCount standardDeviation].
  replace (0 <? 0.3)%js with true
    by (symmetry; unfold JS.lt; apply Rltb_true; lra).
  replace (0 / (0 + 0) >? 0.3)%js with false.
  2:{ symmetry. cbn [JS.add]. unfold JS.div.
      rewrite !Reqb_true by lra. reflexivity. }
  replace (0 >? 0.3)%js with false
    by (symmetry; unfold JS.gt, JS.lt; apply Rltb_false; lra).
  reflexivity.
Qed.

End WithFormat.

Lemma three_equal_consensus :
  consensusLevel (aggregateReports three_equal_reports 2) = medium.
Proof.
  destruct (UntrimmedFacts.aggregateReports_unanimous three_equal_reports 2 0.5
              UntrimmedFacts.default_threshold_not_negative
              ltac:(discriminate) UntrimmedFacts.three_equal_scores)
    as [Hagg [Hm [_ Hcons]]].
  rewrite Hagg. unfold untrimmed. cbv zeta. cbn [consensusLevel].
  rewrite Hm, Hcons.
  rewrite Rleb_false by lra. rewrite Rleb_true by lra. reflexivity.
Qed.

Lemma consensus_limits_risk_witness :
  let agg := aggregateReports three_equal_reports 2 in
  consensusLevel agg = medium
  /\ (aggregatedScore agg >=? 0.5)%js = true
  /\ (List.length (indicators (analyzeTampering (fun _ => "x"%string) agg)) <= 2)%nat
  /\ riskLevel (analyzeTampering (fun _ => "x"%string) agg) <> high.
Proof.
  split; [exact three_equal_consensus|].
  apply (consensus_limits_risk (fun _ => "x"%string)
           (fun _ _ _ => Some true) (fun _ _ _ => [])
           three_equal_reports
           {| outlierThreshold := None;
              minPeers := None;
              verifySignatures := Some false |}).
  - rewrite AggregatorFacts.aggregate_unfold.
    cbn [default minPeers verifySignatures outlierThreshold].
    rewrite AggregationFacts.three_not_insufficient. reflexivity.
  - rewrite three_equal_consensus. discriminate.
Defined.

Lemma rejected_signatures_look_tampered_witness :
  exists agg,
    aggregate verify_by_signature encode_nothing
      three_reports_none_valid no_options = Ok agg
    /\ analyzeTampering (fun _ => "x"%string) agg
       = {| tamperingLikely := true;
            indicators := ["Very low confidence score"; "Low peer consensus"]%string;
            riskLevel := medium |}.
Proof.
  apply (rejected_signatures_look_tampered (fun _ => "x"%string)
           verify_by_signature encode_nothing
           three_reports_none_valid no_options).
  - unfold JS.len, JS.lt. cbn [default minPeers no_options].
    apply Rltb_false. simpl. lra.
  - reflexivity.
  - intros r Hr. simpl in Hr.
    destruct Hr as [<- | [<- | [<- | []]]]; reflexivity.
Defined.

End RiskFacts.

(** ** [PeerReportValidator] *)

Module ValidatorFacts.

Import PeerReportValidator.

Lemma is_empty_spec (s : string) : is_empty s = false <-> s <> ""%string.
Proof. destruct s; simpl; split; congruence. Qed.

Lemma len_zero_spec (A : Type) (l : list A) :
  (JS.len l === 0)%js = false <-> l <> [].
Proof.
  destruct l.
  - rewrite len_nil. split; congruence.
  - rewrite len_cons. split; congruence.
Qed.

(** A score passes the range test when it is [NaN] or lies in [[0, 1]]. *)
Lemma score_test (x : number) :
  (x <? 0)%js || (x >? 1)%js = false <-> x = JS.NaN \/ in_unit x = true.
Proof.
  unfold in_unit, JS.gt. destruct x as [a| | |]; cbn [JS.lt JS.le].
  - rewrite orb_false_iff, andb_true_iff, !Rleb_spec.
    split.
    + intros [H1 H2]. right. split.
      * destruct (Rle_dec 0 a); [assumption|].
        rewrite Rltb_true in H1 by lra. discriminate.
      * destruct (Rle_dec a 1); [assumption|].
        rewrite Rltb_true in H2 by lra. discriminate.
    + intros [H | [H1 H2]]; [discriminate|].
      split; apply Rltb_false; lra.
  - split; [discriminate | intros [H | H]; discriminate].
  - split; [discriminate | intros [H | H]; discriminate].
  - split; [left; reflexivity | reflexivity].
Qed.

Section WithFormat.

Variable numberToString : number -> string.

Lemma valid_iff (report : PeerReport) :
  valid (validateReport numberToString report) = true
  <-> id report <> ""%string
      /\ mediaItemId report <> ""%string
      /\ peerEphemeralId report <> ""%string
      /\ signature report <> []
      /\ ephemeralPubKey report <> []
      /\ timestamp report <> ""%string
      /\ (confidenceScore report = JS.NaN
          \/ in_unit (confidenceScore report) = true).
Proof.
  rewrite <- !is_empty_spec, <- !len_zero_spec, <- score_test.
  unfold validateReport. cbv zeta. cbn [valid].
  assert (Hprox : includes ["near"; "medium"; "far"]%string
                    (proximityName (proximityLevel report)) = true)
    by (destruct (proximityLevel report); reflexivity).
  rewrite Hprox. cbn [negb].
  destruct (is_empty (id report));
    destruct (is_empty (mediaItemId report));
    destruct (is_empty (peerEphemeralId report));
    destruct (JS.len (signature report) === 0)%js;
    destruct (JS.len (ephemeralPubKey report) === 0)%js;
    destruct (is_empty (timestamp report));
    destruct ((confidenceScore report <? 0)%js || (confidenceScore report >? 1)%js);
    cbn; intuition congruence.
Qed.

Lemma validateReports_filter (reports : list PeerReport) :
  validateReports numberToString reports
  = filter (fun r => valid (validateReport numberToString r)) reports.
Proof.
  induction reports as [|r reports IH]; [reflexivity|].
  cbn [validateReports filter]. rewrite IH. reflexivity.
Qed.

(** X4.  [validateReports] returns, in their order, exactly the reports
    whose id, media item id, peer id, signature, public key and timestamp
    are all non-empty and whose score is in [[0, 1]] or is [NaN] (which
    the range test lets through); the proximity level never matters.
    Validating twice changes nothing. *)
Theorem validateReports_keeps (reports : list PeerReport) :
  (forall r,
      In r (validateReports numberToString reports)
      <-> In r reports
          /\ id r <> ""%string
          /\ mediaItemId r <> ""%string
          /\ peerEphemeralId r <> ""%string
          /\ signature r <> []
          /\ ephemeralPubKey r <> []
          /\ timestamp r <> ""%string
          /\ (confidenceScore r = JS.NaN \/ in_unit (confidenceScore r) = true))
  /\ (forall more,
         validateReports numberToString (reports ++ more)
         = validateReports numberToString reports
           ++ validateReports numberToString more)
  /\ validateReports numberToString (validateReports numberToString reports)
     = validateReports numberToString reports.
Proof.
  split; [|split].
  - intros r. rewrite validateReports_filter, filter_In, valid_iff.
    reflexivity.
  - intros more. rewrite !validateReports_filter. apply filter_app.
  - rewrite !validateReports_filter.
    induction reports as [|r reports IH]; [reflexivity|].
    cbn [filter].
    destruct (valid (validateReport numberToString r)) eqn:Hr.
    + cbn [filter]. rewrite Hr, IH. reflexivity.
    + exact IH.
Qed.

End WithFormat.

End ValidatorFacts.

(** ** The reports a peer answers with *)

Module ResponderFacts.

Import FingerprintCoordinator PeerReportValidator.

Section WithEnvironment.

Variable extractorCallback : string -> result (option Float32Array).
Variable random : nat -> number.
Variable base36 : number -> string.
Variable now : string.
Variable numberToString : number -> string.

Lemma push_if_keeps (c : bool) (msg x : string) (l : list string) :
  In x l -> In x (TamperDetectionAnalyzer.push_if c msg l).
Proof.
  intros H. unfold TamperDetectionAnalyzer.push_if. destruct c; [|exact H].
  apply in_or_app. left. exact H.
Qed.

Lemma push_if_true (msg : string) (l : list string) :
  In msg (TamperDetectionAnalyzer.push_if true msg l).
Proof. apply in_or_app. right. left. reflexivity. Qed.

Lemma handleFingerprintRequest_ok (request : FingerprintRequest)
  (response : FingerprintResponse) :
  handleFingerprintRequest extractorCallback random base36 now request
  = Ok response ->
  response =
  {| resp_mediaItemId := req_mediaItemId request;
     resp_confidenceScore := (random 0%nat * 0.5 + 0.5)%js;
     signedReport :=
       {| id := "report-" ++ base36 (random 1%nat);
          mediaItemId := req_mediaItemId request;
          peerEphemeralId := "peer-eph-" ++ base36 (random 2%nat);
          confidenceScore := (random 0%nat * 0.5 + 0.5)%js;
          signature := [];
          ephemeralPubKey := [];
          timestamp := now;
          peerAddress := "unknown";
          proximityLevel := near |} |}.
Proof.
  unfold handleFingerprintRequest. cbv zeta.
  destruct (extractorCallback (fingerprintHash request)) as [[fp|]|e];
    cbn [bind]; try discriminate.
  intros H. injection H as <-. reflexivity.
Qed.

(** X5.  Whenever [handleFingerprintRequest] answers, the report in the
    answer carries the media item id of the request and the score of the
    response, but an empty signature and an empty public key:
    [validateReport] rejects it, with the errors 'Missing signature' and
    'Missing public key'.  When [Math.random()] is in [[0, 1)] the score
    lies in [[0.5, 1]]. *)
Theorem answered_report_is_unsigned (request : FingerprintRequest)
  (response : FingerprintResponse) :
  handleFingerprintRequest extractorCallback random base36 now request
  = Ok response ->
  let report := signedReport response in
  resp_mediaItemId response = req_mediaItemId request
  /\ mediaItemId report = req_mediaItemId request
  /\ confidenceScore report = resp_confidenceScore response
  /\ valid (validateReport numberToString report) = false
  /\ In "Missing signature"%string (errors (validateReport numberToString report))
  /\ In "Missing public key"%string (errors (validateReport numberToString report))
  /\ validateReports numberToString [report] = []
  /\ (forall u, random 0%nat = JS.Fin u -> 0 <= u < 1 ->
        exists s, resp_confidenceScore response = JS.Fin s /\ 0.5 <= s <= 1).
Proof.
  intros H report. apply handleFingerprintRequest_ok in H.
  assert (Hsig : signature report = []) by (subst response; reflexivity).
  assert (Hkey : ephemeralPubKey report = []) by (subst response; reflexivity).
  assert (Hinvalid : valid (validateReport numberToString report) = false).
  { destruct (valid (validateReport numberToString report)) eqn:Hv; [|reflexivity].
    apply ValidatorFacts.valid_iff in Hv. tauto. }
  split; [subst response; reflexivity|].
  split; [subst response; reflexivity|].
  split; [subst response; reflexivity|].
  split; [exact Hinvalid|].
  split; [|split; [|split]].
  - unfold validateReport. cbv zeta. cbn [errors].
    rewrite Hsig, !len_nil.
    do 4 apply push_if_keeps. apply push_if_true.
  - unfold validateReport. cbv zeta. cbn [errors].
    rewrite Hkey, !len_nil.
    do 3 apply push_if_keeps. apply push_if_true.
  - cbn [validateReports]. rewrite Hinvalid. reflexivity.
  - intros u Hu Hrange. subst response. cbn [resp_confidenceScore].
    rewrite Hu. cbn [JS.mul JS.add]. eexists. split; [reflexivity|]. lra.
Qed.

End WithEnvironment.

Lemma answered_report_is_unsigned_witness :
  let response :=
    {| resp_mediaItemId := "media-1";
       resp_confidenceScore := (JS.Fin 0 * 0.5 + 0.5)%js;
       signedReport :=
         {| id := "report-x";
            mediaItemId := "media-1";
            peerEphemeralId := "peer-eph-x";
            confidenceScore := (JS.Fin 0 * 0.5 + 0.5)%js;
            signature := [];
            ephemeralPubKey := [];
            timestamp := "now";
            peerAddress := "unknown";
            proximityLevel := near |} |} in
  valid (validateReport (fun _ => "n"%string) (signedReport response)) = false
  /\ exists s, resp_confidenceScore response = JS.Fin s /\ 0.5 <= s <= 1.
Proof.
  intros response.
  destruct (answered_report_is_unsigned
              (fun _ => Ok (Some [])) (fun _ => 0) (fun _ => "x"%string) "now"
              (fun _ => "n"%string) sample_request response eq_refl)
    as [_ [_ [_ [Hv [_ [_ [_ Hscore]]]]]]].
  split; [exact Hv|].
  apply (Hscore 0); [reflexivity | lra].
Defined.

End ResponderFacts.

(** ** Aggregation with the crypto manager of the repository *)

Module RepositoryCryptoFacts.

Import ConfidenceAggregator.

Lemma filter_all (A : Type) (p : A -> bool) (l : list A) :
  (forall x, In x l -> p x = true) -> filter p l = l.
Proof.
  induction l as [|x l IH]; intros H; [reflexivity|].
  cbn [filter]. rewrite (H x (or_introl eq_refl)), IH; [reflexivity|].
  intros y Hy. apply H. right. exact Hy.
Qed.

(** X6.  [PQCryptoManager.verify] accepts every signature once the manager
    is initialised and throws before: with an initialised manager
    [aggregate] gives the result it gives with [verifySignatures: false];
    with a manager that was not initialised it drops every report and
    returns the aggregation of no report (score 0, consensus ['low'])
    without raising. *)
Theorem aggregate_with_repository_crypto
  (encodeReport : string -> number -> string -> Uint8Array)
  (reports : list PeerReport) (options : Options) :
  aggregate (PQCryptoManager.verify true) encodeReport reports options
  = aggregate (PQCryptoManager.verify true) encodeReport reports
      {| outlierThreshold := outlierThreshold options;
         minPeers := minPeers options;
         verifySignatures := Some false |}
  /\ ((JS.len reports <? default (minPeers options) 3)%js = false ->
      default (verifySignatures options) true = true ->
      aggregate (PQCryptoManager.verify false) encodeReport reports options
      = Ok empty_aggregation).
Proof.
  split.
  - rewrite !AggregatorFacts.aggregate_unfold.
    cbn [default minPeers verifySignatures outlierThreshold].
    rewrite filter_all by reflexivity.
    destruct (default (verifySignatures options) true); reflexivity.
  - intros Hmin Hverify.
    rewrite AggregatorFacts.aggregate_unfold, Hmin, Hverify.
    rewrite AggregatorFacts.filter_none by reflexivity.
    rewrite AggregatorFacts.aggregateReports_nil. reflexivity.
Qed.

Lemma aggregate_with_repository_crypto_witness :
  aggregate (PQCryptoManager.verify false) encode_nothing
    three_equal_reports no_options
  = Ok empty_aggregation.
Proof.
  apply (aggregate_with_repository_crypto encode_nothing
           three_equal_reports no_options).
  - exact AggregationFacts.three_not_insufficient.
  - reflexivity.
Defined.

End RepositoryCryptoFacts.

(** ** The search of [crossCorrelate] *)

Module SearchFacts.

Import MainsHumExtractor.

Lemma fold_left_invariant {A B : Type} (P : A -> Prop) (f : A -> B -> A)
  (l : list B) (a : A) :
  P a -> (forall a x, In x l -> P a -> P (f a x)) -> P (fold_left f l a).
Proof.
  revert a. induction l as [|x l IH]; intros a Ha Hstep; [exact Ha|].
  cbn [fold_left]. apply IH.
  - apply Hstep; [left; reflexivity | exact Ha].
  - intros a' y Hy. apply Hstep. right. exact Hy.
Qed.

Lemma js_lt_trans (x y z : number) :
  (x <? y)%js = true -> (y <? z)%js = true -> (x <? z)%js = true.
Proof.
  destruct x, y, z; cbn [JS.lt]; try discriminate; try reflexivity.
  rewrite !Rltb_spec. lra.
Qed.

Lemma in_offsets (maxOffset : nat) (o : Z) :
  In o (offsets maxOffset)
  <-> (- Z.of_nat maxOffset <= o <= Z.of_nat maxOffset)%Z.
Proof.
  unfold offsets. rewrite in_map_iff. split.
  - intros [k [<- Hk]]. apply in_seq in Hk. lia.
  - intros Ho. exists (Z.to_nat (o + Z.of_nat maxOffset)). split; [lia|].
    apply in_seq. lia.
Qed.

Lemma crossCorrelate_fold (vector1 vector2 : Float32Array) :
  crossCorrelate vector1 vector2
  = fold_left
      (search_step
         (correlationAt vector1 vector2
            (Nat.min (List.length vector1) (List.length vector2))))
      (offsets (Nat.min (List.length vector1) (List.length vector2) / 2))
      (JS.NInf, 0%Z).
Proof.
  unfold crossCorrelate. cbv zeta. apply CompareFacts.fold_left_ext.
  intros [m b] o. reflexivity.
Qed.

(** The state of the search after the offsets of [seen]: the best offset
    is 0 with a correlation of [-Infinity] (nothing exceeded it) or is an
    offset of [seen] with its correlation, and no correlation of [seen]
    exceeds the best one. *)
Lemma search_state (corr : Z -> number) (l : list Z) :
  let st := fold_left (search_step corr) l (JS.NInf, 0%Z) in
  ((fst st = JS.NInf /\ snd st = 0%Z)
   \/ (In (snd st) l /\ fst st = corr (snd st)))
  /\ forall o, In o l -> (corr o >? fst st)%js = false.
Proof.
  cbv zeta. rewrite <- (rev_involutive l).
  induction (rev l) as [|o l' IH]; clear l.
  - cbn. split; [left; split; reflexivity | intros o []].
  - cbn [rev]. rewrite fold_left_app. cbn [fold_left].
    set (st := fold_left (search_step corr) (rev l') (JS.NInf, 0%Z)) in *.
    destruct IH as [Hbest Hmax]. destruct st as [m b]. cbn [fst snd] in *.
    unfold search_step. destruct (corr o >? m)%js eqn:Hgt; cbn [fst snd].
    + split.
      * right. split; [apply in_or_app; right; left; reflexivity | reflexivity].
      * intros o' Ho'. apply in_app_or in Ho'.
        destruct Ho' as [Ho' | [<- | []]].
        -- destruct (corr o' >? corr o)%js eqn:H'; [|reflexivity].
           specialize (Hmax o' Ho'). unfold JS.gt in *.
           rewrite (js_lt_trans _ _ _ Hgt H') in Hmax. discriminate.
        -- unfold JS.gt. destruct (corr o); cbn [JS.lt]; try reflexivity.
           apply Rltb_false. lra.
    + split.
      * destruct Hbest as [Hbest | [Hin Hbest]]; [left; exact Hbest|].
        right. split; [apply in_or_app; left; exact Hin | exact Hbest].
      * intros o' Ho'. apply in_app_or in Ho'.
        destruct Ho' as [Ho' | [<- | []]]; [apply Hmax; exact Ho' | exact Hgt].
Qed.

(** X10.  [crossCorrelate] returns an offset within
    [-maxOffset .. maxOffset], where [maxOffset] is half the shorter
    length (rounded down), together with the correlation at that
    offset, and no offset of the range has a larger correlation; when no
    correlation compares above [-Infinity] (vectors of [NaN]) it returns
    [-Infinity] and offset 0. *)
Theorem crossCorrelate_maximal (vector1 vector2 : Float32Array) :
  let minLength := Nat.min (List.length vector1) (List.length vector2) in
  let maxOffset := Z.of_nat (minLength / 2) in
  let corr := correlationAt vector1 vector2 minLength in
  let '(maxCorrelation, bestOffset) := crossCorrelate vector1 vector2 in
  (- maxOffset <= bestOffset <= maxOffset)%Z
  /\ (maxCorrelation = corr bestOffset
      \/ (maxCorrelation = JS.NInf /\ bestOffset = 0%Z))
  /\ forall o, (- maxOffset <= o <= maxOffset)%Z ->
               (corr o >? maxCorrelation)%js = false.
Proof.
  cbv zeta. rewrite crossCorrelate_fold.
  pose proof (search_state
                (correlationAt vector1 vector2
                   (Nat.min (List.length vector1) (List.length vector2)))
                (offsets (Nat.min (List.length vector1) (List.length vector2) / 2)))
    as H.
  cbv zeta in H.
  destruct (fold_left _ _ _) as [m b]. cbn [fst snd] in H.
  destruct H as [Hbest Hmax]. split; [|split].
  - destruct Hbest as [[_ ->] | [Hin _]]; [lia|].
    apply in_offsets. exact Hin.
  - destruct Hbest as [[-> ->] | [_ ->]]; [right; split; reflexivity|].
    left. reflexivity.
  - intros o Ho. apply Hmax. apply in_offsets. exact Ho.
Qed.

End SearchFacts.

(** ** The range of the similarity *)

Module SimilarityFacts.

Import MainsHumExtractor.

Lemma unit_nth (rs : list R) (i : nat) :
  Forall (fun r => 0 <= r <= 1) rs -> (i < List.length rs)%nat ->
  0 <= nth i rs 0 <= 1.
Proof.
  intros Hall Hi. rewrite Forall_forall in Hall. apply Hall, nth_In, Hi.
Qed.

(** The loop of [correlationAt] on vectors of [[0, 1]]: the sum stays
    between 0 and the count. *)
Lemma correlationAt_unit (rs1 rs2 : list R) (minLength : nat) (offset : Z) :
  Forall (fun r => 0 <= r <= 1) rs1 ->
  Forall (fun r => 0 <= r <= 1) rs2 ->
  (minLength <= List.length rs1)%nat ->
  exists c,
    correlationAt (map JS.Fin rs1) (map JS.Fin rs2) minLength offset = JS.Fin c
    /\ 0 <= c <= 1.
Proof.
  intros H1 H2 Hlen. unfold correlationAt.
  match goal with
  | |- context [fold_left ?f _ _] => set (step := f)
  end.
  assert (Hinv : exists s count,
             fold_left step (seq 0 minLength) (JS.Fin 0, 0%nat)
             = (JS.Fin s, count)
             /\ 0 <= s <= INR count).
  { apply (SearchFacts.fold_left_invariant
             (fun st => exists s count,
                  st = (JS.Fin s, count) /\ 0 <= s <= INR count)).
    - exists 0, 0%nat. split; [reflexivity | simpl; lra].
    - intros st i Hi [s [count [-> Hs]]]. apply in_seq in Hi.
      unfold step. rewrite length_map.
      destruct ((0 <=? Z.of_nat i + offset)%Z
                && (Z.of_nat i + offset <? Z.of_nat (List.length rs2))%Z) eqn:Hj.
      + apply andb_true_iff in Hj. destruct Hj as [Hj1 Hj2].
        apply Z.leb_le in Hj1. apply Z.ltb_lt in Hj2.
        rewrite CompareFacts.getN_fin by lia.
        rewrite CompareFacts.getZ_fin by lia.
        cbn [JS.mul JS.add]. eexists _, _. split; [reflexivity|].
        pose proof (unit_nth rs1 i H1 ltac:(lia)) as Ha.
        pose proof (unit_nth rs2 (Z.to_nat (Z.of_nat i + offset)) H2 ltac:(lia))
          as Hb.
        rewrite S_INR. nra.
      + exists s, count. split; [reflexivity | exact Hs]. }
  destruct Hinv as [s [count [-> Hs]]].
  destruct (0 <? count)%nat eqn:Hc.
  - apply Nat.ltb_lt in Hc.
    assert (Hpos : 0 < INR count) by (apply lt_0_INR; exact Hc).
    rewrite StatFacts.div_fin by lra.
    eexists. split; [reflexivity|]. split.
    + apply Rmult_le_pos; [lra | left; apply Rinv_0_lt_compat; exact Hpos].
    + apply (Rmult_le_reg_r (INR count)); [exact Hpos|].
      unfold Rdiv. rewrite Rmult_assoc, Rinv_l by lra. lra.
  - exists 0. split; [reflexivity | lra].
Qed.

(** [alignVectors] on a finite vector. *)
Lemma alignVectors_fin (rs : list R) (offset : Z) :
  exists rs',
    alignVectors (map JS.Fin rs) offset = map JS.Fin rs'
    /\ List.length rs' = List.length rs
    /\ (forall a b, (forall r, In r rs -> a <= r <= b) -> a <= 0 <= b ->
                    forall r, In r rs' -> a <= r <= b).
Proof.
  exists (map (fun i =>
                 let j := (Z.of_nat i + offset)%Z in
                 if (0 <=? j)%Z && (j <? Z.of_nat (List.length rs))%Z
                 then nth (Z.to_nat j) rs 0 else 0)
              (seq 0 (List.length rs))).
  split; [|split].
  - unfold alignVectors. rewrite map_map, length_map.
    apply map_ext_in. intros i Hi. cbv zeta.
    destruct ((0 <=? Z.of_nat i + offset)%Z
              && (Z.of_nat i + offset <? Z.of_nat (List.length rs))%Z) eqn:Hj;
      [|reflexivity].
    apply andb_true_iff in Hj. destruct Hj as [Hj1 Hj2].
    apply Z.leb_le in Hj1. apply Z.ltb_lt in Hj2.
    apply CompareFacts.getZ_fin. lia.
  - rewrite length_map, length_seq. reflexivity.
  - intros a b Hrs H0 r Hr. apply in_map_iff in Hr.
    destruct Hr as [i [<- Hi]]. cbv zeta.
    destruct ((0 <=? Z.of_nat i + offset)%Z
              && (Z.of_nat i + offset <? Z.of_nat (List.length rs))%Z) eqn:Hj;
      [|exact H0].
    apply andb_true_iff in Hj. destruct Hj as [Hj1 Hj2].
    apply Z.leb_le in Hj1. apply Z.ltb_lt in Hj2.
    apply Hrs, nth_In. lia.
Qed.

(** The loop of [cosineSimilarity] on finite vectors keeps the
    Cauchy-Schwarz inequality between the dot product and the norms. *)
Lemma cosine_step (d n1 n2 a b : R) :
  0 <= n1 -> 0 <= n2 -> d * d <= n1 * n2 ->
  (d + a * b) * (d + a * b) <= (n1 + a * a) * (n2 + b * b).
Proof.
  intros H1 H2 Hd.
  assert (Hab : 2 * (d * (a * b)) <= n1 * (b * b) + n2 * (a * a)).
  { assert (Hpos : 0 <= n1 * (b * b) + n2 * (a * a)).
    { pose proof (Rle_0_sqr a) as Ha. pose proof (Rle_0_sqr b) as Hb.
      unfold Rsqr in *.
      pose proof (Rmult_le_pos _ _ H1 Hb). pose proof (Rmult_le_pos _ _ H2 Ha).
      lra. }
    destruct (Rle_dec (2 * (d * (a * b))) 0) as [Hneg | Hneg]; [lra|].
    apply Rnot_le_lt in Hneg.
    set (x := 2 * (d * (a * b))) in *.
    set (y := n1 * (b * b) + n2 * (a * a)) in *.
    assert (Hxy : x * x <= y * y).
    { unfold x, y.
      pose proof (Rle_0_sqr (n1 * (b * b) - n2 * (a * a))) as Hs.
      unfold Rsqr in Hs.
      assert (Hprod : (d * d) * ((a * a) * (b * b))
                      <= (n1 * n2) * ((a * a) * (b * b))).
      { apply Rmult_le_compat_r; [|exact Hd].
        pose proof (Rle_0_sqr a) as Ha. pose proof (Rle_0_sqr b) as Hb.
        unfold Rsqr in *. apply Rmult_le_pos; assumption. }
      nra. }
    destruct (Rle_dec x y) as [Hle | Hgt]; [exact Hle|].
    apply Rnot_le_lt in Hgt. exfalso.
    assert (y * y < x * x) by nra. lra. }
  nra.
Qed.

Lemma cosineSimilarity_fin (rs1 rs2 : list R) :
  exists c,
    cosineSimilarity (map JS.Fin rs1) (map JS.Fin rs2) = JS.Fin c
    /\ -1 <= c <= 1
    /\ ((forall r, In r rs1 -> 0 <= r) -> (forall r, In r rs2 -> 0 <= r) ->
        0 <= c).
Proof.
  unfold cosineSimilarity. cbv zeta. rewrite !length_map.
  set (minLength := Nat.min (List.length rs1) (List.length rs2)).
  match goal with
  | |- context [fold_left ?f _ _] => set (step := f)
  end.
  assert (Hinv : exists d n1 n2,
             fold_left step (seq 0 minLength) (JS.Fin 0, JS.Fin 0, JS.Fin 0)
             = (JS.Fin d, JS.Fin n1, JS.Fin n2)
             /\ 0 <= n1 /\ 0 <= n2 /\ d * d <= n1 * n2
             /\ ((forall r, In r rs1 -> 0 <= r) ->
                 (forall r, In r rs2 -> 0 <= r) -> 0 <= d)).
  { apply (SearchFacts.fold_left_invariant
             (fun st => exists d n1 n2,
                  st = (JS.Fin d, JS.Fin n1, JS.Fin n2)
                  /\ 0 <= n1 /\ 0 <= n2 /\ d * d <= n1 * n2
                  /\ ((forall r, In r rs1 -> 0 <= r) ->
                      (forall r, In r rs2 -> 0 <= r) -> 0 <= d))).
    - exists 0, 0, 0. repeat split; intros; lra.
    - intros st i Hi [d [n1 [n2 [-> [H1 [H2 [Hd Hsign]]]]]]].
      apply in_seq in Hi. unfold step.
      assert (Hi1 : (i < List.length rs1)%nat) by (unfold minLength in Hi; lia).
      assert (Hi2 : (i < List.length rs2)%nat) by (unfold minLength in Hi; lia).
      rewrite !CompareFacts.getN_fin by assumption.
      cbn [JS.mul JS.add JS.sq].
      set (a := nth i rs1 0). set (b := nth i rs2 0).
      eexists _, _, _. split; [reflexivity|].
      pose proof (Rle_0_sqr a) as Ha. pose proof (Rle_0_sqr b) as Hb.
      unfold Rsqr in *.
      split; [lra|]. split; [lra|]. split.
      + apply cosine_step; assumption.
      + intros Hp1 Hp2.
        pose proof (Hsign Hp1 Hp2).
        pose proof (Hp1 a (nth_In _ _ Hi1)).
        pose proof (Hp2 b (nth_In _ _ Hi2)).
        pose proof (Rmult_le_pos a b). lra. }
  destruct Hinv as [d [n1 [n2 [-> [H1 [H2 [Hd Hsign]]]]]]].
  cbn [JS.mul]. unfold JS.sqrt.
  pose proof (Rmult_le_pos _ _ H1 H2) as H12.
  rewrite Rltb_false by lra.
  unfold JS.gt. cbn [JS.lt].
  destruct (JS.Rltb 0 (sqrt (n1 * n2))) eqn:Hm.
  - apply Rltb_spec in Hm. rewrite StatFacts.div_fin by lra.
    eexists. split; [reflexivity|].
    set (m := sqrt (n1 * n2)) in *.
    assert (Hmm : m * m = n1 * n2) by (apply sqrt_sqrt; exact H12).
    assert (Habs : -m <= d <= m).
    { split.
      - destruct (Rle_dec (-m) d) as [H | H]; [exact H|].
        apply Rnot_le_lt in H. exfalso.
        assert (m * m < d * d) by nra. lra.
      - destruct (Rle_dec d m) as [H | H]; [exact H|].
        apply Rnot_le_lt in H. exfalso.
        assert (m * m < d * d) by nra. lra. }
    assert (Hinv : 0 < / m) by (apply Rinv_0_lt_compat; exact Hm).
    assert (Hone : m * / m = 1) by (apply Rinv_r; lra).
    unfold Rdiv. split; [|].
    + split.
      * replace (-1) with (- m * / m) by lra.
        apply Rmult_le_compat_r; lra.
      * replace 1 with (m * / m) by lra.
        apply Rmult_le_compat_r; lra.
    + intros Hp1 Hp2. apply Rmult_le_pos; [apply Hsign; assumption | lra].
  - exists 0. split; [reflexivity|]. split; [lra | intros _ _; lra].
Qed.

Lemma unit_list (rs : list R) :
  Forall (fun r => 0 <= r <= 1) rs -> forall r, In r rs -> 0 <= r <= 1.
Proof. intros H. apply Forall_forall. exact H. Qed.

Section WithConfig.

Variable config : FingerprintConfig.

(** X11.  For two fingerprints whose vectors hold values of [[0, 1]]
    (of any lengths, also empty), [compare] returns a [correlation] and
    a [similarity] that are numbers of [[0, 1]]. *)
Theorem compare_similarity_in_unit (fingerprint1 fingerprint2 : Fingerprint) :
  Forall (fun x => in_unit x = true) (vector fingerprint1) ->
  Forall (fun x => in_unit x = true) (vector fingerprint2) ->
  in_unit (correlation (compare config fingerprint1 fingerprint2)) = true
  /\ in_unit (similarity (compare config fingerprint1 fingerprint2)) = true.
Proof.
  intros Hv1 Hv2.
  destruct (StatFacts.in_unit_list Hv1) as [rs1 [E1 U1]].
  destruct (StatFacts.in_unit_list Hv2) as [rs2 [E2 U2]].
  assert (Hzero : in_unit 0 = true).
  { unfold in_unit. cbn. rewrite !Rleb_true by lra. reflexivity. }
  unfold compare.
  destruct (JS.abs (mainsFrequency fingerprint1 - mainsFrequency fingerprint2)
            >? 5)%js.
  - cbn [correlation similarity]. split; exact Hzero.
  - rewrite E1, E2.
    pose proof (SearchFacts.crossCorrelate_maximal
                  (map JS.Fin rs1) (map JS.Fin rs2)) as Hcc.
    cbv zeta in Hcc.
    destruct (crossCorrelate (map JS.Fin rs1) (map JS.Fin rs2)) as [m off].
    destruct Hcc as [_ [Hbest Hmax]].
    rewrite !length_map in *.
    set (minLength := Nat.min (List.length rs1) (List.length rs2)) in *.
    assert (Hcorr : forall o, exists c,
               correlationAt (map JS.Fin rs1) (map JS.Fin rs2) minLength o
               = JS.Fin c /\ 0 <= c <= 1).
    { intros o. apply correlationAt_unit; try assumption.
      unfold minLength. lia. }
    assert (Hm : exists c, m = JS.Fin c /\ 0 <= c <= 1).
    { destruct Hbest as [-> | [-> _]]; [apply Hcorr|].
      exfalso. specialize (Hmax 0%Z ltac:(lia)).
      destruct (Hcorr 0%Z) as [c [Hc _]]. rewrite Hc in Hmax.
      discriminate. }
    destruct Hm as [c [-> Hc]].
    destruct (alignVectors_fin rs2 off) as [rs2' [-> [_ Hrange]]].
    destruct (cosineSimilarity_fin rs1 rs2') as [cs [-> [Hcs Hsign]]].
    assert (Hcs0 : 0 <= cs).
    { apply Hsign.
      - intros r Hr. apply (unit_list rs1 U1 r Hr).
      - intros r Hr. apply (Hrange 0 1 (unit_list rs2 U2)); [lra | exact Hr]. }
    cbn [correlation similarity JS.add].
    rewrite StatFacts.div_fin by lra.
    split; unfold in_unit; cbn [JS.le]; rewrite !Rleb_true by lra; reflexivity.
Qed.

End WithConfig.

Lemma compare_similarity_in_unit_witness :
  in_unit (correlation (compare DEFAULT_FINGERPRINT_CONFIG half_fingerprint
                                half_fingerprint)) = true
  /\ in_unit (similarity (compare DEFAULT_FINGERPRINT_CONFIG half_fingerprint
                                  half_fingerprint)) = true.
Proof.
  apply (compare_similarity_in_unit DEFAULT_FINGERPRINT_CONFIG
           half_fingerprint half_fingerprint);
    (constructor; [|constructor]); unfold in_unit; cbn;
    rewrite !Rleb_true by lra; reflexivity.
Defined.

End SimilarityFacts.

(** ** [normalize] and [cosineSimilarity] on finite vectors *)

Module RescaleFacts.

Import MainsHumExtractor.

Lemma min_fold_attained (rs : list R) (a : R) :
  exists m, fold_left JS.min (map JS.Fin rs) (JS.Fin a) = JS.Fin m
            /\ (m = a \/ In m rs).
Proof.
  revert a. induction rs as [|x l IH]; intros a; simpl.
  - exists a. auto.
  - destruct (JS.Rltb x a).
    + destruct (IH x) as [m [Hm Hor]]. exists m. split; [exact Hm|].
      destruct Hor as [E | Hin]; [right; left; congruence | right; right; exact Hin].
    + destruct (IH a) as [m [Hm Hor]]. exists m. split; [exact Hm|].
      destruct Hor as [E | Hin]; [left; exact E | right; right; exact Hin].
Qed.

Lemma max_fold_attained (rs : list R) (a : R) :
  exists m, fold_left JS.max (map JS.Fin rs) (JS.Fin a) = JS.Fin m
            /\ (m = a \/ In m rs).
Proof.
  revert a. induction rs as [|x l IH]; intros a; simpl.
  - exists a. auto.
  - destruct (JS.Rltb a x).
    + destruct (IH x) as [m [Hm Hor]]. exists m. split; [exact Hm|].
      destruct Hor as [E | Hin]; [right; left; congruence | right; right; exact Hin].
    + destruct (IH a) as [m [Hm Hor]]. exists m. split; [exact Hm|].
      destruct Hor as [E | Hin]; [left; exact E | right; right; exact Hin].
Qed.

(** The minimum and the maximum of a non-empty finite vector are
    elements of it that bound the others. *)
Lemma min_max_attained (rs : list R) :
  rs <> [] ->
  exists mn mx,
    JS.min_list (map JS.Fin rs) = JS.Fin mn
    /\ JS.max_list (map JS.Fin rs) = JS.Fin mx
    /\ In mn rs /\ In mx rs
    /\ forall r, In r rs -> mn <= r <= mx.
Proof.
  intros Hne.
  destruct (NormalizeFacts.min_max_fin rs Hne) as [mn [mx [Hmn [Hmx Hb]]]].
  exists mn, mx. repeat split; try assumption; try (apply Hb; assumption).
  - destruct rs as [|r0 rs]; [congruence|].
    unfold JS.min_list in Hmn. simpl in Hmn.
    destruct (min_fold_attained rs r0) as [m [Hm Hor]].
    rewrite Hmn in Hm. injection Hm as ->.
    destruct Hor as [-> | Hin]; [left; reflexivity | right; exact Hin].
  - destruct rs as [|r0 rs]; [congruence|].
    unfold JS.max_list in Hmx. simpl in Hmx.
    destruct (max_fold_attained rs r0) as [m [Hm Hor]].
    rewrite Hmx in Hm. injection Hm as ->.
    destruct Hor as [-> | Hin]; [left; reflexivity | right; exact Hin].
Qed.

Lemma normalize_nil : normalize [] = [].
Proof. reflexivity. Qed.

(** [normalize] on a finite vector: the vector itself when its values
    are all equal, the rescaled values otherwise. *)
Lemma normalize_cases (rs : list R) :
  rs <> [] ->
  exists mn mx,
    In mn rs /\ In mx rs /\ (forall r, In r rs -> mn <= r <= mx)
    /\ ((mx = mn /\ normalize (map JS.Fin rs) = map JS.Fin rs)
        \/ (mn < mx
            /\ normalize (map JS.Fin rs)
               = map JS.Fin (map (fun x => (x + - mn) / (mx + - mn)) rs))).
Proof.
  intros Hne.
  destruct (min_max_attained rs Hne) as [mn [mx [Hmn [Hmx [Imn [Imx Hb]]]]]].
  exists mn, mx. repeat split; try assumption; try (apply Hb; assumption).
  unfold normalize. rewrite Hmn, Hmx. cbn [JS.sub JS.neg JS.add JS.eq].
  pose proof (Hb mn Imn) as [_ Hle].
  destruct (Req_dec_T mx mn) as [E | E].
  - left. split; [exact E|]. rewrite Reqb_true by lra. reflexivity.
  - right. split; [lra|]. rewrite Reqb_false by lra.
    rewrite !map_map. apply map_ext. intros x.
    cbn [JS.sub JS.add JS.neg]. rewrite StatFacts.div_fin by lra. reflexivity.
Qed.

(** X12.  On a vector of finite values [normalize] keeps the length and
    is idempotent; when two of the values differ, the result holds
    values of [[0, 1]] among which are 0 and 1. *)
Theorem normalize_idempotent (rs : list R) :
  let vector := map JS.Fin rs in
  List.length (normalize vector) = List.length vector
  /\ normalize (normalize vector) = normalize vector
  /\ ((exists a b, In a rs /\ In b rs /\ a <> b) ->
      Forall (fun x => in_unit x = true) (normalize vector)
      /\ In (JS.Fin 0) (normalize vector)
      /\ In (JS.Fin 1) (normalize vector)).
Proof.
  cbv zeta. destruct rs as [|r0 rs'].
  - cbn [map]. rewrite normalize_nil.
    split; [reflexivity|]. split; [reflexivity|].
    intros [a [b [[] _]]].
  - set (rs := r0 :: rs') in *.
    assert (Hne : rs <> []) by discriminate.
    destruct (normalize_cases rs Hne)
      as [mn [mx [Imn [Imx [Hb [[E Hn] | [Hlt Hn]]]]]]].
    + rewrite Hn. split; [reflexivity|]. split; [exact Hn|].
      intros [a [b [Ha [Hb' Hab]]]]. exfalso.
      pose proof (Hb a Ha). pose proof (Hb b Hb'). lra.
    + rewrite Hn.
      set (f := fun x => (x + - mn) / (mx + - mn)) in *.
      assert (Hinv : 0 < / (mx + - mn)) by (apply Rinv_0_lt_compat; lra).
      assert (Hf0 : f mn = 0) by (unfold f; field; lra).
      assert (Hf1 : f mx = 1) by (unfold f; field; lra).
      assert (Hrange : forall w, In w (map f rs) -> 0 <= w <= 1).
      { intros w Hw. apply in_map_iff in Hw. destruct Hw as [x [<- Hx]].
        pose proof (Hb x Hx) as Hxb. unfold f, Rdiv. split.
        - apply Rmult_le_pos; lra.
        - apply (Rmult_le_reg_r (mx + - mn)); [lra|].
          rewrite Rmult_assoc, Rinv_l by lra. lra. }
      assert (H0 : In 0 (map f rs)) by (rewrite <- Hf0; apply in_map; exact Imn).
      assert (H1 : In 1 (map f rs)) by (rewrite <- Hf1; apply in_map; exact Imx).
      split; [rewrite !length_map; reflexivity|]. split.
      * assert (Hne' : map f rs <> []) by (intros E; rewrite E in H0; exact H0).
        destruct (normalize_cases (map f rs) Hne')
          as [mn' [mx' [Imn' [Imx' [Hb' [[E' Hn'] | [Hlt' Hn']]]]]]];
          [exact Hn'|].
        rewrite Hn'. f_equal.
        pose proof (Hb' 0 H0). pose proof (Hb' 1 H1).
        pose proof (Hrange mn' Imn'). pose proof (Hrange mx' Imx').
        assert (mn' = 0) by lra. assert (mx' = 1) by lra. subst mn' mx'.
        rewrite <- (map_id (map f rs)) at 2.
        apply map_ext. intros w. field.
      * intros _. split; [|split].
        -- apply Forall_forall. intros x Hx. apply in_map_iff in Hx.
           destruct Hx as [w [<- Hw]]. apply StatFacts.in_unit_fin.
           exists w. split; [reflexivity | apply Hrange; exact Hw].
        -- apply (in_map JS.Fin) in H0. exact H0.
        -- apply (in_map JS.Fin) in H1. exact H1.
Qed.

Lemma normalize_idempotent_witness :
  Forall (fun x => in_unit x = true) (normalize (map JS.Fin [1; 3]))
  /\ In (JS.Fin 0) (normalize (map JS.Fin [1; 3]))
  /\ In (JS.Fin 1) (normalize (map JS.Fin [1; 3])).
Proof.
  apply (normalize_idempotent [1; 3]).
  exists 1, 3. repeat split; [left; reflexivity | right; left; reflexivity | lra].
Defined.

(** The loop of [cosineSimilarity] on a vector and itself: the three
    sums are the sum of the squares. *)
Lemma cosine_self_loop (rs : list R) (l : list nat) (q : R) :
  (forall i, In i l -> (i < List.length rs)%nat) ->
  fold_left
    (fun '(dotProduct, norm1, norm2) i =>
       ((dotProduct + JS.getN (map JS.Fin rs) i * JS.getN (map JS.Fin rs) i)%js,
        (norm1 + JS.sq (JS.getN (map JS.Fin rs) i))%js,
        (norm2 + JS.sq (JS.getN (map JS.Fin rs) i))%js))
    l (JS.Fin q, JS.Fin q, JS.Fin q)
  = let q' := q + Rsum (map (fun i => nth i rs 0 * nth i rs 0) l) in
    (JS.Fin q', JS.Fin q', JS.Fin q').
Proof.
  revert q. induction l as [|i l IH]; intros q Hl.
  - cbn. replace (q + 0) with q by lra. reflexivity.
  - cbn [fold_left map]. rewrite CompareFacts.getN_fin
      by (apply Hl; left; reflexivity).
    cbn [JS.mul JS.add JS.sq]. rewrite IH by (intros j Hj; apply Hl; right; exact Hj).
    cbv zeta. rewrite StepFacts.Rsum_cons.
    replace (q + nth i rs 0 * nth i rs 0
             + Rsum (map (fun i0 => nth i0 rs 0 * nth i0 rs 0) l))
      with (q + (nth i rs 0 * nth i rs 0
                 + Rsum (map (fun i0 => nth i0 rs 0 * nth i0 rs 0) l)))
      by lra.
    reflexivity.
Qed.

Lemma squares_positive (rs : list R) :
  (exists r, In r rs /\ r <> 0) -> 0 < Rsum (map (fun x => x * x) rs).
Proof.
  intros [r [Hin Hr]]. induction rs as [|x l IH]; [contradiction|].
  cbn [map]. rewrite StepFacts.Rsum_cons.
  pose proof (SumFacts.Rsum_squares_nonneg l) as Hq.
  pose proof (Rle_0_sqr x) as Hx. unfold Rsqr in Hx.
  destruct Hin as [-> | Hin].
  - assert (0 < r * r) by (apply Rsqr_pos_lt in Hr; exact Hr). lra.
  - specialize (IH Hin). lra.
Qed.

(** X13.  [cosineSimilarity] of two vectors of finite values is a finite
    number, not negative when no value is; of a vector that has a
    non-zero value and itself it is 1. *)
Theorem cosineSimilarity_range (rs1 rs2 : list R) :
  (exists c,
      cosineSimilarity (map JS.Fin rs1) (map JS.Fin rs2) = JS.Fin c
      /\ ((forall r, In r rs1 -> 0 <= r) -> (forall r, In r rs2 -> 0 <= r) ->
          0 <= c))
  /\ ((exists r, In r rs1 /\ r <> 0) ->
      cosineSimilarity (map JS.Fin rs1) (map JS.Fin rs1) = JS.Fin 1).
Proof.
  split.
  { destruct (SimilarityFacts.cosineSimilarity_fin rs1 rs2) as [c [Hc [_ Hpos]]].
    exists c. split; assumption. }
  intros Hnz. unfold cosineSimilarity. cbv zeta.
  rewrite length_map, Nat.min_id.
  rewrite (cosine_self_loop rs1 (seq 0 (List.length rs1)) 0)
    by (intros i Hi; apply in_seq in Hi; lia).
  cbv zeta.
  rewrite (CompareFacts.map_nth_seq (fun x => x * x) rs1).
  pose proof (squares_positive rs1 Hnz) as Hq.
  set (q := 0 + Rsum (map (fun x => x * x) rs1)).
  assert (Hq' : 0 < q) by (unfold q; lra).
  cbn [JS.mul]. unfold JS.sqrt. rewrite Rltb_false by nra.
  rewrite sqrt_square by lra.
  unfold JS.gt. cbn [JS.lt]. rewrite Rltb_true by lra.
  rewrite StatFacts.div_fin by lra. f_equal. field. lra.
Qed.

Lemma cosineSimilarity_range_witness :
  cosineSimilarity (map JS.Fin [0.5]) (map JS.Fin [0.5]) = JS.Fin 1.
Proof.
  apply (cosineSimilarity_range [0.5] [0.5]).
  exists 0.5. split; [left; reflexivity | lra].
Defined.

End RescaleFacts.

(** ** [alignVectors] *)

Module AlignFacts.

Import MainsHumExtractor.

(** X14.  [alignVectors] keeps the length of the vector; an offset of 0
    returns the vector itself, and an offset of at least the length, in
    either direction, returns zeros only. *)
Theorem alignVectors_edges (vector : Float32Array) (offset : Z) :
  List.length (alignVectors vector offset) = List.length vector
  /\ alignVectors vector 0 = vector
  /\ ((Z.of_nat (List.length vector) <= Z.abs offset)%Z ->
      alignVectors vector offset = repeat (JS.Fin 0) (List.length vector)).
Proof.
  split; [|split].
  - unfold alignVectors. rewrite length_map, length_seq. reflexivity.
  - apply (nth_ext _ _ JS.NaN JS.NaN).
    + unfold alignVectors. rewrite length_map, length_seq. reflexivity.
    + intros i Hi. unfold alignVectors in Hi |- *.
      rewrite length_map, length_seq in Hi.
      rewrite (StepFacts.nth_map_seq _ _ _ _ Hi). cbv zeta.
      rewrite Z.add_0_r.
      replace ((0 <=? Z.of_nat i)%Z && (Z.of_nat i <? Z.of_nat (List.length vector))%Z)
        with true
        by (symmetry; apply andb_true_iff; split;
            [apply Z.leb_le | apply Z.ltb_lt]; lia).
      unfold JS.getZ.
      replace (Z.of_nat i <? 0)%Z with false by (symmetry; apply Z.ltb_ge; lia).
      rewrite Nat2Z.id. reflexivity.
  - intros Hfar. unfold alignVectors.
    apply StepFacts.map_const_seq. intros i Hi. cbv zeta.
    destruct ((0 <=? Z.of_nat i + offset)%Z
              && (Z.of_nat i + offset <? Z.of_nat (List.length vector))%Z) eqn:E;
      [|reflexivity].
    apply andb_true_iff in E. destruct E as [E1 E2].
    apply Z.leb_le in E1. apply Z.ltb_lt in E2. lia.
Qed.

Lemma alignVectors_edges_witness :
  alignVectors [JS.Fin 1; JS.Fin 2] 2 = repeat (JS.Fin 0) 2.
Proof.
  apply (alignVectors_edges [JS.Fin 1; JS.Fin 2] 2). cbn. lia.
Defined.

End AlignFacts.

(** ** The number of frames of a fingerprint *)

Module FrameFacts.

Import MainsHumExtractor.

Lemma Zfloor_div (a b : Z) : (0 < b)%Z -> Zfloor (IZR a / IZR b) = (a / b)%Z.
Proof.
  intros Hb. apply Zfloor_eq.
  pose proof (Z.div_mod a b ltac:(lia)) as Hdm.
  pose proof (Z.mod_pos_bound a b Hb) as Hr.
  assert (Hbpos : 0 < IZR b) by (apply IZR_lt; exact Hb).
  assert (Ha : IZR a = IZR b * IZR (a / b) + IZR (a mod b)).
  { rewrite <- mult_IZR, <- plus_IZR. f_equal. exact Hdm. }
  assert (Hr0 : 0 <= IZR (a mod b)) by (apply IZR_le; lia).
  assert (Hr1 : IZR (a mod b) < IZR b) by (apply IZR_lt; lia).
  assert (Hq : IZR a / IZR b = IZR (a / b) + IZR (a mod b) / IZR b).
  { rewrite Ha. field. lra. }
  rewrite Hq.
  assert (0 <= IZR (a mod b) / IZR b < 1).
  { split.
    - apply Rmult_le_pos; [exact Hr0 | left; apply Rinv_0_lt_compat; exact Hbpos].
    - apply (Rmult_lt_reg_r (IZR b)); [exact Hbpos|].
      unfold Rdiv. rewrite Rmult_assoc, Rinv_l by lra. lra. }
  lra.
Qed.

Lemma trunc_IZR (z : Z) : JS.trunc (IZR z) = z.
Proof.
  unfold JS.trunc. destruct (JS.Rltb (IZR z) 0).
  - unfold Zceil. rewrite <- opp_IZR, StepFacts.Zfloor_IZR. lia.
  - apply StepFacts.Zfloor_IZR.
Qed.

Lemma toFloat32_length (audioData : AudioData) :
  List.length (toFloat32 audioData) = audio_length audioData.
Proof. destruct audioData; cbn; [reflexivity | apply length_map]. Qed.

Lemma normalize_length (vector : Float32Array) :
  List.length (normalize vector) = List.length vector.
Proof.
  unfold normalize. cbv zeta. destruct (_ === _)%js; [reflexivity|].
  apply length_map.
Qed.

(** The frames [extractFingerprintVector] computes under the default
    configuration, for [n] samples. *)
Lemma default_frames (data : Float32Array) (sampleRate targetFreq : number) :
  let n := Z.of_nat (List.length data) in
  ((n < 4096)%Z ->
   extractFingerprintVector DEFAULT_FINGERPRINT_CONFIG data sampleRate targetFreq
   = Throw RangeError)
  /\ ((4096 <= n)%Z ->
      exists vector,
        extractFingerprintVector DEFAULT_FINGERPRINT_CONFIG data sampleRate
                                 targetFreq = Ok vector
        /\ Z.of_nat (List.length vector) = ((n - 4096) / 2048)%Z).
Proof.
  cbv zeta. unfold extractFingerprintVector. cbv zeta. unfold JS.len.
  rewrite INR_IZR_INZ.
  cbn [fftWindowSize hopSize DEFAULT_FINGERPRINT_CONFIG JS.sub JS.neg JS.add JS.div].
  rewrite Reqb_false by lra. cbn [JS.floor].
  set (n := Z.of_nat (List.length data)).
  replace (IZR n + - (4096)) with (IZR (n - 4096))
    by (rewrite minus_IZR; lra).
  rewrite Zfloor_div by lia.
  unfold typed_array_length. rewrite trunc_IZR.
  split; intros Hn.
  - assert (Hneg : ((n - 4096) / 2048 < 0)%Z)
      by (apply Z.div_lt_upper_bound; lia).
    apply Z.ltb_lt in Hneg. rewrite Hneg. reflexivity.
  - assert (Hpos : (0 <= (n - 4096) / 2048)%Z)
      by (apply Z.div_pos; lia).
    destruct ((n - 4096) / 2048 <? 0)%Z eqn:E; [apply Z.ltb_lt in E; lia|].
    cbn [bind]. eexists. split; [reflexivity|].
    rewrite normalize_length. unfold frameMagnitudes.
    rewrite length_map, length_seq. apply Z2Nat.id. exact Hpos.
Qed.

Section Run.

Variable computeHash : Float32Array -> string.
Variable now : string.

(** X15.  Under the default configuration, for a recording of [n]
    samples that passes the duration test, at the default sample rate or
    at a given finite rate of at least 1 Hz: [extract] raises a
    [RangeError] when [n < 4096], and otherwise returns a fingerprint
    whose vector has [floor ((n - 4096) / 2048)] values (at least 105
    at the default sample rate), whose mains frequency is 50 or 60, and
    whose duration is [n / sampleRate]. *)
Theorem extract_default_frames
  (audioData : AudioData) (sampleRateArg : option number) :
  let sampleRate :=
    match sampleRateArg with Some s => s | None => JS.Fin 44100 end in
  let n := Z.of_nat (audio_length audioData) in
  (forall s, sampleRateArg = Some s -> exists r, s = JS.Fin r /\ 1 <= r) ->
  (JS.Fin (INR (audio_length audioData)) <? sampleRate * 5)%js = false ->
  ((n < 4096)%Z ->
   extract DEFAULT_FINGERPRINT_CONFIG computeHash now audioData sampleRateArg
   = Throw RangeError)
  /\ ((4096 <= n)%Z ->
      exists fp,
        extract DEFAULT_FINGERPRINT_CONFIG computeHash now audioData sampleRateArg
        = Ok fp
        /\ Z.of_nat (List.length (vector fp)) = ((n - 4096) / 2048)%Z
        /\ (mainsFrequency fp = JS.Fin 50 \/ mainsFrequency fp = JS.Fin 60)
        /\ duration fp = (JS.Fin (INR (audio_length audioData)) / sampleRate)%js
        /\ fp_sampleRate fp = sampleRate
        /\ hash fp = computeHash (vector fp))
  /\ (sampleRateArg = None -> (4096 <= n)%Z /\ (105 <= (n - 4096) / 2048)%Z).
Proof.
  intros rate n _ Hlong.
  assert (Hsr : match sampleRateArg with
                | Some s => s
                | None => sampleRate DEFAULT_FINGERPRINT_CONFIG
                end = rate)
    by (destruct sampleRateArg; reflexivity).
  unfold extract. cbv zeta. rewrite Hsr.
  change (minDuration DEFAULT_FINGERPRINT_CONFIG) with (JS.Fin 5).
  rewrite Hlong.
  set (filtered := bandpassFilter _ _ _ _).
  assert (Hlen : Z.of_nat (List.length filtered) = n).
  { unfold filtered, n.
    rewrite DurationFacts.bandpassFilter_length, toFloat32_length. reflexivity. }
  destruct (default_frames filtered rate
              (detectMainsFrequency filtered rate)) as [Hshort Hok].
  rewrite Hlen in Hshort, Hok.
  split; [|split].
  - intros Hn. rewrite (Hshort Hn). reflexivity.
  - intros Hn. destruct (Hok Hn) as [v [-> Hv]]. cbn [bind].
    eexists. split; [reflexivity|].
    cbn [vector mainsFrequency duration fp_sampleRate hash].
    repeat split; try assumption.
    apply StepFacts.detect_50_or_60.
  - intros ->. unfold rate in Hlong. cbn [JS.mul JS.lt] in Hlong.
    assert (Hn : 44100 * 5 <= INR (audio_length audioData)).
    { destruct (Rle_dec (44100 * 5) (INR (audio_length audioData))) as [H | H];
        [exact H|].
      rewrite Rltb_true in Hlong by lra. discriminate. }
    rewrite INR_IZR_INZ in Hn. fold n in Hn.
    assert (Hz : (220500 <= n)%Z).
    { apply le_IZR. rewrite <- mult_IZR in Hn. exact Hn. }
    split; [lia|]. apply Z.div_le_lower_bound; lia.
Qed.

End Run.

Lemma extract_default_frames_witness :
  exists fp,
    extract DEFAULT_FINGERPRINT_CONFIG (fun _ => ""%string) "now"
            (Float32Samples step_audio) (Some (JS.Fin 100)) = Ok fp
    /\ Z.of_nat (List.length (vector fp)) = 1%Z.
Proof.
  destruct (extract_default_frames (fun _ => ""%string) "now"
              (Float32Samples step_audio) (Some (JS.Fin 100)))
    as [_ [Hok _]].
  - intros s Hs. injection Hs as <-. exists 100. split; [reflexivity | lra].
  - cbn [audio_length]. rewrite StepFacts.step_length.
    rewrite StepFacts.INR_to_nat by lia.
    cbn [JS.mul JS.lt]. apply Rltb_false. lra.
  - destruct Hok as [fp [Hfp [Hlen _]]].
    + cbn [audio_length]. rewrite StepFacts.step_length. lia.
    + exists fp. split; [exact Hfp|]. rewrite Hlen.
      cbn [audio_length]. rewrite StepFacts.step_length. reflexivity.
Defined.

End FrameFacts.

(** ** Fingerprints of different mains frequencies *)

Module GridFacts.

Import MainsHumExtractor.

Lemma extract_mains (config : FingerprintConfig)
  (computeHash : Float32Array -> string) (now : string)
  (audioData : AudioData) (sampleRateArg : option number) (fp : Fingerprint) :
  extract config computeHash now audioData sampleRateArg = Ok fp ->
  mainsFrequency fp = JS.Fin 50 \/ mainsFrequency fp = JS.Fin 60.
Proof.
  unfold extract. cbv zeta. destruct (_ <? _)%js; [discriminate|].
  destruct (extractFingerprintVector _ _ _ _) as [v|e]; cbn [bind];
    [|discriminate].
  intros H. injection H as <-. cbn [mainsFrequency].
  apply StepFacts.detect_50_or_60.
Qed.

(** X16.  A fingerprint returned by [extract] has a mains frequency of 50
    or 60.  So [compare] on two such fingerprints either finds equal
    frequencies and goes on to the cross-correlation, or answers at
    once with similarity 0, confidence ['low'] and proximity
    ['distant'], whatever the vectors are. *)
Theorem compare_extracted
  (config1 config2 config : FingerprintConfig)
  (computeHash : Float32Array -> string) (now1 now2 : string)
  (audio1 audio2 : AudioData) (rate1 rate2 : option number)
  (fp1 fp2 : Fingerprint) :
  extract config1 computeHash now1 audio1 rate1 = Ok fp1 ->
  extract config2 computeHash now2 audio2 rate2 = Ok fp2 ->
  (mainsFrequency fp1 = mainsFrequency fp2
   /\ correlation (compare config fp1 fp2)
      = fst (crossCorrelate (vector fp1) (vector fp2)))
  \/ (mainsFrequency fp1 <> mainsFrequency fp2
      /\ compare config fp1 fp2 = different_grids).
Proof.
  intros H1 H2.
  apply extract_mains in H1. apply extract_mains in H2.
  unfold compare.
  destruct H1 as [E1 | E1], H2 as [E2 | E2]; rewrite E1, E2.
  - left. split; [reflexivity|].
    rewrite CompareFacts.same_mains_frequency.
    destruct (crossCorrelate _ _). reflexivity.
  - right. split; [intros H; injection H; lra|].
    unfold JS.gt. cbn [JS.sub JS.neg JS.add JS.abs JS.lt].
    rewrite Rltb_true; [reflexivity|].
    replace (50 + - (60)) with (- (10)) by lra. rewrite Rabs_Ropp, Rabs_pos_eq; lra.
  - right. split; [intros H; injection H; lra|].
    unfold JS.gt. cbn [JS.sub JS.neg JS.add JS.abs JS.lt].
    rewrite Rltb_true; [reflexivity|].
    replace (60 + - (50)) with 10 by lra. rewrite Rabs_pos_eq; lra.
  - left. split; [reflexivity|].
    rewrite CompareFacts.same_mains_frequency.
    destruct (crossCorrelate _ _). reflexivity.
Qed.

Lemma compare_extracted_witness :
  exists fp,
    extract DEFAULT_FINGERPRINT_CONFIG (fun _ => ""%string) "now"
            (Float32Samples step_audio) (Some (JS.Fin 100)) = Ok fp
    /\ ((mainsFrequency fp = mainsFrequency fp
         /\ correlation (compare DEFAULT_FINGERPRINT_CONFIG fp fp)
            = fst (crossCorrelate (vector fp) (vector fp)))
        \/ (mainsFrequency fp <> mainsFrequency fp
            /\ compare DEFAULT_FINGERPRINT_CONFIG fp fp = different_grids)).
Proof.
  destruct (StepFacts.step_extract (fun _ => ""%string) "now") as [fp [Hfp _]].
  exists fp. split; [exact Hfp|].
  exact (compare_extracted _ _ DEFAULT_FINGERPRINT_CONFIG _ _ _ _ _ _ _ fp fp
           Hfp Hfp).
Defined.

End GridFacts.

(** ** The band-pass filter at its edges *)

Module FilterFacts.

Import MainsHumExtractor.

Lemma filter_nothing (A : Type) (p : A -> bool) (l : list A) :
  (forall x, In x l -> p x = false) -> filter p l = [].
Proof. apply AggregatorFacts.filter_none. Qed.

(** A window size of zero or less leaves the window empty. *)
Lemma empty_window (w : R) (n i : nat) :
  w <= 0 -> (i < n)%nat ->
  loop_indices (JS.max 0 (JS.Fin (INR i) - JS.Fin w)%js)
               (JS.min (JS.Fin (INR n)) (JS.Fin (INR i) + JS.Fin w)%js) n
  = [].
Proof.
  intros Hw Hin. unfold loop_indices. apply filter_nothing. intros j _.
  cbn [JS.sub JS.neg JS.add JS.max JS.min JS.lt].
  pose proof (pos_INR i) as Hi. apply lt_INR in Hin.
  assert (Hstart : (if JS.Rltb 0 (INR i + - w) then JS.Fin (INR i + - w)
                    else JS.Fin 0) = JS.Fin (INR i + - w)).
  { destruct (JS.Rltb 0 (INR i + - w)) eqn:E; [reflexivity|].
    f_equal. destruct (Rlt_dec 0 (INR i + - w)) as [H | H].
    - rewrite (Rltb_true _ _ H) in E. discriminate.
    - lra. }
  rewrite Hstart.
  destruct (JS.Rleb (INR i + - w) (INR j)) eqn:E1;
    [|cbn [JS.le]; rewrite E1; reflexivity].
  apply Rleb_spec in E1. cbn [JS.le]. rewrite Rleb_true by lra. cbn [andb].
  rewrite (Rltb_true (INR i + w) (INR n)) by lra.
  apply Rltb_false. lra.
Qed.

Lemma floor_low (x : R) : x < 1 -> IZR (Zfloor x) <= 0.
Proof.
  intros Hx. apply IZR_le.
  assert (H : (Zfloor x < 1)%Z).
  { apply lt_IZR. pose proof (Zfloor_bound x). lra. }
  lia.
Qed.

Lemma floor_high (x : R) : 1 <= x -> 1 <= IZR (Zfloor x).
Proof.
  intros Hx. apply IZR_le.
  assert (H : (0 < Zfloor x)%Z).
  { apply lt_IZR. pose proof (Zfloor_bound x). lra. }
  lia.
Qed.

Lemma windowSize_fin (sampleRate lowCutoff highCutoff : R) :
  0 < lowCutoff + highCutoff ->
  JS.floor (JS.Fin sampleRate / ((JS.Fin lowCutoff + JS.Fin highCutoff) / 2))%js
  = JS.Fin (IZR (Zfloor (sampleRate / ((lowCutoff + highCutoff) / 2)))).
Proof.
  intros Hc. cbn [JS.add]. rewrite !StatFacts.div_fin by lra. reflexivity.
Qed.

(** The sum of a window of samples that all have the value [c]. *)
Lemma constant_sum (data : Float32Array) (c : R) (window : list nat) (a : R) :
  (forall j, In j window -> JS.getN data j = JS.Fin c) ->
  fold_left (fun sum j => (sum + JS.getN data j)%js) window (JS.Fin a)
  = JS.Fin (a + INR (List.length window) * c).
Proof.
  revert a. induction window as [|j window IH]; intros a Hwin.
  - cbn. f_equal. lra.
  - cbn [fold_left]. rewrite (Hwin j (or_introl eq_refl)).
    cbn [JS.add]. rewrite IH by (intros k Hk; apply Hwin; right; exact Hk).
    change (List.length (j :: window)) with (S (List.length window)).
    rewrite S_INR. f_equal. lra.
Qed.

(** Below the centre of the band the window is empty: every sample
    becomes [NaN]. *)
Lemma bandpassFilter_low_rate
  (data : Float32Array) (sampleRate lowCutoff highCutoff : R) :
  0 < lowCutoff + highCutoff ->
  sampleRate < (lowCutoff + highCutoff) / 2 ->
  bandpassFilter data sampleRate lowCutoff highCutoff
  = repeat JS.NaN (List.length data).
Proof.
  intros Hc Hlow. unfold bandpassFilter. cbv zeta.
  rewrite (windowSize_fin _ _ _ Hc).
  set (w := IZR (Zfloor (sampleRate / ((lowCutoff + highCutoff) / 2)))).
  assert (Hw : w <= 0).
  { apply floor_low. apply (Rmult_lt_reg_r ((lowCutoff + highCutoff) / 2)); [lra|].
    unfold Rdiv at 1. rewrite Rmult_assoc, Rinv_l by lra. lra. }
  apply StepFacts.map_const_seq. intros i Hi.
  unfold JS.len. rewrite (empty_window w _ i Hw) by lia.
  cbn [fold_left List.length INR JS.div]. rewrite !Reqb_true by reflexivity.
  destruct (JS.getN data i); reflexivity.
Qed.

(** X17.  The moving-average window of [bandpassFilter] has
    [floor (sampleRate / ((lowCutoff + highCutoff) / 2))] samples on each
    side.  When the sample rate is below the centre of the band (55 Hz
    under the default configuration) the window is empty and every
    output sample is [NaN]; when it is at least the centre, a constant
    signal is filtered to zero. *)
Theorem bandpassFilter_edges
  (data : Float32Array) (sampleRate lowCutoff highCutoff : R) :
  0 < lowCutoff + highCutoff ->
  (sampleRate < (lowCutoff + highCutoff) / 2 ->
   bandpassFilter data sampleRate lowCutoff highCutoff
   = repeat JS.NaN (List.length data))
  /\ ((lowCutoff + highCutoff) / 2 <= sampleRate ->
      forall c,
        data = repeat (JS.Fin c) (List.length data) ->
        bandpassFilter data sampleRate lowCutoff highCutoff
        = repeat (JS.Fin 0) (List.length data)).
Proof.
  intros Hc. split; [apply bandpassFilter_low_rate; exact Hc|].
  unfold bandpassFilter. cbv zeta.
  rewrite (windowSize_fin _ _ _ Hc).
  set (w := IZR (Zfloor (sampleRate / ((lowCutoff + highCutoff) / 2)))).
  - intros Hhigh c Hdata.
    assert (Hw : 1 <= w).
    { apply floor_high. apply (Rmult_le_reg_r ((lowCutoff + highCutoff) / 2)); [lra|].
      unfold Rdiv at 2. rewrite Rmult_assoc, Rinv_l by lra. lra. }
    set (n := List.length data) in *.
    apply StepFacts.map_const_seq. intros i Hi.
    set (window := loop_indices _ _ n).
    assert (Hwin : forall j, In j window -> (j < n)%nat).
    { intros j Hj. unfold window, loop_indices in Hj.
      apply filter_In in Hj. destruct Hj as [Hj _]. apply in_seq in Hj. lia. }
    assert (Hi_in : In i window).
    { unfold window, loop_indices, JS.len. fold n.
      apply filter_In. split; [apply in_seq; lia|].
      cbn [JS.sub JS.neg JS.add JS.max JS.min JS.lt].
      pose proof (pos_INR i) as Hi0.
      assert (Hin : INR i < INR n) by (apply lt_INR; lia).
      apply andb_true_iff. split.
      - destruct (JS.Rltb 0 (INR i + - w)) eqn:E; cbn [JS.le];
          apply Rleb_true; lra.
      - destruct (JS.Rltb (INR i + w) (INR n)); cbn [JS.lt];
          apply Rltb_true; lra. }
    assert (Hcount : 0 < INR (List.length window)).
    { apply StatFacts.INR_length_pos. intros E. rewrite E in Hi_in. exact Hi_in. }
    assert (Hget : forall j, (j < n)%nat -> JS.getN data j = JS.Fin c).
    { intros j Hj. rewrite Hdata. unfold JS.getN.
      apply StepFacts.nth_repeat_lt. exact Hj. }
    rewrite (constant_sum data c window 0)
      by (intros j Hj; apply Hget, Hwin, Hj).
    rewrite Hget by lia.
    unfold JS.len. rewrite StatFacts.div_fin by lra.
    cbn [JS.sub JS.neg JS.add]. f_equal. field. lra.
Qed.

Lemma bandpassFilter_edges_witness :
  bandpassFilter [JS.Fin 1; JS.Fin 2] 50 45 65 = repeat JS.NaN 2
  /\ bandpassFilter (repeat (JS.Fin 3) 2) 100 45 65 = repeat (JS.Fin 0) 2.
Proof.
  split.
  - apply (bandpassFilter_edges [JS.Fin 1; JS.Fin 2] 50 45 65); lra.
  - apply (bandpassFilter_edges (repeat (JS.Fin 3) 2) 100 45 65) with (c := 3);
      [lra | lra | reflexivity].
Defined.

End FilterFacts.

(** ** The extraction quality *)

Module QualityFacts.

Import MainsHumExtractor.

(** X18.  [assessExtractionQuality] of a non-empty vector of finite values
    that are not negative - in particular of values of [[0, 1]] - is a
    number of [[0, 1]]; of an empty vector it is [NaN]. *)
Theorem assessExtractionQuality_in_unit (rs : list R) :
  (rs <> [] -> (forall r, In r rs -> 0 <= r) ->
   in_unit (assessExtractionQuality (map JS.Fin rs)) = true)
  /\ assessExtractionQuality [] = JS.NaN.
Proof.
  split.
  - intros Hne Hpos. unfold assessExtractionQuality. cbv zeta.
    pose proof (StatFacts.INR_length_pos Hne) as Hn.
    rewrite (StatFacts.reduce_sum_fin (fun val => val) (fun r => r))
      by reflexivity.
    rewrite map_id, StatFacts.len_map_fin, StatFacts.div_fin by lra.
    fold (Rmean rs).
    rewrite (StatFacts.reduce_sum_fin
               (fun val => JS.sq (val - JS.Fin (Rmean rs))%js)
               (fun x => (x - Rmean rs) * (x - Rmean rs)))
      by (intros r; cbn; f_equal; lra).
    fold (Rsumsq (Rmean rs) rs).
    rewrite StatFacts.div_fin by lra.
    pose proof (StatFacts.Rsumsq_nonneg (Rmean rs) rs) as Hq.
    assert (HV : 0 <= Rsumsq (Rmean rs) rs / INR (List.length rs)).
    { apply Rmult_le_pos; [exact Hq | left; apply Rinv_0_lt_compat; exact Hn]. }
    unfold JS.sqrt. rewrite Rltb_false by lra.
    set (s := sqrt (Rsumsq (Rmean rs) rs / INR (List.length rs))).
    assert (Hs : 0 <= s) by apply sqrt_pos.
    assert (Hm : 0 <= Rmean rs).
    { unfold Rmean. apply Rmult_le_pos; [|left; apply Rinv_0_lt_compat; exact Hn].
      clear -Hpos. induction rs as [|x l IH]; [cbn; lra|].
      rewrite StepFacts.Rsum_cons.
      pose proof (Hpos x (or_introl eq_refl)).
      assert (0 <= Rsum l) by (apply IH; intros r Hr; apply Hpos; right; exact Hr).
      lra. }
    cbn [JS.add]. rewrite !StatFacts.div_fin by lra.
    set (q := s / (Rmean rs + / 10000000000) / 0.5).
    assert (Hq0 : 0 <= q).
    { unfold q. apply Rmult_le_pos; [|lra].
      apply Rmult_le_pos; [exact Hs|].
      left. apply Rinv_0_lt_compat. lra. }
    unfold JS.min, JS.lt. unfold in_unit.
    destruct (JS.Rltb q 1) eqn:E; cbn [JS.le].
    + apply Rltb_spec in E. rewrite !Rleb_true by lra. reflexivity.
    + rewrite !Rleb_true by lra. reflexivity.
  - unfold assessExtractionQuality. cbn. rewrite !Reqb_true by reflexivity.
    reflexivity.
Qed.

Lemma assessExtractionQuality_in_unit_witness :
  in_unit (assessExtractionQuality (map JS.Fin [0; 1])) = true.
Proof.
  apply (assessExtractionQuality_in_unit [0; 1]).
  - discriminate.
  - intros r [<- | [<- | []]]; lra.
Defined.

End QualityFacts.

(** ** The hash of a fingerprint *)

Module HashFacts.

Import FingerprintHash.

Lemma to_int32_range (x : Z) : (- 2 ^ 31 <= to_int32 x < 2 ^ 31)%Z.
Proof.
  unfold to_int32. pose proof (Z.mod_pos_bound (x + 2 ^ 31) (2 ^ 32)). lia.
Qed.

Lemma to_int32_shift (x k : Z) : to_int32 (x + k * 2 ^ 32) = to_int32 x.
Proof.
  unfold to_int32.
  replace (x + k * 2 ^ 32 + 2 ^ 31)%Z with (x + 2 ^ 31 + k * 2 ^ 32)%Z by lia.
  rewrite Z_mod_plus_full. reflexivity.
Qed.

Lemma to_int32_multiple (x : Z) : exists k, to_int32 x = (x + k * 2 ^ 32)%Z.
Proof.
  exists (- ((x + 2 ^ 31) / 2 ^ 32))%Z. unfold to_int32.
  rewrite Z.mod_eq by lia. lia.
Qed.

Lemma hashStep_polynomial (p : Z) (byte : Byte.byte) :
  hashStep (to_int32 p) byte = to_int32 (31 * p + Z.of_N (Byte.to_N byte)).
Proof.
  unfold hashStep. rewrite Z.shiftl_mul_pow2 by lia.
  destruct (to_int32_multiple p) as [k Hk].
  destruct (to_int32_multiple (to_int32 p * 2 ^ 5)) as [k' Hk'].
  rewrite Hk'. rewrite Hk.
  replace ((p + k * 2 ^ 32) * 2 ^ 5 + k' * 2 ^ 32 - (p + k * 2 ^ 32)
           + Z.of_N (Byte.to_N byte))%Z
    with (31 * p + Z.of_N (Byte.to_N byte) + (31 * k + k') * 2 ^ 32)%Z by lia.
  apply to_int32_shift.
Qed.

Lemma hashLoop_fold (bytes : Uint8Array) (p : Z) :
  fold_left hashStep bytes (to_int32 p)
  = to_int32
      (fold_left (fun acc byte => (31 * acc + Z.of_N (Byte.to_N byte))%Z)
                 bytes p).
Proof.
  revert p. induction bytes as [|b bytes IH]; intros p; [reflexivity|].
  cbn [fold_left]. rewrite hashStep_polynomial. apply IH.
Qed.

Lemma length_append (s1 s2 : string) :
  String.length (s1 ++ s2) = (String.length s1 + String.length s2)%nat.
Proof. induction s1 as [|c s1 IH]; cbn; [reflexivity | rewrite IH; reflexivity]. Qed.

Lemma length_zeros (n : nat) : String.length (zeros n) = n.
Proof. induction n as [|n IH]; cbn; [reflexivity | rewrite IH; reflexivity]. Qed.

Lemma zeros_add (a b : nat) : zeros (a + b) = (zeros a ++ zeros b)%string.
Proof. induction a as [|a IH]; cbn; [reflexivity | rewrite IH; reflexivity]. Qed.

Lemma append_assoc (s1 s2 s3 : string) :
  ((s1 ++ s2) ++ s3 = s1 ++ (s2 ++ s3))%string.
Proof. induction s1 as [|c s1 IH]; cbn; [reflexivity | rewrite IH; reflexivity]. Qed.

Lemma hexDigit_length (d : Z) : String.length (hexDigit d) = 1%nat.
Proof.
  unfold hexDigit. generalize (Z.to_nat d). intros k.
  do 16 (destruct k as [|k]; [reflexivity|]). destruct k; reflexivity.
Qed.

Lemma hexDigits_length (fuel : nat) (n : Z) :
  (0 <= n < 16 ^ Z.of_nat fuel)%Z -> (0 < fuel)%nat ->
  (1 <= String.length (hexDigits fuel n) <= fuel)%nat.
Proof.
  revert n. induction fuel as [|fuel IH]; intros n Hn Hf; [lia|].
  cbn [hexDigits]. destruct (n <? 16)%Z eqn:E.
  - rewrite hexDigit_length. lia.
  - apply Z.ltb_ge in E. rewrite length_append, hexDigit_length.
    destruct fuel as [|fuel'].
    + cbn in Hn. lia.
    + assert (Hq : (0 <= n / 16 < 16 ^ Z.of_nat (S fuel'))%Z).
      { split; [apply Z.div_pos; lia|].
        apply Z.div_lt_upper_bound; [lia|].
        rewrite <- Z.pow_succ_r by lia. rewrite <- Nat2Z.inj_succ. lia. }
      specialize (IH (n / 16)%Z Hq ltac:(lia)). lia.
Qed.

Lemma toString16_length (x : Z) :
  (- 2 ^ 31 <= x < 2 ^ 31)%Z ->
  (1 <= String.length (toString16 x) <= 9)%nat.
Proof.
  intros Hx. unfold toString16. destruct (x <? 0)%Z eqn:E.
  - apply Z.ltb_lt in E. rewrite length_append. cbn [String.length].
    pose proof (hexDigits_length 8 (- x) ltac:(cbn; lia) ltac:(lia)). lia.
  - apply Z.ltb_ge in E.
    pose proof (hexDigits_length 8 x ltac:(cbn; lia) ltac:(lia)). lia.
Qed.

(** X19.  The hash of a fingerprint is the signed 32-bit residue of the
    polynomial [b0 * 31^(n-1) + ... + b(n-1)] of the bytes of the
    vector, written in hexadecimal (with a minus sign when negative)
    and padded with zeros: a string of exactly 64 characters of which
    at least the first 55 are ['0']. *)
Theorem computeHash_is_32_bits (bytes : Uint8Array) :
  hashLoop bytes = to_int32 (byte_polynomial bytes)
  /\ (- 2 ^ 31 <= hashLoop bytes < 2 ^ 31)%Z
  /\ String.length (computeHash bytes) = 64%nat
  /\ exists tail,
       computeHash bytes = (zeros 55 ++ tail)%string
       /\ String.length tail = 9%nat.
Proof.
  assert (Hloop : hashLoop bytes = to_int32 (byte_polynomial bytes)).
  { unfold hashLoop, byte_polynomial.
    change 0%Z with (to_int32 0) at 1. apply hashLoop_fold. }
  assert (Hrange : (- 2 ^ 31 <= hashLoop bytes < 2 ^ 31)%Z).
  { rewrite Hloop. apply to_int32_range. }
  split; [exact Hloop|]. split; [exact Hrange|].
  unfold computeHash, padStart.
  pose proof (toString16_length _ Hrange) as Hlen.
  set (s := toString16 (hashLoop bytes)) in *.
  split.
  - rewrite length_append, length_zeros. lia.
  - exists (zeros (9 - String.length s) ++ s)%string. split.
    + rewrite <- append_assoc, <- zeros_add. f_equal. f_equal. lia.
    + rewrite length_append, length_zeros. lia.
Qed.

End HashFacts.

(** ** Maps in insertion order *)

Module JSMapFacts.

Section WithValue.

Context {V : Type}.

Implicit Types (m : list (string * V)) (k : string) (v : V).

Lemma get_set_same m k v : JSMap.get (JSMap.set m k v) k = Some v.
Proof.
  induction m as [|[k' v'] m IH]; cbn.
  - rewrite String.eqb_refl. reflexivity.
  - destruct (String.eqb k k') eqn:E; cbn.
    + rewrite String.eqb_refl. reflexivity.
    + rewrite E. exact IH.
Qed.

Lemma get_set_other m k k' v :
  k <> k' -> JSMap.get (JSMap.set m k v) k' = JSMap.get m k'.
Proof.
  intros Hne. induction m as [|[k0 v0] m IH]; cbn.
  - destruct (String.eqb k' k) eqn:E; [|reflexivity].
    apply String.eqb_eq in E. congruence.
  - destruct (String.eqb k k0) eqn:E; cbn.
    + apply String.eqb_eq in E. subst k0.
      destruct (String.eqb k' k) eqn:E'; [|reflexivity].
      apply String.eqb_eq in E'. congruence.
    + rewrite IH. reflexivity.
Qed.

Lemma has_set m k k' v :
  JSMap.has (JSMap.set m k v) k' = JSMap.has m k' || String.eqb k k'.
Proof.
  unfold JSMap.has. destruct (String.eqb k k') eqn:E.
  - apply String.eqb_eq in E. subst k'. rewrite get_set_same.
    rewrite orb_true_r. reflexivity.
  - apply String.eqb_neq in E. rewrite (get_set_other m k k' v E).
    rewrite orb_false_r. reflexivity.
Qed.

Lemma delete_absent m k : JSMap.get m k = None -> JSMap.delete m k = m.
Proof.
  unfold JSMap.delete.
  induction m as [|[k' v'] m IH]; cbn [JSMap.get filter fst]; [reflexivity|].
  destruct (String.eqb k k'); [discriminate|].
  intros H. cbn [negb]. rewrite (IH H). reflexivity.
Qed.

Lemma get_delete_same m k : JSMap.get (JSMap.delete m k) k = None.
Proof.
  unfold JSMap.delete.
  induction m as [|[k' v'] m IH]; cbn [JSMap.get filter fst]; [reflexivity|].
  destruct (String.eqb k k') eqn:E; cbn [negb JSMap.get]; [exact IH|].
  rewrite E. exact IH.
Qed.

Lemma delete_set_fresh m k v :
  JSMap.get m k = None -> JSMap.delete (JSMap.set m k v) k = m.
Proof.
  unfold JSMap.delete.
  induction m as [|[k' v'] m IH]; cbn [JSMap.get JSMap.set filter fst].
  - rewrite String.eqb_refl. reflexivity.
  - destruct (String.eqb k k') eqn:E; [discriminate|].
    intros H. cbn [filter fst]. rewrite E. cbn [negb].
    rewrite (IH H). reflexivity.
Qed.

Lemma get_absent m k : ~ In k (JSMap.keys m) -> JSMap.get m k = None.
Proof.
  induction m as [|[k' v'] m IH]; cbn; [reflexivity|].
  intros H. destruct (String.eqb k k') eqn:E.
  - apply String.eqb_eq in E. subst k'. exfalso. apply H. left. reflexivity.
  - apply IH. intros Hin. apply H. right. exact Hin.
Qed.

(** A key of the map is found, with the value of its first entry. *)
Lemma get_present m k v :
  In (k, v) m -> exists v', JSMap.get m k = Some v' /\ In (k, v') m.
Proof.
  induction m as [|[k' v'] m IH]; cbn; [contradiction|].
  intros [H | H].
  - injection H as -> ->. rewrite String.eqb_refl.
    exists v. split; [reflexivity | left; reflexivity].
  - destruct (String.eqb k k') eqn:E.
    + apply String.eqb_eq in E. subst k'.
      exists v'. split; [reflexivity | left; reflexivity].
    + destruct (IH H) as [v0 [Hget Hin]]. exists v0.
      split; [exact Hget | right; exact Hin].
Qed.

End WithValue.

End JSMapFacts.

(** ** The transport manager *)

Module TransportFacts.

Import MeshTransportManager.

Section WithEnvironment.

Variable now : string.
Variable myPeerId : string.
Variable secureRandom : Z -> Uint8Array.

Lemma activePeers_disconnectPeer (s : State) (k : string) :
  activePeers (disconnectPeer now s k) = JSMap.delete (activePeers s) k
  /\ discoveredPeers (disconnectPeer now s k) = discoveredPeers s
  /\ isDiscovering (disconnectPeer now s k) = isDiscovering s.
Proof.
  unfold disconnectPeer. destruct (JSMap.get (activePeers s) k) eqn:E.
  - repeat split.
  - rewrite (JSMapFacts.delete_absent _ _ E). repeat split.
Qed.

Lemma disconnectPeer_absent (s : State) (k : string) :
  JSMap.get (activePeers s) k = None -> disconnectPeer now s k = s.
Proof. intros H. unfold disconnectPeer. rewrite H. reflexivity. Qed.

(** The loop of [stopDiscovery] over a map without repeated keys. *)
Lemma stop_loop (m : list (string * Connection)) (s : State) :
  activePeers s = m ->
  NoDup (JSMap.keys m) ->
  fold_left (disconnectPeer now) (JSMap.keys m) s
  = {| discoveredPeers := discoveredPeers s;
       activePeers := [];
       isDiscovering := isDiscovering s;
       emitted :=
         emitted s ++ map (fun k => PeerDisconnected k now) (JSMap.keys m) |}.
Proof.
  revert s. induction m as [|[k c] m IH]; intros s Hs Hnd.
  - cbn. rewrite app_nil_r. destruct s; cbn in *. subst. reflexivity.
  - cbn [JSMap.keys map fst fold_left] in *.
    inversion Hnd as [|? ? Hk Hnd']; subst.
    unfold disconnectPeer at 2. rewrite Hs. cbn [JSMap.get].
    rewrite String.eqb_refl.
    rewrite IH.
    + cbn. rewrite <- app_assoc. reflexivity.
    + cbn. rewrite String.eqb_refl. cbn.
      apply JSMapFacts.delete_absent, JSMapFacts.get_absent. exact Hk.
    + exact Hnd'.
Qed.

(** X22.  [stopDiscovery] clears the discovery flag and closes every
    connection: afterwards no peer is connected (so a fingerprint request
    to any peer is refused), one ['peer-disconnected'] event has been
    emitted per connection, in order, and the discovered peers are still
    known. *)
Theorem stopDiscovery_disconnects_all (s : State) :
  NoDup (JSMap.keys (activePeers s)) ->
  stopDiscovery now s
  = {| discoveredPeers := discoveredPeers s;
       activePeers := [];
       isDiscovering := false;
       emitted :=
         emitted s
         ++ map (fun k => PeerDisconnected k now) (JSMap.keys (activePeers s)) |}
  /\ forall peerId request,
       sendFingerprintRequest now myPeerId secureRandom
         (stopDiscovery now s) peerId request
       = Throw (Rejected ("Not connected to peer " ++ peerId)).
Proof.
  intros Hnd.
  assert (Hstop : stopDiscovery now s
                  = {| discoveredPeers := discoveredPeers s;
                       activePeers := [];
                       isDiscovering := false;
                       emitted :=
                         emitted s
                         ++ map (fun k => PeerDisconnected k now)
                                (JSMap.keys (activePeers s)) |}).
  { unfold stopDiscovery.
    rewrite (stop_loop (activePeers s)); [reflexivity | reflexivity | exact Hnd]. }
  split; [exact Hstop|].
  intros k request. rewrite Hstop. reflexivity.
Qed.

(** X21.  [connectToPeer] refuses a peer that was not discovered and
    leaves the manager as it was; for a discovered peer it always
    succeeds, however many connections are open ([maxConnections] is
    not consulted), and emits ['peer-connected'].  Disconnecting a peer
    that was just connected restores the connections; disconnecting
    twice is disconnecting once. *)
Theorem connect_then_disconnect (s : State) (id : string) :
  (JSMap.get (discoveredPeers s) id = None ->
   connectToPeer now s id = Throw (Rejected ("Peer " ++ id ++ " not found")))
  /\ (forall peer,
         JSMap.get (discoveredPeers s) id = Some peer ->
         peerId peer = id ->
         exists s',
           connectToPeer now s id = Ok s'
           /\ JSMap.has (activePeers s') id = true
           /\ discoveredPeers s' = discoveredPeers s
           /\ emitted s' = emitted s ++ [PeerConnected peer now]
           /\ (JSMap.has (activePeers s) id = false ->
               activePeers (disconnectPeer now s' id) = activePeers s
               /\ emitted (disconnectPeer now s' id)
                  = emitted s ++ [PeerConnected peer now; PeerDisconnected id now]))
  /\ disconnectPeer now (disconnectPeer now s id) id = disconnectPeer now s id.
Proof.
  split; [|split].
  - intros H. unfold connectToPeer. rewrite H. reflexivity.
  - intros peer Hget Hid. subst id. unfold connectToPeer. rewrite Hget.
    eexists. split; [reflexivity|].
    unfold disconnectPeer, emit, connect.
    cbn [activePeers discoveredPeers emitted isDiscovering].
    split; [|split; [reflexivity | split; [reflexivity|]]].
    + unfold JSMap.has. rewrite JSMapFacts.get_set_same. reflexivity.
    + intros Hnot. unfold JSMap.has in Hnot.
      destruct (JSMap.get (activePeers s) (peerId peer)) eqn:E; [discriminate|].
      rewrite JSMapFacts.get_set_same.
      cbn [activePeers emitted].
      rewrite (JSMapFacts.delete_set_fresh _ _ _ E), <- app_assoc.
      split; reflexivity.
  - apply disconnectPeer_absent.
    destruct (activePeers_disconnectPeer s id) as [-> _].
    apply JSMapFacts.get_delete_same.
Qed.

(** One round of [requestComparisons] for a peer whose id is a key of the
    discovered peers. *)
Lemma requestFrom_round (mediaItemId fingerprintHash : string)
  (s : State) (reports : list ReportObject) (peer : MeshPeer) :
  keyed_by_id s ->
  In (peerId peer, peer) (discoveredPeers s) ->
  exists s',
    requestFrom now myPeerId secureRandom mediaItemId fingerprintHash
                (s, reports) peer
    = (s', reports ++ [EmptyObject])
    /\ discoveredPeers s' = discoveredPeers s
    /\ JSMap.has (activePeers s') (peerId peer) = true
    /\ forall k, JSMap.has (activePeers s) k = true ->
                 JSMap.has (activePeers s') k = true.
Proof.
  intros Hkeys Hin. unfold requestFrom.
  destruct (JSMap.has (activePeers s) (peerId peer)) eqn:Hhas.
  - exists s. pose proof Hhas as Hget. unfold JSMap.has in Hget.
    destruct (JSMap.get (activePeers s) (peerId peer)) eqn:E; [|discriminate].
    unfold sendFingerprintRequest, sendMessage. rewrite E.
    cbn [bind payload signedReport].
    split; [reflexivity|]. split; [reflexivity|]. split; [exact Hhas|].
    intros k Hk. exact Hk.
  - destruct (JSMapFacts.get_present _ _ _ Hin) as [peer' [Hget Hin']].
    pose proof (Hkeys _ _ Hin') as Hid.
    unfold connectToPeer. rewrite Hget.
    eexists. unfold sendFingerprintRequest, sendMessage, emit, connect.
    cbn [activePeers]. rewrite Hid.
    rewrite JSMapFacts.get_set_same. cbn [bind payload signedReport].
    split; [reflexivity|]. cbn [discoveredPeers activePeers].
    split; [reflexivity|]. split.
    + unfold JSMap.has. rewrite JSMapFacts.get_set_same. reflexivity.
    + intros k Hk. rewrite JSMapFacts.has_set, Hk. reflexivity.
Qed.

Lemma requestComparisons_loop (mediaItemId fingerprintHash : string)
  (peers : list MeshPeer) (s : State) (reports : list ReportObject) :
  keyed_by_id s ->
  (forall peer, In peer peers -> In (peerId peer, peer) (discoveredPeers s)) ->
  exists s',
    fold_left (requestFrom now myPeerId secureRandom mediaItemId fingerprintHash)
              peers (s, reports)
    = (s', reports ++ map (fun _ => EmptyObject) peers)
    /\ discoveredPeers s' = discoveredPeers s
    /\ (forall peer, In peer peers ->
                     JSMap.has (activePeers s') (peerId peer) = true)
    /\ forall k, JSMap.has (activePeers s) k = true ->
                 JSMap.has (activePeers s') k = true.
Proof.
  revert s reports. induction peers as [|peer peers IH]; intros s reports Hkeys Hin.
  - exists s. cbn. rewrite app_nil_r. repeat split.
    + intros peer [].
    + intros k Hk. exact Hk.
  - cbn [fold_left map].
    destruct (requestFrom_round mediaItemId fingerprintHash s reports peer Hkeys
                (Hin peer (or_introl eq_refl)))
      as [s1 [-> [Hdisc [Hhas Hmono]]]].
    assert (Hkeys1 : keyed_by_id s1).
    { unfold keyed_by_id. rewrite Hdisc. exact Hkeys. }
    destruct (IH s1 (reports ++ [EmptyObject]) Hkeys1) as [s' [-> [Hd' [Hh' Hm']]]].
    { intros p Hp. rewrite Hdisc. apply Hin. right. exact Hp. }
    exists s'. rewrite <- app_assoc. split; [reflexivity|].
    split; [congruence|]. split.
    + intros p [<- | Hp]; [apply Hm'; exact Hhas | apply Hh'; exact Hp].
    + intros k Hk. apply Hm', Hmono, Hk.
Qed.

(** X20.  [requestComparisons] raises nothing and returns one report per
    discovered peer, in order - each of them the empty object that the
    mock of [sendMessage] answers with, never a report with a score.
    Afterwards every discovered peer is connected, and the peers that
    were connected still are. *)
Theorem requestComparisons_reports (s : State) (mediaItemId fingerprintHash : string) :
  keyed_by_id s ->
  exists s',
    requestComparisons now myPeerId secureRandom s mediaItemId fingerprintHash
    = (s', map (fun _ => EmptyObject) (getDiscoveredPeers s))
    /\ discoveredPeers s' = discoveredPeers s
    /\ (forall peer, In peer (getDiscoveredPeers s) ->
                     JSMap.has (activePeers s') (peerId peer) = true)
    /\ forall k, JSMap.has (activePeers s) k = true ->
                 JSMap.has (activePeers s') k = true.
Proof.
  intros Hkeys. unfold requestComparisons. cbv zeta.
  apply (requestComparisons_loop mediaItemId fingerprintHash
           (getDiscoveredPeers s) s [] Hkeys).
  intros peer Hp. unfold getDiscoveredPeers, JSMap.values in Hp.
  apply in_map_iff in Hp. destruct Hp as [[k p] [Hsnd Hin]].
  cbn in Hsnd. subst p. rewrite (Hkeys _ _ Hin). exact Hin.
Qed.

End WithEnvironment.

Lemma sample_manager_keyed : keyed_by_id sample_manager.
Proof.
  intros k peer Hin. cbn in Hin.
  destruct Hin as [H | [H | []]]; injection H as <- <-; reflexivity.
Qed.

Lemma requestComparisons_reports_witness :
  exists s',
    requestComparisons "now" "me" (fun _ => []) sample_manager "media-1" "abc"
    = (s', [EmptyObject; EmptyObject]).
Proof.
  destruct (requestComparisons_reports "now" "me" (fun _ => []) sample_manager
              "media-1" "abc" sample_manager_keyed) as [s' [H _]].
  exists s'. exact H.
Defined.

Lemma connect_then_disconnect_witness :
  exists s',
    connectToPeer "now" sample_manager "b" = Ok s'
    /\ JSMap.has (activePeers s') "b" = true
    /\ activePeers (disconnectPeer "now" s' "b") = activePeers sample_manager.
Proof.
  destruct (connect_then_disconnect "now" sample_manager "b") as [_ [H _]].
  destruct (H (sample_peer "b") eq_refl eq_refl)
    as [s' [Hc [Hhas [_ [_ Hback]]]]].
  exists s'. split; [exact Hc|]. split; [exact Hhas|].
  apply Hback. reflexivity.
Defined.

Lemma stopDiscovery_disconnects_all_witness :
  activePeers (stopDiscovery "now" sample_manager) = []
  /\ emitted (stopDiscovery "now" sample_manager) = [PeerDisconnected "a" "now"].
Proof.
  destruct (stopDiscovery_disconnects_all "now" "me" (fun _ => []) sample_manager)
    as [H _].
  - cbn. repeat constructor. intros [].
  - rewrite H. split; reflexivity.
Defined.

End TransportFacts.

(** ** Fingerprints of [NaN] *)

Module NaNFacts.

Import MainsHumExtractor.

Lemma all_nan_repeat (k : nat) : all_nan (repeat JS.NaN k).
Proof. unfold all_nan. apply Forall_forall. intros x Hx. apply repeat_spec in Hx. congruence. Qed.

Lemma all_nan_firstn (v : list number) (k : nat) : all_nan v -> all_nan (firstn k v).
Proof.
  unfold all_nan. intros H. rewrite <- (firstn_skipn k v) in H.
  apply Forall_app in H. exact (proj1 H).
Qed.

Lemma all_nan_skipn (v : list number) (k : nat) : all_nan v -> all_nan (skipn k v).
Proof.
  unfold all_nan. intros H. rewrite <- (firstn_skipn k v) in H.
  apply Forall_app in H. exact (proj2 H).
Qed.

Lemma all_nan_slice (v : list number) (start stop : number) :
  all_nan v -> all_nan (JS.slice v start stop).
Proof. intros H. unfold JS.slice. apply all_nan_firstn, all_nan_skipn, H. Qed.

(** Reading a vector of [NaN], inside or outside its bounds. *)
Lemma getN_nan (v : list number) (i : nat) : all_nan v -> JS.getN v i = JS.NaN.
Proof.
  unfold all_nan. intros H. unfold JS.getN.
  destruct (Nat.lt_ge_cases i (List.length v)) as [Hi | Hi].
  - rewrite Forall_forall in H. symmetry. apply H, nth_In, Hi.
  - apply nth_overflow. exact Hi.
Qed.

Lemma getZ_nan (v : list number) (j : Z) : all_nan v -> JS.getZ v j = JS.NaN.
Proof.
  intros H. unfold JS.getZ. destruct (j <? 0)%Z; [reflexivity|].
  apply getN_nan, H.
Qed.

Lemma get_nan (v : list number) (i : number) : all_nan v -> JS.get v i = JS.NaN.
Proof.
  intros H. unfold JS.get. destruct (JS.to_integer i); [|reflexivity].
  apply getZ_nan, H.
Qed.

Lemma all_nan_map_seq (g : nat -> number) (n : nat) :
  (forall i, (i < n)%nat -> g i = JS.NaN) -> all_nan (map g (seq 0 n)).
Proof.
  intros H. unfold all_nan. apply Forall_forall. intros x Hx.
  apply in_map_iff in Hx.
  destruct Hx as [i [<- Hi]]. apply in_seq in Hi. symmetry. apply H. lia.
Qed.

Lemma add_nan_r (x : number) : (x + JS.NaN)%js = JS.NaN.
Proof. destruct x; reflexivity. Qed.

Lemma add_nan_r_mul (x y : number) : (x + y * JS.NaN)%js = JS.NaN.
Proof. destruct x, y; reflexivity. Qed.

Lemma applyHammingWindow_nan (frame : Float32Array) :
  all_nan frame -> all_nan (applyHammingWindow frame).
Proof.
  intros H. unfold applyHammingWindow. apply all_nan_map_seq. intros i _.
  cbv zeta. rewrite (getN_nan frame i H). reflexivity.
Qed.

Lemma dft_bin_nan (input : Float32Array) (k : nat) :
  all_nan input -> input <> [] -> dft_bin input k = (JS.NaN, JS.NaN).
Proof.
  intros H Hne. rewrite StepFacts.dft_bin_fold.
  destruct input as [|x input']; [congruence|].
  set (input := x :: input') in *.
  change (List.length input) with (S (List.length input')).
  cbn [seq fold_left].
  assert (Hfirst : dft_step input k (JS.Fin 0, JS.Fin 0) 0%nat = (JS.NaN, JS.NaN)).
  { unfold dft_step. rewrite (getN_nan input 0 H). reflexivity. }
  rewrite Hfirst.
  apply (SearchFacts.fold_left_invariant (fun st => st = (JS.NaN, JS.NaN)));
    [reflexivity|].
  intros st t _ ->. unfold dft_step. rewrite (getN_nan input t H). reflexivity.
Qed.

Lemma fft_nan (input : Float32Array) : all_nan input -> all_nan (fft input).
Proof.
  intros H. unfold fft, all_nan. apply Forall_flat_map.
  apply Forall_forall. intros k Hk. apply in_seq in Hk.
  assert (Hne : input <> []) by (intros ->; cbn in Hk; lia).
  rewrite (dft_bin_nan input k H Hne). repeat constructor.
Qed.

(** The magnitude of any bin of a frame of [NaN] is [NaN]. *)
Lemma bin_magnitude_fft_nan (frame : Float32Array) (bin : number) :
  all_nan frame -> bin_magnitude (fft frame) bin = JS.NaN.
Proof.
  intros H. unfold bin_magnitude.
  rewrite !get_nan by (apply fft_nan, H).
  reflexivity.
Qed.

Lemma bin_magnitude_nan (frame : Float32Array) (bin : number) :
  all_nan frame ->
  bin_magnitude (fft (applyHammingWindow frame)) bin = JS.NaN.
Proof. intros H. apply bin_magnitude_fft_nan, applyHammingWindow_nan, H. Qed.

Lemma min_fold_nan (v : list number) : fold_left JS.min v JS.NaN = JS.NaN.
Proof. induction v as [|x v IH]; [reflexivity | exact IH]. Qed.

Lemma max_fold_nan (v : list number) : fold_left JS.max v JS.NaN = JS.NaN.
Proof. induction v as [|x v IH]; [reflexivity | exact IH]. Qed.

Lemma normalize_nan (k : nat) : normalize (repeat JS.NaN k) = repeat JS.NaN k.
Proof.
  destruct k as [|k]; [reflexivity|].
  unfold normalize, JS.min_list, JS.max_list. cbn [repeat fold_left JS.min JS.max].
  rewrite min_fold_nan, max_fold_nan. cbn [JS.sub JS.neg JS.add JS.eq].
  change (JS.NaN :: repeat JS.NaN k) with (repeat JS.NaN (S k)).
  rewrite <- (map_id (repeat JS.NaN (S k))) at 2.
  apply map_ext_in. intros x Hx. apply repeat_spec in Hx. subst x. reflexivity.
Qed.

Lemma frameMagnitudes_nan (config : FingerprintConfig) (data : Float32Array)
  (sampleRate targetFreq : number) (numFrames : nat) :
  all_nan data ->
  frameMagnitudes config data sampleRate targetFreq numFrames
  = repeat JS.NaN numFrames.
Proof.
  intros H. unfold frameMagnitudes. cbv zeta.
  apply StepFacts.map_const_seq. intros i _.
  apply bin_magnitude_nan, all_nan_slice, H.
Qed.

(** *** Comparing vectors of [NaN] *)

Lemma correlationAt_nan (k1 k2 : nat) (offset : Z) :
  let minLength := Nat.min k1 k2 in
  (0 < minLength)%nat ->
  (- Z.of_nat (minLength / 2) <= offset <= Z.of_nat (minLength / 2))%Z ->
  correlationAt (repeat JS.NaN k1) (repeat JS.NaN k2) minLength offset = JS.NaN.
Proof.
  intros minLength Hpos Hoff. unfold correlationAt.
  rewrite repeat_length.
  match goal with
  | |- context [fold_left ?f _ _] => set (step := f)
  end.
  (* the index whose partner is inside the second vector *)
  set (i0 := Z.to_nat (Z.max 0 (- offset))).
  assert (Hhalf : (minLength / 2 < minLength)%nat)
    by (apply Nat.div_lt; lia).
  assert (Hi0 : (i0 < minLength)%nat) by (unfold i0; lia).
  assert (Hj0 : (0 <= Z.of_nat i0 + offset < Z.of_nat k2)%Z)
    by (unfold i0, minLength in *; lia).
  assert (Hsplit : seq 0 minLength = seq 0 i0 ++ i0 :: seq (S i0) (minLength - S i0)).
  { replace minLength with (i0 + S (minLength - S i0))%nat at 1 by lia.
    rewrite seq_app. reflexivity. }
  rewrite Hsplit, fold_left_app. cbn [fold_left].
  destruct (fold_left step (seq 0 i0) (JS.Fin 0, 0%nat)) as [sum count].
  assert (Hstep : step (sum, count) i0 = (JS.NaN, S count)).
  { unfold step.
    replace ((0 <=? Z.of_nat i0 + offset)%Z && (Z.of_nat i0 + offset <? Z.of_nat k2)%Z)
      with true
      by (symmetry; apply andb_true_iff; split;
          [apply Z.leb_le | apply Z.ltb_lt]; lia).
    rewrite (getZ_nan _ _ (all_nan_repeat k2)). rewrite add_nan_r_mul. reflexivity. }
  rewrite Hstep.
  assert (Hrest : exists count',
             fold_left step (seq (S i0) (minLength - S i0)) (JS.NaN, S count)
             = (JS.NaN, S count')).
  { apply (SearchFacts.fold_left_invariant
             (fun st => exists count', st = (JS.NaN, S count'))).
    - exists count. reflexivity.
    - intros st i _ [c ->]. unfold step.
      destruct ((0 <=? Z.of_nat i + offset)%Z
                && (Z.of_nat i + offset <? Z.of_nat k2)%Z).
      + exists (S c). reflexivity.
      + exists c. reflexivity. }
  destruct Hrest as [count' ->]. reflexivity.
Qed.

Lemma crossCorrelate_nan (k1 k2 : nat) :
  (0 < k1)%nat -> (0 < k2)%nat ->
  crossCorrelate (repeat JS.NaN k1) (repeat JS.NaN k2) = (JS.NInf, 0%Z).
Proof.
  intros H1 H2. rewrite SearchFacts.crossCorrelate_fold, !repeat_length.
  apply (SearchFacts.fold_left_invariant (fun st => st = (JS.NInf, 0%Z)));
    [reflexivity|].
  intros st o Ho ->. apply SearchFacts.in_offsets in Ho.
  unfold search_step. rewrite correlationAt_nan by lia. reflexivity.
Qed.

(** [cosineSimilarity] when the first vector is of [NaN]: the first norm
    is [NaN], so the magnitude is not above 0. *)
Lemma cosineSimilarity_nan (k1 : nat) (vector2 : Float32Array) :
  cosineSimilarity (repeat JS.NaN k1) vector2 = JS.Fin 0.
Proof.
  unfold cosineSimilarity. cbv zeta. rewrite repeat_length.
  match goal with
  | |- context [fold_left ?f _ _] => set (step := f)
  end.
  destruct (Nat.min k1 (List.length vector2)) as [|m].
  - cbn [seq fold_left JS.mul]. unfold JS.sqrt.
    rewrite (Rltb_false (0 * 0) 0) by lra.
    unfold JS.gt. cbn [JS.lt].
    rewrite Rltb_false; [reflexivity|].
    replace (0 * 0) with 0 by lra. rewrite sqrt_0. lra.
  - cbn [seq fold_left].
    assert (Hinv : exists d n2,
               fold_left step (seq 1 m) (step (JS.Fin 0, JS.Fin 0, JS.Fin 0) 0%nat)
               = (d, JS.NaN, n2)).
    { apply (SearchFacts.fold_left_invariant
               (fun st => exists d n2, st = (d, JS.NaN, n2))).
      - unfold step. rewrite (getN_nan _ 0 (all_nan_repeat k1)).
        eexists _, _. reflexivity.
      - intros st i _ [d [n2 ->]]. unfold step. eexists _, _. reflexivity. }
    destruct Hinv as [d [n2 ->]]. reflexivity.
Qed.

Section WithConfig.

Variable config : FingerprintConfig.

(** X24.  Two fingerprints whose vectors are non-empty and hold [NaN]
    only, with mains frequencies within 5 Hz of each other: [compare]
    returns a correlation and a similarity of [-Infinity] and the
    proximity ['unknown']; the confidence is ['low'] when an extraction
    quality is [NaN] too. *)
Theorem compare_nan_vectors (fingerprint1 fingerprint2 : Fingerprint) (k1 k2 : nat) :
  vector fingerprint1 = repeat JS.NaN (S k1) ->
  vector fingerprint2 = repeat JS.NaN (S k2) ->
  (JS.abs (mainsFrequency fingerprint1 - mainsFrequency fingerprint2) >? 5)%js
  = false ->
  let r := compare config fingerprint1 fingerprint2 in
  correlation r = JS.NInf
  /\ similarity r = JS.NInf
  /\ proximityEstimate r = unknown
  /\ (extractionQuality fingerprint1 = JS.NaN -> confidence r = low).
Proof.
  intros Hv1 Hv2 Hsame. cbv zeta. unfold compare.
  rewrite Hsame, Hv1, Hv2.
  rewrite crossCorrelate_nan by lia.
  rewrite cosineSimilarity_nan.
  cbn [correlation similarity proximityEstimate confidence].
  assert (Hsim : ((JS.NInf + JS.Fin 0) / 2)%js = JS.NInf).
  { cbn [JS.add JS.div]. rewrite Rltb_false by lra. reflexivity. }
  rewrite Hsim. repeat split.
  intros ->. reflexivity.
Qed.

End WithConfig.

(** *** Recordings at a low sample rate *)

Lemma reduce_sum_nan (f : number -> number) (k : nat) :
  f JS.NaN = JS.NaN -> reduce_sum f (repeat JS.NaN (S k)) = JS.NaN.
Proof.
  intros Hf. unfold reduce_sum. cbn [repeat fold_left]. rewrite Hf, add_nan_r.
  apply (SearchFacts.fold_left_invariant (fun acc => acc = JS.NaN));
    [reflexivity|].
  intros acc x _ ->. reflexivity.
Qed.

Lemma assessExtractionQuality_nan (k : nat) :
  assessExtractionQuality (repeat JS.NaN (S k)) = JS.NaN.
Proof.
  unfold assessExtractionQuality. cbv zeta.
  rewrite (reduce_sum_nan (fun val => val)) by reflexivity.
  cbn [JS.div].
  rewrite (reduce_sum_nan (fun val => JS.sq (val - JS.NaN)%js)) by reflexivity.
  reflexivity.
Qed.

(** On data of [NaN] no bin has a magnitude above the running maximum:
    the detected bin is the first one. *)
Lemma detectMainsFrequency_nan (data : Float32Array) (r : R) :
  all_nan data -> 0 < r < 55 ->
  detectMainsFrequency data (JS.Fin r) = JS.Fin 50.
Proof.
  intros H Hr. unfold detectMainsFrequency. cbv zeta.
  rewrite !StatFacts.div_fin by lra.
  cbn [JS.floor JS.ceil].
  set (res := r / 8192).
  assert (Hres : 0 < res < 1) by (unfold res; lra).
  set (start := Zfloor (45 / res)).
  match goal with
  | |- context [fold_left ?f ?l ?a] =>
      assert (Hfold : fold_left f l a = a)
  end.
  { apply (SearchFacts.fold_left_invariant
             (fun st => st = (JS.Fin 0, JS.Fin (IZR start)))); [reflexivity|].
    intros st i _ ->. cbv beta iota.
    rewrite (bin_magnitude_fft_nan _ _ (all_nan_slice _ _ _ H)).
    reflexivity. }
  rewrite Hfold. cbn [JS.mul JS.sub JS.neg JS.add JS.abs JS.lt].
  pose proof (Zfloor_bound (45 / res)) as [Hlo Hhi]. fold start in Hlo, Hhi.
  assert (Hx : 45 / res * res = 45) by (field; lra).
  assert (Hd1 : IZR start * res <= 45).
  { rewrite <- Hx. apply Rmult_le_compat_r; lra. }
  assert (Hd2 : 44 < IZR start * res).
  { assert (45 / res * res < (IZR start + 1) * res)
      by (apply Rmult_lt_compat_r; lra).
    lra. }
  rewrite Rltb_true; [reflexivity|].
  rewrite !Rabs_left by lra. lra.
Qed.

Lemma default_frame_count (data : Float32Array) :
  (4096 <= Z.of_nat (List.length data))%Z ->
  typed_array_length
    (JS.floor ((JS.len data - fftWindowSize DEFAULT_FINGERPRINT_CONFIG)
               / hopSize DEFAULT_FINGERPRINT_CONFIG)%js)
  = Ok (Z.to_nat ((Z.of_nat (List.length data) - 4096) / 2048)).
Proof.
  intros Hn. unfold JS.len. rewrite INR_IZR_INZ.
  cbn [fftWindowSize hopSize DEFAULT_FINGERPRINT_CONFIG JS.sub JS.neg JS.add JS.div].
  rewrite Reqb_false by lra. cbn [JS.floor].
  set (n := Z.of_nat (List.length data)) in *.
  replace (IZR n + - (4096)) with (IZR (n - 4096))
    by (rewrite minus_IZR; lra).
  rewrite FrameFacts.Zfloor_div by lia.
  unfold typed_array_length. rewrite FrameFacts.trunc_IZR.
  assert (Hpos : (0 <= (n - 4096) / 2048)%Z) by (apply Z.div_pos; lia).
  destruct ((n - 4096) / 2048 <? 0)%Z eqn:E; [apply Z.ltb_lt in E; lia|].
  reflexivity.
Qed.

Section Run.

Variable computeHash : Float32Array -> string.
Variable now : string.

(** X23.  Under the default configuration, a recording of at least 4096
    samples at a sample rate [r] with [1 <= r < 55] is accepted by
    [extract], whatever its samples are, and its fingerprint is void: a
    vector of [floor ((n - 4096) / 2048)] values that are all [NaN], with
    the mains frequency 50 and, when the vector is not empty, an
    extraction quality of [NaN]. *)
Theorem extract_low_rate (audioData : AudioData) (r : R) :
  let n := Z.of_nat (audio_length audioData) in
  1 <= r < 55 ->
  (4096 <= n)%Z ->
  exists fp,
    extract DEFAULT_FINGERPRINT_CONFIG computeHash now audioData
            (Some (JS.Fin r)) = Ok fp
    /\ vector fp = repeat JS.NaN (Z.to_nat ((n - 4096) / 2048))
    /\ mainsFrequency fp = JS.Fin 50
    /\ ((6144 <= n)%Z -> extractionQuality fp = JS.NaN).
Proof.
  intros n Hr Hn. unfold extract. cbv zeta.
  change (minDuration DEFAULT_FINGERPRINT_CONFIG) with (JS.Fin 5).
  change (lowCutoff DEFAULT_FINGERPRINT_CONFIG) with (JS.Fin 45).
  change (highCutoff DEFAULT_FINGERPRINT_CONFIG) with (JS.Fin 65).
  assert (HnR : 4096 <= INR (audio_length audioData)).
  { rewrite INR_IZR_INZ. apply IZR_le. exact Hn. }
  cbn [JS.mul JS.lt]. rewrite Rltb_false by lra.
  rewrite (FilterFacts.bandpassFilter_low_rate _ r 45 65) by lra.
  rewrite FrameFacts.toFloat32_length.
  set (data := repeat JS.NaN (audio_length audioData)).
  assert (Hdata : all_nan data) by apply all_nan_repeat.
  assert (Hlen : List.length data = audio_length audioData)
    by apply repeat_length.
  rewrite (detectMainsFrequency_nan data r Hdata) by lra.
  unfold extractFingerprintVector.
  rewrite default_frame_count by (rewrite Hlen; exact Hn).
  cbn [bind]. rewrite Hlen. fold n.
  rewrite (frameMagnitudes_nan _ _ _ _ _ Hdata), normalize_nan.
  eexists. split; [reflexivity|].
  cbn [vector mainsFrequency extractionQuality].
  split; [reflexivity|]. split; [reflexivity|].
  intros Hframe.
  assert (Hk : (1 <= (n - 4096) / 2048)%Z)
    by (apply Z.div_le_lower_bound; lia).
  destruct (Z.to_nat ((n - 4096) / 2048)) as [|k] eqn:E; [lia|].
  apply assessExtractionQuality_nan.
Qed.

End Run.

Lemma extract_low_rate_witness :
  exists fp,
    extract DEFAULT_FINGERPRINT_CONFIG (fun _ => ""%string) "now"
            (Float32Samples step_audio) (Some (JS.Fin 50)) = Ok fp
    /\ vector fp = [JS.NaN]
    /\ extractionQuality fp = JS.NaN.
Proof.
  destruct (extract_low_rate (fun _ => ""%string) "now"
              (Float32Samples step_audio) 50) as [fp [Hfp [Hv [_ Hq]]]].
  - lra.
  - cbn [audio_length]. rewrite StepFacts.step_length. lia.
  - exists fp. split; [exact Hfp|]. split.
    + rewrite Hv. cbn [audio_length]. rewrite StepFacts.step_length. reflexivity.
    + apply Hq. cbn [audio_length]. rewrite StepFacts.step_length. lia.
Defined.

Lemma compare_nan_vectors_witness :
  similarity (compare DEFAULT_FINGERPRINT_CONFIG nan_fingerprint nan_fingerprint)
  = JS.NInf
  /\ confidence (compare DEFAULT_FINGERPRINT_CONFIG nan_fingerprint nan_fingerprint)
     = low.
Proof.
  destruct (compare_nan_vectors DEFAULT_FINGERPRINT_CONFIG
              nan_fingerprint nan_fingerprint 0 0 eq_refl eq_refl
              (CompareFacts.same_mains_frequency _))
    as [_ [Hsim [_ Hconf]]].
  split; [exact Hsim | apply Hconf; reflexivity].
Defined.

End NaNFacts.

(** ** A score of [NaN] among the reports *)

Module PoisonFacts.

Import ConfidenceAggregator TamperDetectionAnalyzer.

Lemma fold_add_nan (f : number -> number) (l : list number) :
  fold_left (fun acc val => (acc + f val)%js) l JS.NaN = JS.NaN.
Proof. induction l as [|x l IH]; [reflexivity | exact IH]. Qed.

Lemma reduce_sum_poisoned (f : number -> number) (l : list number) :
  (exists v, In v l /\ f v = JS.NaN) -> reduce_sum f l = JS.NaN.
Proof.
  unfold reduce_sum. generalize (JS.Fin 0). intros a [v [Hin Hv]].
  revert a. induction l as [|x l IH]; intros a; [contradiction|].
  cbn [fold_left]. destruct Hin as [-> | Hin].
  - rewrite Hv, NaNFacts.add_nan_r. apply fold_add_nan.
  - apply IH. exact Hin.
Qed.

(** Mean and deviation of scores one of which is [NaN]. *)
Lemma poisoned_statistics (scores : list number) (threshold : number) :
  In JS.NaN scores ->
  (threshold <? 0)%js = false ->
  computeMean scores = JS.NaN
  /\ computeStdDev scores JS.NaN = JS.NaN
  /\ detectOutliers scores JS.NaN JS.NaN threshold = map (fun _ => false) scores
  /\ assessConsensus scores JS.NaN = low.
Proof.
  intros Hin Hthr.
  assert (Hlen : (JS.len scores === 0)%js = false).
  { destruct scores; [contradiction | apply len_cons]. }
  assert (Hmean : computeMean scores = JS.NaN).
  { unfold computeMean. rewrite Hlen.
    rewrite (reduce_sum_poisoned (fun val => val)) by (exists JS.NaN; auto).
    reflexivity. }
  assert (Hsd : computeStdDev scores JS.NaN = JS.NaN).
  { unfold computeStdDev. rewrite Hlen. cbv zeta.
    rewrite (reduce_sum_poisoned (fun val => JS.sq (val - JS.NaN)%js))
      by (exists JS.NaN; auto).
    reflexivity. }
  split; [exact Hmean|]. split; [exact Hsd|]. split.
  - unfold detectOutliers. apply map_ext. intros v.
    unfold zScore. cbn [JS.gt JS.lt]. exact Hthr.
  - unfold assessConsensus. rewrite Hlen. cbv zeta. rewrite Hmean, Hsd.
    unfold JS.gt. cbn [JS.lt]. rewrite !Rltb_false by lra. reflexivity.
Qed.

Section WithEnvironment.

Variable crypto_verify : Uint8Array -> Uint8Array -> Uint8Array -> option bool.
Variable encodeReport : string -> number -> string -> Uint8Array.
Variable percent : number -> string.

(** X25.  A report whose score is [NaN] - which [validateReports] lets
    through - voids the aggregation: when one of the reports that
    survive signature verification has the score [NaN] (and the
    threshold is not negative), [aggregate] excludes nothing and returns
    an aggregated score and a standard deviation of [NaN] with the
    consensus ['low']; [analyzeTampering] then sees the single indicator
    'Low peer consensus': risk ['medium'], tampering not likely. *)
Theorem nan_score_voids_aggregation
  (reports : list PeerReport) (options : Options) :
  let survivors :=
    if default (verifySignatures options) true
    then filter (signatureValid crypto_verify encodeReport) reports
    else reports in
  (JS.len reports <? default (minPeers options) 3)%js = false ->
  (default (outlierThreshold options) 2 <? 0)%js = false ->
  (exists r, In r survivors /\ confidenceScore r = JS.NaN) ->
  exists agg,
    aggregate crypto_verify encodeReport reports options = Ok agg
    /\ aggregatedScore agg = JS.NaN
    /\ standardDeviation agg = JS.NaN
    /\ outlierCount agg = 0
    /\ reportCount agg = JS.len survivors
    /\ consensusLevel agg = low
    /\ analyzeTampering percent agg
       = {| tamperingLikely := false;
            indicators := ["Low peer consensus"%string];
            riskLevel := medium |}.
Proof.
  intros survivors Hmin Hthr [r [Hr Hscore]].
  rewrite AggregatorFacts.aggregate_unfold, Hmin. fold survivors.
  assert (Hin : In JS.NaN (map confidenceScore survivors)).
  { rewrite <- Hscore. apply in_map. exact Hr. }
  destruct (poisoned_statistics _ _ Hin Hthr) as [Hmean [Hsd [Hmask Hcons]]].
  rewrite UntrimmedFacts.aggregateReports_untrimmed
    by (cbv zeta; rewrite Hmean, Hsd; exact Hmask).
  eexists. split; [reflexivity|].
  unfold untrimmed. cbv zeta.
  cbn [aggregatedScore standardDeviation outlierCount reportCount consensusLevel].
  rewrite Hmean, Hsd, Hcons. repeat split.
  unfold analyzeTampering. cbv zeta.
  cbn [aggregatedScore standardDeviation outlierCount reportCount consensusLevel].
  assert (Hpos : 0 < INR (List.length survivors)).
  { apply StatFacts.INR_length_pos. intros E. rewrite E in Hr. exact Hr. }
  unfold JS.len. cbn [JS.add JS.lt JS.gt].
  replace (INR (List.length survivors) + 0) with (INR (List.length survivors))
    by lra.
  rewrite StatFacts.div_fin by lra. cbn [JS.lt].
  rewrite Rltb_false by (unfold Rdiv; rewrite Rmult_0_l; lra).
  reflexivity.
Qed.

End WithEnvironment.

Lemma nan_score_voids_aggregation_witness :
  exists agg,
    aggregate (fun _ _ _ => Some true) (fun _ _ _ => [])
      [report_with_score "p1" 0.9; report_with_score "p2" JS.NaN;
       report_with_score "p3" 0.8]
      {| outlierThreshold := None;
         minPeers := None;
         verifySignatures := Some false |} = Ok agg
    /\ aggregatedScore agg = JS.NaN
    /\ consensusLevel agg = low.
Proof.
  destruct (nan_score_voids_aggregation
              (fun _ _ _ => Some true) (fun _ _ _ => []) (fun _ => "x"%string)
              [report_with_score "p1" 0.9; report_with_score "p2" JS.NaN;
               report_with_score "p3" 0.8]
              {| outlierThreshold := None;
                 minPeers := None;
                 verifySignatures := Some false |})
    as [agg [Hagg [Hscore [_ [_ [_ [Hcons _]]]]]]].
  - unfold JS.len, JS.lt. cbn [default minPeers].
    apply Rltb_false. simpl. lra.
  - exact UntrimmedFacts.default_threshold_not_negative.
  - exists (report_with_score "p2" JS.NaN). split; [|reflexivity].
    right. left. reflexivity.
  - exists agg. repeat split; assumption.
Defined.

End PoisonFacts.
